(** * RAPTOR journey planner: a shallow embedding of [source/routing/raptor.cpp]

    The engine state of [RAPTOR] (labels [retour], [best], the queue [Q], the
    marking bitsets, the destination tracker [b_dest], the round counter
    [count]) is threaded explicitly through every operation.  The read-only
    timetable is the record [Data].

    [std::vector] and [boost::dynamic_bitset] are lists indexed by [N]
    ([idx_t] is an unsigned integer whose largest value is [invalid_idx]).
    Indexing a vector out of range is undefined behaviour in the source; here
    a read out of range yields a default element and a write out of range
    leaves the vector unchanged, and the theorems that depend on it assume the
    indices in range. *)

From Stdlib Require Import ZArith NArith List Bool Lia String.
From Stdlib Require QArith Qround.
Import ListNotations.

Set Implicit Arguments.

(** ** Vectors indexed by [N] *)

Section Vector.
Context {A : Type}.

Fixpoint vget (d : A) (l : list A) (i : N) : A :=
  match l with
  | [] => d
  | x :: l' => if (i =? 0)%N then x else vget d l' (N.pred i)
  end.

Fixpoint vset (l : list A) (i : N) (x : A) : list A :=
  match l with
  | [] => []
  | y :: l' => if (i =? 0)%N then x :: l' else y :: vset l' (N.pred i) x
  end.

Definition vsize (l : list A) : N := N.of_nat (List.length l).

(** [l[first], ..., l[first+n-1]], the range an iterator pair delimits. *)
Definition vslice (l : list A) (first : N) (n : N) : list A :=
  firstn (N.to_nat n) (skipn (N.to_nat first) l).
End Vector.

(** ** Identifiers and [DateTime] *)

Definition idx_t := N.
Definition invalid_idx : idx_t := 4294967295%N.
Definition int_max : Z := 2147483647%Z.
Definition uint32_max : N := 4294967295%N.

(** Modelled from the spec: the class [DateTime] is declared outside
    [raptor.cpp].  The spec calls it an ordered, bounded scalar carrying
    (date, seconds-of-day) with [+], [-], comparison and the sentinels [MIN]
    and [INF]; [update(sec)] rolls the scalar so that its seconds equal [sec],
    advancing the date if needed, and [updatereverse(sec)] is the symmetric
    rollback.  It is the number of seconds since day 0, a natural number;
    subtraction stops at [MIN]. *)
Definition DateTime := N.

Module DT.
Definition NB_SECONDS_DAY : N := 86400%N.
Definition inf : DateTime := 4294967295%N.
Definition min : DateTime := 0%N.
Definition date (dt : DateTime) : N := (dt / NB_SECONDS_DAY)%N.
Definition hour (dt : DateTime) : N := (dt mod NB_SECONDS_DAY)%N.
Definition make (d h : N) : DateTime := (d * NB_SECONDS_DAY + h)%N.

Definition update (dt : DateTime) (sec : N) : DateTime :=
  if (sec <? hour dt)%N then make (date dt + 1) sec else make (date dt) sec.

Definition updatereverse (dt : DateTime) (sec : N) : DateTime :=
  if (hour dt <? sec)%N then make (date dt - 1) sec else make (date dt) sec.

(** [dt + seconds] and [dt - seconds], the seconds being a C++ [int]. *)
Definition plus (dt : DateTime) (s : Z) : DateTime := Z.to_N (Z.of_N dt + s).
Definition minus (dt : DateTime) (s : Z) : DateTime := Z.to_N (Z.of_N dt - s).

(** [dt1 - dt2], a signed number of seconds. *)
Definition diff (a b : DateTime) : Z := (Z.of_N a - Z.of_N b)%Z.
End DT.

(** ** Timetable records (the fields [raptor.cpp] reads) *)

Record StopTime := {
  st_idx : idx_t;
  arrival_time : N;
  departure_time : N;
  vehicle_journey_idx : idx_t;
  route_point_idx : idx_t;
  local_traffic_zone : N;
  pick_up_allowed : bool;
  drop_off_allowed : bool
}.

Record RoutePoint := {
  rp_idx : idx_t;
  order : Z;
  route_idx : idx_t;
  stop_point_idx : idx_t
}.

Record Route := {
  r_idx : idx_t;
  line_idx : idx_t;
  mode_type_idx : idx_t;
  r_external_code : string;
  vehicle_journey_list : list idx_t;
  r_route_point_list : list idx_t
}.

Record StopPoint := { route_point_list : list idx_t }.
Record StopArea := { stop_point_list : list idx_t }.
Record Line := { l_external_code : string }.
Record ModeType := { m_external_code : string }.

Record VehicleJourney := {
  validity_pattern_idx : idx_t;
  stop_time_list : list idx_t
}.

(** An element of [dataRaptor.foot_path]. *)
Record Connection := {
  destination_stop_point_idx : idx_t;
  duration : Z
}.

Inductive ConnectionKind := extension | guarantee.

(** An element of [footpath_rp_forward] / [footpath_rp_backward]. *)
Record RoutePointConnection := {
  departure_route_point_idx : idx_t;
  destination_route_point_idx : idx_t;
  length_rpc : Z;
  connection_kind : ConnectionKind
}.

(** ** Labels *)

Inductive boarding_type :=
| uninitialized | depart | vj
| connection | connection_extension | connection_guarantee.

Definition boarding_type_eqb (a b : boarding_type) : bool :=
  match a, b with
  | uninitialized, uninitialized | depart, depart | vj, vj
  | connection, connection | connection_extension, connection_extension
  | connection_guarantee, connection_guarantee => true
  | _, _ => false
  end.

Record type_retour := {
  stop_time_idx : idx_t;
  arrival : DateTime;
  departure : DateTime;
  type : boarding_type;
  rpid_embarquement : idx_t
}.

(** Modelled from the spec: the constructors of [type_retour] are declared
    outside [raptor.cpp].  The default label is the uninitialized sentinel;
    [type_retour(arrival, departure)] is a [Departure] seed;
    [type_retour(arrival, departure, rp)] a [Connection] referencing [rp];
    the four-argument form names the connection type;
    [type_retour(st, dt, embarquement, clockwise)] is a [VehicleJourney] label
    whose arrival (forward) or departure (reverse) is [dt], the other instant
    being the stop-time's other time mapped to the label's date. *)
Definition retour_default : type_retour :=
  {| stop_time_idx := invalid_idx; arrival := DT.inf; departure := DT.inf;
     type := uninitialized; rpid_embarquement := invalid_idx |}.

Definition retour_depart (arr dep : DateTime) : type_retour :=
  {| stop_time_idx := invalid_idx; arrival := arr; departure := dep;
     type := depart; rpid_embarquement := invalid_idx |}.

Definition retour_typed (arr dep : DateTime) (rp : idx_t) (ty : boarding_type)
  : type_retour :=
  {| stop_time_idx := invalid_idx; arrival := arr; departure := dep;
     type := ty; rpid_embarquement := rp |}.

Definition retour_connection (arr dep : DateTime) (rp : idx_t) : type_retour :=
  retour_typed arr dep rp connection.

Definition retour_vj (st : StopTime) (dt : DateTime) (embarquement : idx_t)
  (clockwise : bool) : type_retour :=
  if clockwise then
    {| stop_time_idx := st_idx st; arrival := dt;
       departure := DT.update dt (departure_time st);
       type := vj; rpid_embarquement := embarquement |}
  else
    {| stop_time_idx := st_idx st;
       arrival := DT.updatereverse dt (arrival_time st); departure := dt;
       type := vj; rpid_embarquement := embarquement |}.

(** Modelled from the spec: a validity pattern is the per-day bitmap of a
    vehicle journey's operation; the class and its [check2] are declared
    outside [raptor.cpp]. *)
Record ValidityPattern := { days : list bool }.

(** ** The read-only timetable [data] *)

Record Data := {
  routes : list Route;
  route_points : list RoutePoint;
  stop_points : list StopPoint;
  stop_areas : list StopArea;
  stop_times : list StopTime;
  vehicle_journeys : list VehicleJourney;
  lines : list Line;
  mode_types : list ModeType;
  validity_patterns : list ValidityPattern;
  foot_path : list Connection;
  footpath_index : list (Z * Z);
  footpath_rp_forward : list (idx_t * RoutePointConnection);
  footpath_rp_backward : list (idx_t * RoutePointConnection);
  retour_constant : list type_retour;
  retour_constant_reverse : list type_retour
}.

Definition StopTime_default : StopTime :=
  {| st_idx := invalid_idx; arrival_time := 0; departure_time := 0;
     vehicle_journey_idx := invalid_idx; route_point_idx := invalid_idx;
     local_traffic_zone := uint32_max; pick_up_allowed := false;
     drop_off_allowed := false |}.

Definition RoutePoint_default : RoutePoint :=
  {| rp_idx := invalid_idx; order := 0; route_idx := invalid_idx;
     stop_point_idx := invalid_idx |}.

Definition StopPoint_default : StopPoint := {| route_point_list := [] |}.
Definition StopArea_default : StopArea := {| stop_point_list := [] |}.
Definition Line_default : Line := {| l_external_code := EmptyString |}.
Definition ModeType_default : ModeType := {| m_external_code := EmptyString |}.
Definition VehicleJourney_default : VehicleJourney :=
  {| validity_pattern_idx := invalid_idx; stop_time_list := [] |}.

(** A C++ [double], idealised as an exact rational: rounding is not modelled. *)
Definition double := QArith_base.Q.

(** [init::Departure_Type], the seed of a pass. *)
Record Departure_Type := {
  rpidx : idx_t;
  d_arrival : DateTime;
  d_departure : DateTime
}.

(** ** Paths

    Modelled from the spec: [Path] and [PathItem] are declared outside
    [raptor.cpp]; the spec gives their fields.  [PathItem(departure, arrival)]
    sets the two instants, the default item has neither stop nor time.
    [request_time] is written by the multi-datetime drivers only and is left
    out. *)
Module ItemType.
Inductive t := public_transport | walking | extension | guarantee.
Definition eqb (a b : t) : bool :=
  match a, b with
  | public_transport, public_transport | walking, walking
  | extension, extension | guarantee, guarantee => true
  | _, _ => false
  end.
End ItemType.

Module PathItem.
Record t := {
  arrival : DateTime;
  departure : DateTime;
  arrivals : list DateTime;
  departures : list DateTime;
  stop_points : list idx_t;
  vj_idx : idx_t;
  type : ItemType.t
}.
Definition make (dep arr : DateTime) : t :=
  {| arrival := arr; departure := dep; arrivals := []; departures := [];
     stop_points := []; vj_idx := invalid_idx;
     type := ItemType.public_transport |}.
Definition default : t := make DT.inf DT.inf.
End PathItem.

Module Path.
Record t := {
  items : list PathItem.t;
  duration : Z;
  nb_changes : N;
  percent_visited : N
}.
End Path.

(** ** Code of the repository used by [raptor.cpp] and declared elsewhere

    The destination tracker [best_dest], the trip searches of the route scan,
    [ValidityPattern::check2] and [init::getDepartures] are not part of
    [raptor.cpp]; the engine is parametrised by them.  A method that mutates
    the tracker returns the new tracker next to its result. *)
Class Externals := {
  best_dest : Type;
  best_now : best_dest -> type_retour;
  best_now_rpid : best_dest -> idx_t;
  reinit : best_dest -> N -> DateTime -> bool -> best_dest;
  ajouter_destination : best_dest -> idx_t -> double -> best_dest;
  ajouter_best :
    best_dest -> idx_t -> type_retour -> N -> bool -> best_dest * bool;
  ajouter_best_reverse :
    best_dest -> idx_t -> type_retour -> N -> best_dest * bool;
  earliest_trip : Route -> Z -> DateTime -> Data -> Z;
  tardiest_trip : Route -> Z -> DateTime -> Data -> Z;
  check2 : ValidityPattern -> N -> bool;
  global_pruning_default : bool;
  getDepartures :
    list (idx_t * double) -> DateTime -> bool -> Data -> list Departure_Type;
  getDepartures_retour :
    list (idx_t * double) -> list (idx_t * double) -> bool ->
    list (list type_retour) -> Data -> list Departure_Type
}.

(** ** The engine state *)

Record RAPTOR `{Externals} := {
  retour : list (list type_retour);
  best : list type_retour;
  Q : list Z;
  marked_rp : list bool;
  marked_sp : list bool;
  routes_valides : list bool;
  b_dest : best_dest;
  count : N
}.

Section Engine.
Context `{E : Externals}.
Variable data : Data.

Definition with_retour (s : RAPTOR) (x : list (list type_retour)) : RAPTOR :=
  {| retour := x; best := best s; Q := Q s; marked_rp := marked_rp s;
     marked_sp := marked_sp s; routes_valides := routes_valides s;
     b_dest := b_dest s; count := count s |}.

Definition with_best (s : RAPTOR) (x : list type_retour) : RAPTOR :=
  {| retour := retour s; best := x; Q := Q s; marked_rp := marked_rp s;
     marked_sp := marked_sp s; routes_valides := routes_valides s;
     b_dest := b_dest s; count := count s |}.

Definition with_Q (s : RAPTOR) (x : list Z) : RAPTOR :=
  {| retour := retour s; best := best s; Q := x; marked_rp := marked_rp s;
     marked_sp := marked_sp s; routes_valides := routes_valides s;
     b_dest := b_dest s; count := count s |}.

Definition with_marked_rp (s : RAPTOR) (x : list bool) : RAPTOR :=
  {| retour := retour s; best := best s; Q := Q s; marked_rp := x;
     marked_sp := marked_sp s; routes_valides := routes_valides s;
     b_dest := b_dest s; count := count s |}.

Definition with_marked_sp (s : RAPTOR) (x : list bool) : RAPTOR :=
  {| retour := retour s; best := best s; Q := Q s; marked_rp := marked_rp s;
     marked_sp := x; routes_valides := routes_valides s;
     b_dest := b_dest s; count := count s |}.

Definition with_routes_valides (s : RAPTOR) (x : list bool) : RAPTOR :=
  {| retour := retour s; best := best s; Q := Q s; marked_rp := marked_rp s;
     marked_sp := marked_sp s; routes_valides := x;
     b_dest := b_dest s; count := count s |}.

Definition with_b_dest (s : RAPTOR) (x : best_dest) : RAPTOR :=
  {| retour := retour s; best := best s; Q := Q s; marked_rp := marked_rp s;
     marked_sp := marked_sp s; routes_valides := routes_valides s;
     b_dest := x; count := count s |}.

Definition with_count (s : RAPTOR) (x : N) : RAPTOR :=
  {| retour := retour s; best := best s; Q := Q s; marked_rp := marked_rp s;
     marked_sp := marked_sp s; routes_valides := routes_valides s;
     b_dest := b_dest s; count := x |}.

(** [retour[k][rp]] and [best[rp]], read and written. *)
Definition label (s : RAPTOR) (k : N) (rp : idx_t) : type_retour :=
  vget retour_default (vget [] (retour s) k) rp.

Definition set_label (s : RAPTOR) (k : N) (rp : idx_t) (r : type_retour)
  : RAPTOR :=
  with_retour s (vset (retour s) k (vset (vget [] (retour s) k) rp r)).

Definition best_at (s : RAPTOR) (rp : idx_t) : type_retour :=
  vget retour_default (best s) rp.

Definition set_best (s : RAPTOR) (rp : idx_t) (r : type_retour) : RAPTOR :=
  with_best s (vset (best s) rp r).

Definition Q_at (s : RAPTOR) (r : idx_t) : Z := vget 0%Z (Q s) r.
Definition set_Q (s : RAPTOR) (r : idx_t) (o : Z) : RAPTOR :=
  with_Q s (vset (Q s) r o).

Definition route_point (rp : idx_t) : RoutePoint :=
  vget RoutePoint_default (route_points data) rp.
Definition stop_point (sp : idx_t) : StopPoint :=
  vget StopPoint_default (stop_points data) sp.
Definition stop_time (i : idx_t) : StopTime :=
  vget StopTime_default (stop_times data) i.

(** The indices of the set bits, ascending: [find_first] / [find_next]. *)
Fixpoint set_bits_from (i : N) (bs : list bool) : list idx_t :=
  match bs with
  | [] => []
  | b :: bs' =>
      if b then i :: set_bits_from (N.succ i) bs'
      else set_bits_from (N.succ i) bs'
  end.
Definition set_bits (bs : list bool) : list idx_t := set_bits_from 0 bs.

(** [bitset.reset()]: every bit cleared, the size kept. *)
Definition reset_bits (bs : list bool) : list bool := map (fun _ => false) bs.

(** [RAPTOR::make_queue] and [RAPTOR::make_queuereverse]. *)
Definition make_queue (s : RAPTOR) : RAPTOR :=
  with_marked_sp (with_marked_rp s (reset_bits (marked_rp s)))
                 (reset_bits (marked_sp s)).

Definition make_queuereverse (s : RAPTOR) : RAPTOR :=
  with_marked_sp (with_marked_rp s (reset_bits (marked_rp s)))
                 (reset_bits (marked_sp s)).

Definition is_uninitialized (r : type_retour) : bool :=
  boarding_type_eqb (type r) uninitialized.

(** ** [raptor_visitor::store_better] and [raptor_reverse_visitor::store_better]

    The reference parameter [working_date_time] is returned next to the state
    and the result. *)
Definition store_better (s : RAPTOR) (rpid : idx_t)
  (working_date_time : DateTime) (bound : type_retour) (st : StopTime)
  (embarquement : idx_t) : RAPTOR * DateTime * bool :=
  let working_date_time := DT.update working_date_time (arrival_time st) in
  if (working_date_time <? arrival bound)%N && drop_off_allowed st then
    let r := retour_vj st working_date_time embarquement true in
    let s := set_best (set_label s (count s) rpid r) rpid r in
    let '(b, absorbed) := ajouter_best (b_dest s) rpid r (count s) true in
    let s := with_b_dest s b in
    if negb absorbed then
      let s := with_marked_rp s (vset (marked_rp s) rpid true) in
      let s := with_marked_sp s
                 (vset (marked_sp s) (stop_point_idx (route_point rpid)) true) in
      (s, working_date_time, false)
    else (s, working_date_time, true)
  else if (working_date_time =? arrival bound)%N
          && is_uninitialized (label s (count s - 1) rpid) then
    let r := retour_vj st working_date_time embarquement true in
    let '(b, absorbed) := ajouter_best (b_dest s) rpid r (count s) true in
    let s := with_b_dest s b in
    if absorbed then
      (set_best (set_label s (count s) rpid r) rpid r, working_date_time, true)
    else (s, working_date_time, true)
  else (s, working_date_time, true).

Definition store_better_reverse (s : RAPTOR) (rpid : idx_t)
  (working_date_time : DateTime) (bound : type_retour) (st : StopTime)
  (embarquement : idx_t) : RAPTOR * DateTime * bool :=
  let working_date_time :=
    DT.updatereverse working_date_time (departure_time st) in
  if (departure bound <? working_date_time)%N && pick_up_allowed st then
    let r := retour_vj st working_date_time embarquement false in
    let s := set_best (set_label s (count s) rpid r) rpid r in
    let '(b, absorbed) := ajouter_best_reverse (b_dest s) rpid r (count s) in
    let s := with_b_dest s b in
    if negb absorbed then
      let s := with_marked_rp s (vset (marked_rp s) rpid true) in
      let s := with_marked_sp s
                 (vset (marked_sp s) (stop_point_idx (route_point rpid)) true) in
      (s, working_date_time, false)
    else (s, working_date_time, true)
  else if (working_date_time =? departure bound)%N
          && is_uninitialized (label s (count s - 1) rpid) then
    let r := retour_vj st working_date_time embarquement false in
    let '(b, absorbed) := ajouter_best_reverse (b_dest s) rpid r (count s) in
    let s := with_b_dest s b in
    if absorbed then
      (set_label s (count s) rpid r, working_date_time, true)
    else (s, working_date_time, true)
  else (s, working_date_time, true).

(** ** The footpath relaxer, [RAPTOR::foot_path]

    The template parameter [Visitor] is a record; [walking_visitor] and
    [walking_backwards_visitor] are its two instances.  [comp] is used at
    [DateTime] and at [int] (the queue orders). *)
Record WalkingVisitor := {
  worst : DateTime;
  comp : DateTime -> DateTime -> bool;
  comp_int : Z -> Z -> bool;
  combine : DateTime -> Z -> DateTime;
  instant : type_retour -> DateTime;
  clockwise : bool
}.

Definition walking_backwards_visitor : WalkingVisitor :=
  {| worst := DT.min;
     comp := fun a b => (b <? a)%N;
     comp_int := fun a b => (b <? a)%Z;
     combine := DT.minus;
     instant := departure;
     clockwise := false |}.

Definition walking_visitor : WalkingVisitor :=
  {| worst := DT.inf;
     comp := fun a b => (a <? b)%N;
     comp_int := fun a b => (a <? b)%Z;
     combine := DT.plus;
     instant := arrival;
     clockwise := true |}.

(** Lines 117-124: the pivot of a stop point, [(best_arrival, best_rp)]. *)
Definition select_pivot (v : WalkingVisitor) (s : RAPTOR) (rps : list idx_t)
  : DateTime * idx_t :=
  fold_left
    (fun (acc : DateTime * idx_t) rpidx =>
       let '(best_arrival, best_rp) := acc in
       let r := label s (count s) rpidx in
       if (boarding_type_eqb (type r) vj || boarding_type_eqb (type r) depart)
          && comp v (arrival r) best_arrival
       then (arrival r, rpidx)
       else (best_arrival, best_rp))
    rps (worst v, invalid_idx).

(** Lines 133-137 and 163-167: the label is offered to the destination
    tracker and, unless absorbed, the queue of its route is tightened. *)
Definition offer_and_queue (v : WalkingVisitor) (s : RAPTOR) (rpidx : idx_t)
  (nRetour : type_retour) : RAPTOR :=
  let rp := route_point rpidx in
  let '(b, absorbed) :=
    ajouter_best (b_dest s) rpidx nRetour (count s) (clockwise v) in
  let s := with_b_dest s b in
  if negb absorbed && comp_int v (order rp) (Q_at s (route_idx rp))
  then set_Q s (route_idx rp) (order rp)
  else s.

(** Lines 129-138: one route point of the marked stop point. *)
Definition relax_same_stop (v : WalkingVisitor) (best_rp : idx_t)
  (best_departure : DateTime) (s : RAPTOR) (rpidx : idx_t) : RAPTOR :=
  if negb (rpidx =? best_rp)%N
     && comp v best_departure (instant v (best_at s rpidx))
  then
    let nRetour := retour_connection best_departure best_departure best_rp in
    let s := set_best s rpidx nRetour in
    let s := set_label s (count s) rpidx nRetour in
    offer_and_queue v s rpidx nRetour
  else s.

(** Lines 154-169: one route point of a footpath's destination stop point;
    [next] and [prec_duration] are carried along. *)
Definition relax_footpath_rp (v : WalkingVisitor) (best_rp : idx_t)
  (previous : DateTime) (dur : Z) (acc : RAPTOR * DateTime * Z)
  (destination_rp : idx_t) : RAPTOR * DateTime * Z :=
  let '(s, next, prec_duration) := acc in
  if negb (best_rp =? destination_rp)%N then
    let '(next, prec_duration) :=
      if negb (dur =? prec_duration)%Z
      then (combine v previous dur, dur)
      else (next, prec_duration) in
    if comp v next (instant v (best_at s destination_rp))
       || (next =? instant v (best_at s destination_rp))%N
    then
      let nRetour := retour_connection next next best_rp in
      let s := set_best s destination_rp nRetour in
      let s := set_label s (count s) destination_rp nRetour in
      (offer_and_queue v s destination_rp nRetour, next, prec_duration)
    else (s, next, prec_duration)
  else (s, next, prec_duration).

Definition Connection_default : Connection :=
  {| destination_stop_point_idx := invalid_idx; duration := 0 |}.

(** Lines 151-171: the footpaths at positions [it, it + n) of [foot_path]. *)
Definition relax_footpaths (v : WalkingVisitor) (best_rp : idx_t)
  (previous : DateTime) (it n : Z) (s : RAPTOR) : RAPTOR * DateTime * Z :=
  fold_left
    (fun acc k =>
       let c := vget Connection_default (foot_path data)
                     (Z.to_N (it + Z.of_nat k)) in
       fold_left (relax_footpath_rp v best_rp previous (duration c))
                 (route_point_list (stop_point (destination_stop_point_idx c)))
                 acc)
    (seq 0 (Z.to_nat n)) (s, worst v, (-1)%Z).

(** Lines 116-173: one marked stop point; the iterator [it] into [foot_path]
    and [last] are carried from one stop point to the next. *)
Definition foot_path_sp (v : WalkingVisitor) (acc : RAPTOR * Z * Z)
  (stop_point_idx : idx_t) : RAPTOR * Z * Z :=
  let '(s, it, last) := acc in
  let rps := route_point_list (stop_point stop_point_idx) in
  let '(best_arrival, best_rp) := select_pivot v s rps in
  if negb (best_rp =? invalid_idx)%N then
    let best_departure := combine v best_arrival 120 in
    let s := fold_left (relax_same_stop v best_rp best_departure) rps s in
    let index := vget (0%Z, 0%Z) (footpath_index data) stop_point_idx in
    let previous := instant v (label s (count s) best_rp) in
    let it := (it + (fst index - last))%Z in
    let '(s, _, _) := relax_footpaths v best_rp previous it (snd index) s in
    (s, (it + snd index)%Z, (fst index + snd index)%Z)
  else (s, it, last).

(** The marked stop points are visited in ascending order; [foot_path] does
    not write [marked_sp]. *)
Definition foot_path_run (v : WalkingVisitor) (s : RAPTOR) : RAPTOR :=
  fst (fst (fold_left (foot_path_sp v) (set_bits (marked_sp s))
                      (s, 0%Z, 0%Z))).

Definition marcheapied (s : RAPTOR) : RAPTOR := foot_path_run walking_visitor s.
Definition marcheapiedreverse (s : RAPTOR) : RAPTOR :=
  foot_path_run walking_backwards_visitor s.

(** ** The route-point connection relaxers *)

(** [multimap::equal_range]: the entries of key [rp], in their order. *)
Definition equal_range (m : list (idx_t * RoutePointConnection)) (rp : idx_t)
  : list RoutePointConnection :=
  map snd (filter (fun p => (fst p =? rp)%N) m).

Definition connection_type (k : ConnectionKind) : boarding_type :=
  match k with
  | extension => connection_extension
  | guarantee => connection_guarantee
  end.

Definition route_path_connections_forward (s : RAPTOR) : RAPTOR :=
  let '(s, to_mark) :=
    fold_left
      (fun acc rp =>
         fold_left
           (fun (acc : RAPTOR * list idx_t) rpc =>
              let '(s, to_mark) := acc in
              let dt := DT.plus (arrival (label s (count s) rp))
                                (length_rpc rpc) in
              let dest := destination_route_point_idx rpc in
              if boarding_type_eqb (type (label s (count s) rp)) vj
                 && (dt <? arrival (best_at s dest))%N
              then
                let r := retour_typed dt dt rp
                           (connection_type (connection_kind rpc)) in
                let s := set_label s (count s) dest r in
                let s := set_best s dest r in
                (s, to_mark ++ [dest])
              else (s, to_mark))
           (equal_range (footpath_rp_forward data) rp) acc)
      (set_bits (marked_rp s)) (s, []) in
  fold_left
    (fun s rp =>
       let s := with_marked_rp s (vset (marked_rp s) rp true) in
       let route_point := route_point rp in
       if (order route_point <? Q_at s (route_idx route_point))%Z
       then set_Q s (route_idx route_point) (order route_point)
       else s)
    to_mark s.

Definition route_path_connections_backward (s : RAPTOR) : RAPTOR :=
  let '(s, to_mark) :=
    fold_left
      (fun acc rp =>
         fold_left
           (fun (acc : RAPTOR * list idx_t) rpc =>
              let '(s, to_mark) := acc in
              let dt := DT.minus (arrival (label s (count s) rp))
                                 (length_rpc rpc) in
              let dep := departure_route_point_idx rpc in
              if boarding_type_eqb (type (label s (count s) rp)) vj
                 && (arrival (best_at s dep) <? dt)%N
              then
                let r := retour_typed dt dt rp
                           (connection_type (connection_kind rpc)) in
                let s := set_label s (count s) dep r in
                let s := set_best s dep r in
                (s, to_mark ++ [dep])
              else (s, to_mark))
           (equal_range (footpath_rp_backward data) rp) acc)
      (set_bits (marked_rp s)) (s, []) in
  fold_left
    (fun s rp =>
       let s := with_marked_rp s (vset (marked_rp s) rp true) in
       let route_point := route_point rp in
       if (Q_at s (route_idx route_point) <? order route_point)%Z
       then set_Q s (route_idx route_point) (order route_point)
       else s)
    to_mark s.

(** ** The round loop, [RAPTOR::raptor_loop]

    The template parameter [Visitor] is a record of the members the loop
    calls; [raptor_visitor] and [raptor_reverse_visitor] are its instances.
    The iterator over [stop_times] is a position, advanced by
    [next_stoptime] (a [const_iterator] forward, a [const_reverse_iterator]
    in reverse). *)
Record Visitor := {
  embarquement_init : idx_t;
  working_datetime_init : DateTime;
  better : type_retour -> type_retour -> bool;
  better_or_equal : type_retour -> DateTime -> StopTime -> bool;
  walking : RAPTOR -> RAPTOR;
  route_path_connections : RAPTOR -> RAPTOR;
  v_make_queue : RAPTOR -> RAPTOR;
  best_trip : Route -> Z -> DateTime -> Z;
  one_more_step : RAPTOR -> RAPTOR;
  v_store_better :
    RAPTOR -> idx_t -> DateTime -> type_retour -> StopTime -> idx_t ->
    RAPTOR * DateTime * bool;
  previous_datetime : type_retour -> DateTime;
  current_datetime : N -> StopTime -> DateTime;
  v_route_points : Route -> Z -> list RoutePoint;
  first_stoptime : N -> Z;
  next_stoptime : Z -> Z;
  v_update : DateTime -> StopTime -> DateTime;
  reset_queue_item : Z
}.

(** [visitor.route_points(route, order)]: the route points from
    [route.route_point_list[order]] to the end of the route (forward), or
    from it back to the start of the route (reverse); the route points of a
    route are contiguous in [data.pt_data.route_points]. *)
Definition route_points_forward (route : Route) (o : Z) : list RoutePoint :=
  let first := vget 0%N (r_route_point_list route) (Z.to_N o) in
  let back := last (r_route_point_list route) 0%N in
  vslice (route_points data) first (back + 1 - first).

Definition route_points_reverse (route : Route) (o : Z) : list RoutePoint :=
  let first := vget 0%N (r_route_point_list route) (Z.to_N o) in
  rev (vslice (route_points data) (first - Z.to_N o) (Z.to_N o + 1)).

Definition raptor_visitor : Visitor :=
  {| embarquement_init := invalid_idx;
     working_datetime_init := DT.inf;
     better := fun a b => (arrival a <? arrival b)%N;
     better_or_equal := fun a current_dt st =>
       (arrival a <=? DT.make (DT.date current_dt) (departure_time st))%N;
     walking := marcheapied;
     route_path_connections := route_path_connections_forward;
     v_make_queue := make_queue;
     best_trip := fun route o dt => earliest_trip route o dt data;
     one_more_step := fun s =>
       with_retour s (retour s ++ [retour_constant data]);
     v_store_better := store_better;
     previous_datetime := arrival;
     current_datetime := fun d st => DT.make d (departure_time st);
     v_route_points := route_points_forward;
     first_stoptime := fun position => Z.of_N position;
     next_stoptime := fun it => (it + 1)%Z;
     v_update := fun dt st => DT.update dt (arrival_time st);
     reset_queue_item := int_max |}.

Definition raptor_reverse_visitor : Visitor :=
  {| embarquement_init := 2147483647%N;
     working_datetime_init := DT.min;
     better := fun a b => (departure b <? departure a)%N;
     better_or_equal := fun a current_dt st =>
       (DT.make (DT.date current_dt) (arrival_time st) <=? departure a)%N;
     walking := marcheapiedreverse;
     route_path_connections := route_path_connections_backward;
     v_make_queue := make_queuereverse;
     best_trip := fun route o dt => tardiest_trip route o dt data;
     one_more_step := fun s =>
       with_retour s (retour s ++ [retour_constant_reverse data]);
     v_store_better := store_better_reverse;
     previous_datetime := departure;
     current_datetime := fun d st => DT.make d (arrival_time st);
     v_route_points := route_points_reverse;
     first_stoptime := fun position => Z.of_N position;
     next_stoptime := fun it => (it - 1)%Z;
     v_update := fun dt st => DT.updatereverse dt (departure_time st);
     reset_queue_item := (-1)%Z |}.

(** The locals of [raptor_loop] that the route scan carries: the boarded
    trip [t], the boarding route point, the working datetime, the stop-time
    cursor and the local traffic zone. *)
Record Boarding := {
  t : Z;
  embarquement : idx_t;
  workingDt : DateTime;
  it_st : Z;
  l_zone : N
}.

(** Lines 644-646: the locals as declared before the loop. *)
Definition boarding_init (v : Visitor) : Boarding :=
  {| t := (-1)%Z; embarquement := embarquement_init v;
     workingDt := working_datetime_init v; it_st := 0%Z;
     l_zone := uint32_max |}.

(** Lines 658-661: the assignments made when the scan of a route starts.
    [it_st] is declared afresh and is not read before a trip is boarded. *)
Definition route_entry (v : Visitor) (b : Boarding) : Boarding :=
  {| t := (-1)%Z; embarquement := embarquement_init v;
     workingDt := working_datetime_init v; it_st := 0%Z;
     l_zone := l_zone b |}.

Definition VJ_stop_time (vjidx : Z) (o : Z) : N :=
  vget 0%N
    (stop_time_list
       (vget VehicleJourney_default (vehicle_journeys data) (Z.to_N vjidx)))
    (Z.to_N o).

(** Lines 663-672: the store attempt at a route point. *)
Definition scan_store (v : Visitor) (global_pruning : bool)
  (acc : RAPTOR * Boarding * bool) (rp : RoutePoint)
  : RAPTOR * Boarding * bool :=
  let '(s, b, end_) := acc in
  if (0 <=? t b)%Z then
    let it := next_stoptime v (it_st b) in
    let b := {| t := t b; embarquement := embarquement b;
                workingDt := workingDt b; it_st := it; l_zone := l_zone b |} in
    let st := stop_time (Z.to_N it) in
    if (l_zone b =? uint32_max)%N
       || negb (l_zone b =? local_traffic_zone st)%N
    then
      let bound :=
        if better v (best_at s (rp_idx rp)) (best_now (b_dest s))
           || negb global_pruning
        then best_at s (rp_idx rp)
        else best_now (b_dest s) in
      let '(s, wdt, r) :=
        v_store_better v s (rp_idx rp) (workingDt b) bound st
                       (embarquement b) in
      (s,
       {| t := t b; embarquement := embarquement b; workingDt := wdt;
          it_st := it_st b; l_zone := l_zone b |},
       r && end_)
    else (s, b, end_)
  else (s, b, end_).

(** Lines 674-688: boarding the trip the previous round's label catches. *)
Definition scan_board (v : Visitor) (route : Route)
  (acc : RAPTOR * Boarding * bool) (rp : RoutePoint)
  : RAPTOR * Boarding * bool :=
  let '(s, b, end_) := acc in
  let retour_temp := label s (count s - 1) (rp_idx rp) in
  if negb (is_uninitialized retour_temp)
     && ((t b =? -1)%Z
         || better_or_equal v retour_temp (workingDt b)
                            (stop_time (Z.to_N (it_st b))))
  then
    let etemp := best_trip v route (order rp) (previous_datetime v retour_temp) in
    if (0 <=? etemp)%Z && negb (t b =? etemp)%Z then
      let it := first_stoptime v (VJ_stop_time etemp (order rp)) in
      let st := stop_time (Z.to_N it) in
      (s,
       {| t := etemp; embarquement := rp_idx rp;
          workingDt := v_update v (previous_datetime v retour_temp) st;
          it_st := it; l_zone := local_traffic_zone st |},
       end_)
    else (s, b, end_)
  else (s, b, end_).

Definition scan_rp (v : Visitor) (global_pruning : bool) (route : Route)
  (acc : RAPTOR * Boarding * bool) (rp : RoutePoint)
  : RAPTOR * Boarding * bool :=
  scan_board v route (scan_store v global_pruning acc rp) rp.

(** Line 657: the route is scanned when it is queued and valid. *)
Definition route_is_scanned (s : RAPTOR) (route : Route) : bool :=
  negb (Q_at s (r_idx route) =? int_max)%Z
  && negb (Q_at s (r_idx route) =? -1)%Z
  && vget false (routes_valides s) (r_idx route).

(** Lines 656-692: one route of the scan. *)
Definition scan_route (v : Visitor) (global_pruning : bool)
  (acc : RAPTOR * Boarding * bool) (route : Route)
  : RAPTOR * Boarding * bool :=
  let '(s, b, end_) := acc in
  let '(s, b, end_) :=
    if route_is_scanned s route then
      fold_left (scan_rp v global_pruning route)
                (v_route_points v route (Q_at s (r_idx route)))
                (s, route_entry v b, end_)
    else (s, b, end_) in
  (set_Q s (r_idx route) (reset_queue_item v), b, end_).

(** Lines 650-694: one round; the last component is [end]. *)
Definition raptor_round (v : Visitor) (global_pruning : bool) (s : RAPTOR)
  (b : Boarding) : RAPTOR * Boarding * bool :=
  let s := with_count s (count s + 1) in
  let s := if (count s =? vsize (retour s))%N then one_more_step v s else s in
  let s := v_make_queue v s in
  let '(s, b, end_) :=
    fold_left (scan_route v global_pruning) (routes data) (s, b, true) in
  let s := route_path_connections v s in
  let s := walking v s in
  (s, b, end_).

(** [while(!end)]: [None] when the fuel runs out before [end] holds. *)
Fixpoint raptor_rounds (fuel : nat) (v : Visitor) (global_pruning : bool)
  (s : RAPTOR) (b : Boarding) : option RAPTOR :=
  match fuel with
  | O => None
  | S fuel' =>
      let '(s, b, end_) := raptor_round v global_pruning s b in
      if end_ then Some s else raptor_rounds fuel' v global_pruning s b
  end.

Definition raptor_loop (fuel : nat) (v : Visitor) (global_pruning : bool)
  (s : RAPTOR) : option RAPTOR :=
  let s := with_count s 0 in
  let s := walking v s in
  raptor_rounds fuel v global_pruning s (boarding_init v).

Definition boucleRAPTOR (fuel : nat) (global_pruning : bool) (s : RAPTOR)
  : option RAPTOR :=
  raptor_loop fuel raptor_visitor global_pruning s.

Definition boucleRAPTORreverse (fuel : nat) (global_pruning : bool)
  (s : RAPTOR) : option RAPTOR :=
  raptor_loop fuel raptor_reverse_visitor global_pruning s.

(** ** [RAPTOR::set_routes_valides] *)

(** Lines 421-429: the forbidden list is matched against the route. *)
Definition forbidden_route (forbidden : list (string * string)) (route : Route)
  : bool :=
  let line := vget Line_default (lines data) (line_idx route) in
  let mode := vget ModeType_default (mode_types data) (mode_type_idx route) in
  fold_left
    (fun (forbidden_route : bool) (pair : string * string) =>
       let forbidden_route :=
         if String.eqb (fst pair) "line"
            && String.eqb (snd pair) (l_external_code line)
         then true else forbidden_route in
       let forbidden_route :=
         if String.eqb (fst pair) "route"
            && String.eqb (snd pair) (r_external_code route)
         then true else forbidden_route in
       if String.eqb (fst pair) "mode"
          && String.eqb (snd pair) (m_external_code mode)
       then true else forbidden_route)
    forbidden false.

Definition vj_check2 (date : N) (vjidx : idx_t) : bool :=
  check2
    (vget {| days := [] |} (validity_patterns data)
       (validity_pattern_idx
          (vget VehicleJourney_default (vehicle_journeys data) vjidx)))
    date.

(** Lines 433-438: the loop stops at the first vehicle journey that
    circulates. *)
Fixpoint some_vj_circulates (date : N) (vjs : list idx_t) : bool :=
  match vjs with
  | [] => false
  | vjidx :: vjs' =>
      if vj_check2 date vjidx then true else some_vj_circulates date vjs'
  end.

Definition set_routes_valides (s : RAPTOR) (date : N)
  (forbidden : list (string * string)) : RAPTOR :=
  with_routes_valides s
    (fold_left
       (fun rv route =>
          if negb (forbidden_route forbidden route) then
            if some_vj_circulates date (vehicle_journey_list route)
            then vset rv (r_idx route) true
            else rv
          else rv)
       (routes data)
       (repeat false (List.length (routes data)))).

(** ** [RAPTOR::clear_and_init] *)

(** Modelled from the spec: a [double] added to or subtracted from a
    [DateTime] is a number of seconds; the operators are declared outside
    [raptor.cpp].  The fraction is dropped, as a C++ conversion to an integer
    does. *)
Definition double_seconds (x : double) : Z :=
  Z.quot (QArith_base.Qnum x) (Zpos (QArith_base.Qden x)).

Definition with_arrival (r : type_retour) (dt : DateTime) : type_retour :=
  {| stop_time_idx := stop_time_idx r; arrival := dt;
     departure := departure r; type := type r;
     rpid_embarquement := rpid_embarquement r |}.

Definition with_departure (r : type_retour) (dt : DateTime) : type_retour :=
  {| stop_time_idx := stop_time_idx r; arrival := arrival r;
     departure := dt; type := type r;
     rpid_embarquement := rpid_embarquement r |}.

(** Lines 219-229: one seed. *)
Definition init_depart (clockwise : bool) (s : RAPTOR) (item : Departure_Type)
  : RAPTOR :=
  let r := retour_depart (d_arrival item) (d_arrival item) in
  let s := set_label s 0 (rpidx item) r in
  let s := set_best s (rpidx item) r in
  let rp := route_point (rpidx item) in
  let s :=
    if clockwise && (order rp <? Q_at s (route_idx rp))%Z
    then set_Q s (route_idx rp) (order rp)
    else if negb clockwise && (Q_at s (route_idx rp) <? order rp)%Z
    then set_Q s (route_idx rp) (order rp)
    else s in
  if negb (d_arrival item =? DT.min)%N && negb (d_arrival item =? DT.inf)%N
  then with_marked_sp s (vset (marked_sp s) (stop_point_idx rp) true)
  else s.

(** Lines 231-243: one route point of a destination stop point. *)
Definition init_destination (clockwise : bool) (borne : DateTime)
  (item : idx_t * double) (s : RAPTOR) (rpidx : idx_t) : RAPTOR :=
  if vget false (routes_valides s) (route_idx (route_point rpidx))
     && ((clockwise
          && ((borne =? DT.inf)%N || (borne <? arrival (best_at s rpidx))%N))
         || (negb clockwise
             && ((borne =? DT.min)%N
                 || (departure (best_at s rpidx) <? borne)%N)))
  then
    let s :=
      with_b_dest s
        (ajouter_destination (b_dest s) rpidx
           (QArith_base.Qdiv (snd item) (QArith_base.Qmake 138 100))) in
    if clockwise
    then set_best s rpidx (with_arrival (best_at s rpidx) borne)
    else set_best s rpidx (with_departure (best_at s rpidx) borne)
  else s.

Definition clear_and_init (s : RAPTOR) (departs : list Departure_Type)
  (destinations : list (idx_t * double)) (borne : DateTime)
  (clockwise clear : bool) : RAPTOR :=
  let s :=
    with_Q s (repeat (if clockwise then int_max else (-1)%Z)
                     (List.length (routes data))) in
  let '(s, borne) :=
    if clear then
      if clockwise then
        let s := with_retour s [retour_constant data] in
        let s := with_best s (retour_constant data) in
        (with_b_dest s
           (reinit (b_dest s) (vsize (route_points data)) borne clockwise),
         borne)
      else
        let s := with_retour s [retour_constant_reverse data] in
        let s := with_best s (retour_constant_reverse data) in
        let borne := if (borne =? DT.inf)%N then DT.min else borne in
        (with_b_dest s
           (reinit (b_dest s) (vsize (route_points data)) borne clockwise),
         borne)
    else (s, borne) in
  let s := fold_left (init_depart clockwise) departs s in
  let s :=
    fold_left
      (fun s item =>
         fold_left (init_destination clockwise borne item)
                   (route_point_list (stop_point (fst item))) s)
      destinations s in
  with_count s 1.

(** ** Path reconstruction, [RAPTOR::makePath]

    A result is [None] when the source does not return: a loop that exhausts
    its fuel, or [std::out_of_range] thrown by [stop_times.at]. *)

Definition at_stop_time (i : N) : option StopTime :=
  if (i <? vsize (stop_times data))%N then Some (stop_time i) else None.

Definition is_connection_type (ty : boarding_type) : bool :=
  boarding_type_eqb ty connection
  || boarding_type_eqb ty connection_extension
  || boarding_type_eqb ty connection_guarantee.

Definition push_stop_point (item : PathItem.t) (sp : idx_t) : PathItem.t :=
  {| PathItem.arrival := PathItem.arrival item;
     PathItem.departure := PathItem.departure item;
     PathItem.arrivals := PathItem.arrivals item;
     PathItem.departures := PathItem.departures item;
     PathItem.stop_points := PathItem.stop_points item ++ [sp];
     PathItem.vj_idx := PathItem.vj_idx item;
     PathItem.type := PathItem.type item |}.

Definition push_arrival (item : PathItem.t) (dt : DateTime) : PathItem.t :=
  {| PathItem.arrival := PathItem.arrival item;
     PathItem.departure := PathItem.departure item;
     PathItem.arrivals := PathItem.arrivals item ++ [dt];
     PathItem.departures := PathItem.departures item;
     PathItem.stop_points := PathItem.stop_points item;
     PathItem.vj_idx := PathItem.vj_idx item;
     PathItem.type := PathItem.type item |}.

Definition push_departure (item : PathItem.t) (dt : DateTime) : PathItem.t :=
  {| PathItem.arrival := PathItem.arrival item;
     PathItem.departure := PathItem.departure item;
     PathItem.arrivals := PathItem.arrivals item;
     PathItem.departures := PathItem.departures item ++ [dt];
     PathItem.stop_points := PathItem.stop_points item;
     PathItem.vj_idx := PathItem.vj_idx item;
     PathItem.type := PathItem.type item |}.

Definition with_item_type (item : PathItem.t) (ty : ItemType.t) : PathItem.t :=
  {| PathItem.arrival := PathItem.arrival item;
     PathItem.departure := PathItem.departure item;
     PathItem.arrivals := PathItem.arrivals item;
     PathItem.departures := PathItem.departures item;
     PathItem.stop_points := PathItem.stop_points item;
     PathItem.vj_idx := PathItem.vj_idx item;
     PathItem.type := ty |}.

Definition with_item_times (item : PathItem.t) (arr dep : DateTime)
  : PathItem.t :=
  {| PathItem.arrival := arr;
     PathItem.departure := dep;
     PathItem.arrivals := PathItem.arrivals item;
     PathItem.departures := PathItem.departures item;
     PathItem.stop_points := PathItem.stop_points item;
     PathItem.vj_idx := PathItem.vj_idx item;
     PathItem.type := PathItem.type item |}.

(** Lines 827-837 and 850-854/858-861: the times of one stop are appended. *)
Definition push_times (reverse : bool) (item : PathItem.t)
  (workingDate : DateTime) (current_st : StopTime) : PathItem.t * DateTime :=
  if negb reverse then
    let w := DT.updatereverse workingDate (departure_time current_st) in
    let item := push_departure item w in
    let w := DT.updatereverse w (arrival_time current_st) in
    (push_arrival item w, w)
  else
    let w := DT.update workingDate (arrival_time current_st) in
    let item := push_arrival item w in
    let w := DT.update w (departure_time current_st) in
    (push_departure item w, w).

(** Lines 823-847: the stops of the vehicle journey, back to the boarding
    route point. *)
Fixpoint leg_loop (fuel : nat) (reverse : bool) (rpid_embarquement : idx_t)
  (item : PathItem.t) (workingDate : DateTime) (current_st : StopTime)
  (current_rpid : N) : option (PathItem.t * DateTime * StopTime * N) :=
  if (rpid_embarquement =? current_rpid)%N
  then Some (item, workingDate, current_st, current_rpid)
  else
    match fuel with
    | O => None
    | S fuel' =>
        let item :=
          push_stop_point item (stop_point_idx (route_point current_rpid)) in
        let '(item, workingDate) :=
          push_times reverse item workingDate current_st in
        let next :=
          if negb reverse then
            if (st_idx current_st =? 0)%N then None
            else at_stop_time (st_idx current_st - 1)
          else at_stop_time (st_idx current_st + 1) in
        match next with
        | None => None
        | Some current_st =>
            leg_loop fuel' reverse rpid_embarquement item workingDate
                     current_st (route_point_idx current_st)
        end
    end.

Definition front (l : list DateTime) : DateTime := hd DT.inf l.
Definition back (l : list DateTime) : DateTime := last l DT.inf.

(** Lines 783-873: the body of the loop; the state is [result.items],
    [current_rpid], [countb] and the local [rpid_embarquement]. *)
Definition makePath_step (fuel : nat) (s : RAPTOR) (reverse : bool)
  (items : list PathItem.t) (current_rpid countb : N)
  (rpid_emb : idx_t)
  : option (list PathItem.t * N * N * idx_t) :=
  if is_connection_type (type (label s countb current_rpid)) then
    let r := label s countb current_rpid in
    let r2 := label s countb (rpid_embarquement r) in
    let item :=
      if reverse then PathItem.make (departure r) (arrival r2)
      else PathItem.make (arrival r2) (departure r) in
    let item :=
      push_stop_point item (stop_point_idx (route_point current_rpid)) in
    let item :=
      push_stop_point item
        (stop_point_idx (route_point (rpid_embarquement r))) in
    let item :=
      match type r with
      | connection => with_item_type item ItemType.walking
      | connection_extension => with_item_type item ItemType.extension
      | connection_guarantee => with_item_type item ItemType.guarantee
      | _ => item
      end in
    Some (items ++ [item], rpid_embarquement r, countb, invalid_idx)
  else if (rpid_emb =? invalid_idx)%N then
    let r := label s countb current_rpid in
    let rpid_emb := rpid_embarquement r in
    match at_stop_time (stop_time_idx r) with
    | None => None
    | Some current_st =>
        let item := with_item_type PathItem.default ItemType.public_transport in
        let workingDate := if negb reverse then departure r else arrival r in
        let item :=
          {| PathItem.arrival := PathItem.arrival item;
             PathItem.departure := PathItem.departure item;
             PathItem.arrivals := PathItem.arrivals item;
             PathItem.departures := PathItem.departures item;
             PathItem.stop_points := PathItem.stop_points item;
             PathItem.vj_idx := vehicle_journey_idx current_st;
             PathItem.type := PathItem.type item |} in
        match leg_loop fuel reverse rpid_emb item workingDate
                       current_st current_rpid with
        | None => None
        | Some (item, workingDate, current_st, current_rpid) =>
            let item :=
              push_stop_point item
                (stop_point_idx (route_point current_rpid)) in
            let '(item, workingDate) :=
              push_times reverse item workingDate current_st in
            let item :=
              if negb reverse then
                with_item_times item (front (PathItem.arrivals item))
                                (back (PathItem.departures item))
              else
                with_item_times item (back (PathItem.arrivals item))
                                (front (PathItem.departures item)) in
            Some (items ++ [item], current_rpid,
                  (if (countb =? 0)%N then uint32_max else countb - 1)%N,
                  invalid_idx)
        end
    end
  else Some (items, current_rpid, countb, rpid_emb).

(** Lines 780-877: [while(!stop)]. *)
Fixpoint makePath_loop (fuel : nat) (s : RAPTOR) (reverse : bool)
  (items : list PathItem.t) (current_rpid countb : N)
  (rpid_embarquement : idx_t) {struct fuel} : option (list PathItem.t) :=
  match fuel with
  | O => None
  | S fuel' =>
      match makePath_step fuel' s reverse items current_rpid countb
                          rpid_embarquement with
      | None => None
      | Some (items, current_rpid, countb, rpid_embarquement) =>
          if boarding_type_eqb (type (label s countb current_rpid)) depart
          then Some items
          else makePath_loop fuel' s reverse items current_rpid countb
                             rpid_embarquement
      end
  end.

Definition reverse_item (item : PathItem.t) : PathItem.t :=
  {| PathItem.arrival := PathItem.arrival item;
     PathItem.departure := PathItem.departure item;
     PathItem.arrivals := rev (PathItem.arrivals item);
     PathItem.departures := rev (PathItem.departures item);
     PathItem.stop_points := rev (PathItem.stop_points item);
     PathItem.vj_idx := PathItem.vj_idx item;
     PathItem.type := PathItem.type item |}.

(** Lines 900-906: the items at positions [1 .. size-2] are inspected. *)
Definition count_changes (items : list PathItem.t) : N :=
  if (2 <? List.length items)%nat then
    fold_left
      (fun (nb_changes : N) i =>
         if ItemType.eqb (PathItem.type (nth i items PathItem.default))
                         ItemType.walking
         then (nb_changes + 1)%N else nb_changes)
      (seq 1 (List.length items - 2)) 0%N
  else 0%N.

(** Lines 879-908: the items are put in chronological order and the
    metadata of the path are computed. *)
Definition finish_path (s : RAPTOR) (reverse : bool)
  (items : list PathItem.t) : Path.t :=
  let items := if negb reverse then map reverse_item (rev items) else items in
  let duration :=
    match items with
    | [] => 0%Z
    | first :: _ =>
        DT.diff (PathItem.arrival (last items PathItem.default))
                (PathItem.departure first)
    end in
  let count_visites :=
    fold_left
      (fun (n : N) r => if negb (is_uninitialized r) then (n + 1)%N else n)
      (best s) 0%N in
  {| Path.items := items;
     Path.duration := duration;
     Path.nb_changes := count_changes items;
     Path.percent_visited :=
       (100 * count_visites / vsize (stop_points data))%N |}.

Definition makePath (fuel : nat) (s : RAPTOR) (destination_idx : idx_t)
  (countb : N) (reverse : bool) : option Path.t :=
  match makePath_loop fuel s reverse [] destination_idx countb invalid_idx with
  | None => None
  | Some items => Some (finish_path s reverse items)
  end.

Definition makePathreverse (fuel : nat) (s : RAPTOR) (destination_idx : idx_t)
  (countb : N) : option Path.t :=
  makePath fuel s destination_idx countb true.

(** ** [RAPTOR::makePathes] and [RAPTOR::makePathesreverse] *)

(** The rounds [1 .. count] of [for(unsigned int i=1;i<=count;++i)]. *)
Definition rounds (s : RAPTOR) : list N :=
  map N.of_nat (seq 1 (N.to_nat (count s))).

(** Lines 712-720: the destination route point retained for round [i];
    [dt] is carried from one round to the next. *)
Definition makePathes_select (s : RAPTOR) (i : N)
  (destinations : list (idx_t * double)) (dt : DateTime) : DateTime * Z :=
  fold_left
    (fun acc (spid_dist : idx_t * double) =>
       fold_left
         (fun (acc : DateTime * Z) dest =>
            let '(dt, rpid) := acc in
            if negb (is_uninitialized (label s i dest))
               && (DT.plus (arrival (label s i dest))
                     (double_seconds
                        (QArith_base.Qdiv (snd spid_dist)
                                          (QArith_base.Qmake 138 100)))
                   <=? dt)%N
            then
              (DT.plus (arrival (best_at s dest))
                       (double_seconds (snd spid_dist)),
               Z.of_N dest)
            else (dt, rpid))
         (route_point_list (stop_point (fst spid_dist))) acc)
    destinations (dt, int_max).

Definition makePathes (fuel : nat) (s : RAPTOR)
  (destinations : list (idx_t * double)) (dt : DateTime)
  : option (list Path.t) :=
  option_map fst
    (fold_left
       (fun (acc : option (list Path.t * DateTime)) i =>
          match acc with
          | None => None
          | Some (result, dt) =>
              let '(dt, rpid) := makePathes_select s i destinations dt in
              if negb (rpid =? int_max)%Z then
                match makePath fuel s (Z.to_N rpid) i false with
                | None => None
                | Some path => Some (result ++ [path], dt)
                end
              else Some (result, dt)
          end)
       (rounds s) (Some ([], dt))).

(** Lines 738-749. *)
Definition makePathesreverse_select (s : RAPTOR) (i : N)
  (destinations : list (idx_t * double)) (best_dt : DateTime)
  : DateTime * idx_t :=
  fold_left
    (fun acc (spid_dist : idx_t * double) =>
       fold_left
         (fun (acc : DateTime * idx_t) dest =>
            let '(best_dt, best_rp) := acc in
            if negb (is_uninitialized (label s i dest)) then
              let current_dt :=
                DT.minus (departure (label s i dest))
                  (double_seconds
                     (QArith_base.Qdiv (snd spid_dist)
                                       (QArith_base.Qmake 138 100))) in
              if (best_dt <=? current_dt)%N then (current_dt, dest)
              else (best_dt, best_rp)
            else (best_dt, best_rp))
         (route_point_list (stop_point (fst spid_dist))) acc)
    destinations (best_dt, invalid_idx).

Definition makePathesreverse (fuel : nat) (s : RAPTOR)
  (destinations : list (idx_t * double)) (dt : DateTime)
  : option (list Path.t) :=
  option_map fst
    (fold_left
       (fun (acc : option (list Path.t * DateTime)) i =>
          match acc with
          | None => None
          | Some (result, best_dt) =>
              let '(best_dt, best_rp) :=
                makePathesreverse_select s i destinations best_dt in
              if negb (best_rp =? invalid_idx)%N then
                match makePathreverse fuel s best_rp i with
                | None => None
                | Some path => Some (result ++ [path], best_dt)
                end
              else Some (result, best_dt)
          end)
       (rounds s) (Some ([], dt))).

(** ** The single-datetime drivers

    The result is the returned path list and the engine state left behind. *)

(** Lines 270-279: the reverse passes, one per seed. *)
Definition compute_all_second (fuel : nat)
  (departs : list (idx_t * double)) (dt_depart : DateTime)
  (departures : list Departure_Type) (s : RAPTOR)
  : option (list Path.t * RAPTOR) :=
  fold_left
    (fun (acc : option (list Path.t * RAPTOR)) departure =>
       match acc with
       | None => None
       | Some (result, s) =>
           let s :=
             clear_and_init s [departure] departs (d_departure departure)
                            false true in
           match boucleRAPTORreverse fuel true s with
           | None => None
           | Some s =>
               if negb (is_uninitialized (best_now (b_dest s))) then
                 match makePathesreverse fuel s departs dt_depart with
                 | None => None
                 | Some temp => Some (result ++ temp, s)
                 end
               else Some (result, s)
           end
       end)
    departures (Some ([], s)).

Definition compute_all (fuel : nat) (s : RAPTOR)
  (departs destinations : list (idx_t * double)) (dt_depart borne : DateTime)
  (forbidden : list (string * string)) : option (list Path.t * RAPTOR) :=
  let departures := getDepartures departs dt_depart true data in
  let s := set_routes_valides s (DT.date dt_depart) forbidden in
  let s := clear_and_init s departures destinations borne true true in
  match boucleRAPTOR fuel false s with
  | None => None
  | Some s =>
      if is_uninitialized (best_now (b_dest s)) then Some ([], s)
      else
        let departures :=
          getDepartures_retour departs destinations false (retour s) data in
        compute_all_second fuel departs dt_depart departures s
  end.

(** Lines 397-405: the forward passes, one per seed. *)
Definition compute_reverse_all_second (fuel : nat)
  (destinations : list (idx_t * double)) (dt_depart : DateTime)
  (departures : list Departure_Type) (s : RAPTOR)
  : option (list Path.t * RAPTOR) :=
  fold_left
    (fun (acc : option (list Path.t * RAPTOR)) departure =>
       match acc with
       | None => None
       | Some (result, s) =>
           let s :=
             clear_and_init s [departure] destinations dt_depart true true in
           match boucleRAPTOR fuel global_pruning_default s with
           | None => None
           | Some s =>
               if negb (is_uninitialized (best_now (b_dest s))) then
                 match makePathes fuel s destinations dt_depart with
                 | None => None
                 | Some temp => Some (result ++ temp, s)
                 end
               else Some (result, s)
           end
       end)
    departures (Some ([], s)).

Definition compute_reverse_all (fuel : nat) (s : RAPTOR)
  (departs destinations : list (idx_t * double)) (dt_depart borne : DateTime)
  (forbidden : list (string * string)) : option (list Path.t * RAPTOR) :=
  let s := set_routes_valides s (DT.date dt_depart) forbidden in
  let departures := getDepartures destinations dt_depart false data in
  let s := clear_and_init s departures departs borne false true in
  match boucleRAPTORreverse fuel global_pruning_default s with
  | None => None
  | Some s =>
      if is_uninitialized (best_now (b_dest s)) then Some ([], s)
      else
        let departures :=
          getDepartures_retour destinations departs true (retour s) data in
        compute_reverse_all_second fuel destinations dt_depart departures s
  end.

End Engine.

(** ** The multi-datetime drivers and [RAPTOR::compute]

    The overloads of [compute_all] and [compute_reverse_all] that take a
    vector of datetimes, and the two overloads of [compute].  [std::sort]
    orders a vector of [DateTime], a scalar: the sorted vector is the same
    whatever the algorithm, here an insertion sort driven by the comparator.

    [departure_default] is what the default constructor of
    [init::Departure_Type] leaves in [departure], and [forbidden_default] the
    default argument of the single-datetime drivers; both are declared
    outside [raptor.cpp].  [path.request_time] is returned next to the path,
    as the seconds after the start of the production period. *)
Section Drivers.
Context `{E : Externals}.
Variable data : Data.
Variable departure_default : DateTime.
Variable forbidden_default : list (string * string).

Fixpoint sorted_insert (before : DateTime -> DateTime -> bool)
  (x : DateTime) (l : list DateTime) : list DateTime :=
  match l with
  | [] => [x]
  | y :: l' => if before x y then x :: l else y :: sorted_insert before x l'
  end.

Definition std_sort (before : DateTime -> DateTime -> bool)
  (l : list DateTime) : list DateTime :=
  fold_right (sorted_insert before) [] l.

(** [temp.back()], undefined on an empty vector. *)
Definition path_back (temp : list Path.t) : option Path.t :=
  match temp with
  | [] => None
  | p :: _ => Some (last temp p)
  end.

(** Lines 298-305: one forward pass per datetime; the labels are cleared
    for the first one only, and the tracker each pass leaves is kept. *)
Definition compute_all_passes (fuel : nat)
  (departs destinations : list (idx_t * double)) (borne : DateTime)
  (dt_departs : list DateTime) (s : RAPTOR)
  : option (RAPTOR * list best_dest * bool) :=
  fold_left
    (fun (acc : option (RAPTOR * list best_dest * bool)) dep =>
       match acc with
       | None => None
       | Some (s, bests, reset) =>
           let departures := getDepartures departs dep true data in
           let s :=
             clear_and_init data s departures destinations borne true reset in
           match boucleRAPTOR data fuel global_pruning_default s with
           | None => None
           | Some s => Some (s, bests ++ [b_dest s], false)
           end
       end)
    dt_departs (Some (s, [], true)).

(** Lines 307-324: the reverse pass of every datetime whose forward pass
    reached a destination, and the last path it gives. *)
Definition compute_all_paths (fuel : nat) (departs : list (idx_t * double))
  (s : RAPTOR) (todo : list (best_dest * DateTime))
  : option (list (Path.t * N) * RAPTOR) :=
  fold_left
    (fun (acc : option (list (Path.t * N) * RAPTOR))
         (b_dt : best_dest * DateTime) =>
       match acc with
       | None => None
       | Some (result, s) =>
           let '(b, dt_depart) := b_dt in
           if negb (is_uninitialized (best_now b)) then
             let d := {| rpidx := best_now_rpid b;
                         d_arrival := arrival (best_now b);
                         d_departure := departure_default |} in
             let s := clear_and_init data s [d] departs dt_depart false true in
             match boucleRAPTORreverse data fuel global_pruning_default s with
             | None => None
             | Some s =>
                 if negb (is_uninitialized (best_now (b_dest s))) then
                   match makePathesreverse data fuel s departs dt_depart with
                   | None => None
                   | Some temp =>
                       match path_back temp with
                       | None => None
                       | Some path =>
                           Some (result ++ [(path, DT.hour dt_depart)], s)
                       end
                   end
                 else Some (result, s)
             end
           else Some (result, s)
       end)
    todo (Some ([], s)).

Definition compute_all_datetimes (fuel : nat) (s : RAPTOR)
  (departs destinations : list (idx_t * double))
  (dt_departs : list DateTime) (borne : DateTime)
  : option (list (Path.t * N) * RAPTOR) :=
  let dt_departs := std_sort (fun dt1 dt2 => (dt2 <? dt1)%N) dt_departs in
  match compute_all_passes fuel departs destinations borne dt_departs s with
  | None => None
  | Some (s, bests, _) =>
      compute_all_paths fuel departs s (List.combine bests dt_departs)
  end.

(** Lines 343-350. *)
Definition compute_reverse_all_passes (fuel : nat)
  (departs destinations : list (idx_t * double)) (borne : DateTime)
  (dt_departs : list DateTime) (s : RAPTOR)
  : option (RAPTOR * list best_dest * bool) :=
  fold_left
    (fun (acc : option (RAPTOR * list best_dest * bool)) dep =>
       match acc with
       | None => None
       | Some (s, bests, reset) =>
           let departures := getDepartures departs dep false data in
           let s :=
             clear_and_init data s departures destinations borne false reset in
           match boucleRAPTORreverse data fuel global_pruning_default s with
           | None => None
           | Some s => Some (s, bests ++ [b_dest s], false)
           end
       end)
    dt_departs (Some (s, [], true)).

(** Lines 352-369. *)
Definition compute_reverse_all_paths (fuel : nat)
  (departs destinations : list (idx_t * double))
  (s : RAPTOR) (todo : list (best_dest * DateTime))
  : option (list (Path.t * N) * RAPTOR) :=
  fold_left
    (fun (acc : option (list (Path.t * N) * RAPTOR))
         (b_dt : best_dest * DateTime) =>
       match acc with
       | None => None
       | Some (result, s) =>
           let '(b, dt_depart) := b_dt in
           if negb (is_uninitialized (best_now b)) then
             let d := {| rpidx := best_now_rpid b;
                         d_arrival := departure (best_now b);
                         d_departure := departure_default |} in
             let s := clear_and_init data s [d] departs dt_depart true true in
             match boucleRAPTOR data fuel global_pruning_default s with
             | None => None
             | Some s =>
                 if negb (is_uninitialized (best_now (b_dest s))) then
                   match makePathes data fuel s destinations dt_depart with
                   | None => None
                   | Some temp =>
                       match path_back temp with
                       | None => None
                       | Some path =>
                           Some (result ++ [(path, DT.hour dt_depart)], s)
                       end
                   end
                 else Some (result, s)
             end
           else Some (result, s)
       end)
    todo (Some ([], s)).

Definition compute_reverse_all_datetimes (fuel : nat) (s : RAPTOR)
  (departs destinations : list (idx_t * double))
  (dt_departs : list DateTime) (borne : DateTime)
  : option (list (Path.t * N) * RAPTOR) :=
  let dt_departs := std_sort (fun dt1 dt2 => (dt1 <? dt2)%N) dt_departs in
  match compute_reverse_all_passes fuel departs destinations borne
                                   dt_departs s with
  | None => None
  | Some (s, bests, _) =>
      compute_reverse_all_paths fuel departs destinations s
                                (List.combine bests dt_departs)
  end.

(** Lines 939-958: [compute] with a bound.  Every stop point of the two stop
    areas enters with the distance 0; the hour and the day are taken
    non-negative. *)
Definition compute_borne (fuel : nat) (s : RAPTOR)
  (departure_idx destination_idx : idx_t) (departure_hour departure_day : N)
  (borne : DateTime) (clockwise : bool) : option (list Path.t * RAPTOR) :=
  let zero := QArith_base.Qmake 0 1 in
  let departs :=
    map (fun spidx => (spidx, zero))
        (stop_point_list
           (vget StopArea_default (stop_areas data) departure_idx)) in
  let destinations :=
    map (fun spidx => (spidx, zero))
        (stop_point_list
           (vget StopArea_default (stop_areas data) destination_idx)) in
  if clockwise then
    compute_all data fuel s departs destinations
                (DT.make departure_day departure_hour) borne forbidden_default
  else
    compute_reverse_all data fuel s departs destinations
                        (DT.make departure_day departure_hour) borne
                        forbidden_default.

(** Lines 924-931: [compute] without a bound. *)
Definition compute (fuel : nat) (s : RAPTOR)
  (departure_idx destination_idx : idx_t) (departure_hour departure_day : N)
  (clockwise : bool) : option (list Path.t * RAPTOR) :=
  if clockwise then
    compute_borne fuel s departure_idx destination_idx departure_hour
                  departure_day DT.inf clockwise
  else
    compute_borne fuel s departure_idx destination_idx departure_hour
                  departure_day DT.min clockwise.

End Drivers.

(** ** An instance of the external code, for the worked examples

    Modelled from the spec: the destination tracker records the best label
    among the destination route points and the winning route point;
    [ajouter_best] accepts the offer of a destination route point whose label,
    egress walk added, is not dominated by the current best.  The trip
    searches return the first vehicle journey of the route leaving at or
    after the label's time (forward), the last one arriving at or before it
    (reverse), within the label's day.  [check2] fires within one day of the
    date.  [getDepartures] seeds every route point of the given stop points;
    from the labels it seeds every destination route point reached, with its
    arrival and no bound. *)
Record sample_dest := {
  sd_destinations : list (idx_t * Z);
  sd_best_now : type_retour;
  sd_best_now_rpid : idx_t;
  sd_count : N
}.

Definition sample_distance (b : sample_dest) (rp : idx_t) : option Z :=
  option_map snd (find (fun p => (fst p =? rp)%N) (sd_destinations b)).

Definition sample_reinit (b : sample_dest) (n : N) (borne : DateTime)
  (clockwise : bool) : sample_dest :=
  {| sd_destinations := [];
     sd_best_now :=
       {| stop_time_idx := invalid_idx; arrival := borne; departure := borne;
          type := uninitialized; rpid_embarquement := invalid_idx |};
     sd_best_now_rpid := invalid_idx;
     sd_count := 0 |}.

Definition sample_ajouter_destination (b : sample_dest) (rp : idx_t)
  (dist : double) : sample_dest :=
  {| sd_destinations := sd_destinations b ++ [(rp, double_seconds dist)];
     sd_best_now := sd_best_now b;
     sd_best_now_rpid := sd_best_now_rpid b;
     sd_count := sd_count b |}.

Definition sample_ajouter_best_reverse (b : sample_dest) (rp : idx_t)
  (r : type_retour) (cnt : N) : sample_dest * bool :=
  match sample_distance b rp with
  | Some d =>
      if (departure (sd_best_now b) <=? DT.minus (departure r) d)%N then
        ({| sd_destinations := sd_destinations b;
            sd_best_now := with_departure r (DT.minus (departure r) d);
            sd_best_now_rpid := rp;
            sd_count := cnt |}, true)
      else (b, false)
  | None => (b, false)
  end.

Definition sample_ajouter_best (b : sample_dest) (rp : idx_t)
  (r : type_retour) (cnt : N) (clockwise : bool) : sample_dest * bool :=
  if clockwise then
    match sample_distance b rp with
    | Some d =>
        if (DT.plus (arrival r) d <=? arrival (sd_best_now b))%N then
          ({| sd_destinations := sd_destinations b;
              sd_best_now := with_arrival r (DT.plus (arrival r) d);
              sd_best_now_rpid := rp;
              sd_count := cnt |}, true)
        else (b, false)
    | None => (b, false)
    end
  else sample_ajouter_best_reverse b rp r cnt.

Definition sample_stop_time (data : Data) (vjidx : idx_t) (o : Z) : StopTime :=
  vget StopTime_default (stop_times data)
    (vget 0%N
       (stop_time_list
          (vget VehicleJourney_default (vehicle_journeys data) vjidx))
       (Z.to_N o)).

Definition sample_earliest_trip (route : Route) (o : Z) (dt : DateTime)
  (data : Data) : Z :=
  match find (fun vjidx =>
                (DT.hour dt <=? departure_time (sample_stop_time data vjidx o))%N)
             (vehicle_journey_list route) with
  | Some vjidx => Z.of_N vjidx
  | None => (-1)%Z
  end.

Definition sample_tardiest_trip (route : Route) (o : Z) (dt : DateTime)
  (data : Data) : Z :=
  match find (fun vjidx =>
                (arrival_time (sample_stop_time data vjidx o) <=? DT.hour dt)%N)
             (rev (vehicle_journey_list route)) with
  | Some vjidx => Z.of_N vjidx
  | None => (-1)%Z
  end.

Definition sample_check2 (vp : ValidityPattern) (date : N) : bool :=
  vget false (days vp) (date - 1) || vget false (days vp) date
  || vget false (days vp) (date + 1).

Definition sample_getDepartures (departs : list (idx_t * double))
  (dt : DateTime) (clockwise : bool) (data : Data) : list Departure_Type :=
  flat_map
    (fun p : idx_t * double =>
       let d := double_seconds
                  (QArith_base.Qdiv (snd p) (QArith_base.Qmake 138 100)) in
       let instant := if clockwise then DT.plus dt d else DT.minus dt d in
       map (fun rp => {| rpidx := rp; d_arrival := instant;
                         d_departure := instant |})
           (route_point_list
              (vget StopPoint_default (stop_points data) (fst p))))
    departs.

Definition sample_getDepartures_retour (departs : list (idx_t * double))
  (destinations : list (idx_t * double)) (clockwise : bool)
  (retour : list (list type_retour)) (data : Data) : list Departure_Type :=
  flat_map
    (fun p : idx_t * double =>
       flat_map
         (fun rp =>
            flat_map
              (fun row =>
                 let r := vget retour_default row rp in
                 if boarding_type_eqb (type r) uninitialized then []
                 else [{| rpidx := rp; d_arrival := arrival r;
                          d_departure :=
                            if clockwise then DT.inf else DT.min |}])
              retour)
         (route_point_list
            (vget StopPoint_default (stop_points data) (fst p))))
    destinations.

#[export] Instance sample_externals : Externals :=
  {| best_dest := sample_dest;
     best_now := sd_best_now;
     best_now_rpid := sd_best_now_rpid;
     reinit := sample_reinit;
     ajouter_destination := sample_ajouter_destination;
     ajouter_best := sample_ajouter_best;
     ajouter_best_reverse := sample_ajouter_best_reverse;
     earliest_trip := sample_earliest_trip;
     tardiest_trip := sample_tardiest_trip;
     check2 := sample_check2;
     global_pruning_default := true;
     getDepartures := sample_getDepartures;
     getDepartures_retour := sample_getDepartures_retour |}.

(** ** Notions used by the statements *)

(** Two boarding states that differ at most in [l_zone], and in it only
    while no trip is boarded. *)
Definition boarding_agree (b1 b2 : Boarding) : Prop :=
  t b1 = t b2 /\ embarquement b1 = embarquement b2
  /\ workingDt b1 = workingDt b2 /\ it_st b1 = it_st b2
  /\ (t b1 = (-1)%Z \/ l_zone b1 = l_zone b2).

Definition with_l_zone (b : Boarding) (z : N) : Boarding :=
  {| t := t b; embarquement := embarquement b; workingDt := workingDt b;
     it_st := it_st b; l_zone := z |}.

Open Scope N_scope.

(** ** A worked timetable

    Two routes leave stop point 0: route 0 serves the stop points 0, 1, 2
    (route points 0, 1, 2) and route 1 the stop points 0, 3 (route points 3,
    4), with one vehicle journey each.  The first stop-time of route 0 lies
    in local traffic zone 5. *)
Definition mkst (i a d vjx rp z : N) : StopTime :=
  {| st_idx := i; arrival_time := a; departure_time := d;
     vehicle_journey_idx := vjx; route_point_idx := rp;
     local_traffic_zone := z; pick_up_allowed := true;
     drop_off_allowed := true |}.

Definition mkrp (i : N) (o : Z) (r sp : N) : RoutePoint :=
  {| rp_idx := i; order := o; route_idx := r; stop_point_idx := sp |}.

Definition retour_default_reverse : type_retour :=
  {| stop_time_idx := invalid_idx; arrival := DT.min; departure := DT.min;
     type := uninitialized; rpid_embarquement := invalid_idx |}.

Definition net1 : Data :=
  {| routes :=
       [ {| r_idx := 0; line_idx := 0; mode_type_idx := 0;
            r_external_code := "R0"; vehicle_journey_list := [0%N];
            r_route_point_list := [0; 1; 2]%N |};
         {| r_idx := 1; line_idx := 1; mode_type_idx := 0;
            r_external_code := "R1"; vehicle_journey_list := [1%N];
            r_route_point_list := [3; 4]%N |} ];
     route_points :=
       [ mkrp 0 0%Z 0 0; mkrp 1 1%Z 0 1; mkrp 2 2%Z 0 2; mkrp 3 0%Z 1 0;
         mkrp 4 1%Z 1 3 ];
     stop_points :=
       [ {| route_point_list := [0; 3]%N |}; {| route_point_list := [1%N] |};
         {| route_point_list := [2%N] |}; {| route_point_list := [4%N] |} ];
     stop_areas := [];
     stop_times :=
       [ mkst 0 28800 28800 0 0 5; mkst 1 29400 29460 0 1 uint32_max;
         mkst 2 30000 30000 0 2 uint32_max;
         mkst 3 28900 28900 1 3 uint32_max;
         mkst 4 29500 29500 1 4 uint32_max ];
     vehicle_journeys :=
       [ {| validity_pattern_idx := 0; stop_time_list := [0; 1; 2]%N |};
         {| validity_pattern_idx := 0; stop_time_list := [3; 4]%N |} ];
     lines := [ {| l_external_code := "L0" |}; {| l_external_code := "L1" |} ];
     mode_types := [ {| m_external_code := "bus" |} ];
     validity_patterns := [ {| days := [true; true; true] |} ];
     foot_path := [];
     footpath_index := [ (0, 0); (0, 0); (0, 0); (0, 0) ]%Z;
     footpath_rp_forward := [];
     footpath_rp_backward := [];
     retour_constant := repeat retour_default 5%nat;
     retour_constant_reverse := repeat retour_default_reverse 5%nat |}.

(** A freshly built engine for [net1]: the bitsets have their sizes, nothing
    else is set. *)
Definition engine1 : RAPTOR :=
  {| retour := []; best := []; Q := [];
     marked_rp := repeat false 5%nat; marked_sp := repeat false 4%nat;
     routes_valides := [];
     b_dest :=
       {| sd_destinations := []; sd_best_now := retour_default;
          sd_best_now_rpid := invalid_idx; sd_count := 0 |};
     count := 0 |}.

Definition zero_meters : double := QArith_base.Qmake 0 1.

(** The query "from stop point 0 at 07:30 to stop point 2" as
    [compute_all] initialises it. *)
Definition net1_init : RAPTOR :=
  clear_and_init net1
    (set_routes_valides net1 engine1 (DT.date 27000) [])
    (getDepartures [(0%N, zero_meters)] 27000%N true net1)
    [(2%N, zero_meters)] DT.inf true true.

(** The state of its first round when the route scan starts:
    [raptor_loop] up to [make_queue]. *)
Definition net1_round1 : RAPTOR :=
  let s := marcheapied net1 (with_count net1_init 0) in
  let s := with_count s (count s + 1) in
  let s := if (count s =? vsize (retour s))%N
           then one_more_step (raptor_visitor net1) s else s in
  make_queue s.

Definition net1_route0 : Route := nth 0%nat (routes net1)
  {| r_idx := 0; line_idx := 0; mode_type_idx := 0; r_external_code := "";
     vehicle_journey_list := []; r_route_point_list := [] |}.
Definition net1_route1 : Route := nth 1%nat (routes net1) net1_route0.

(** The result of its forward pass. *)
Definition net1_forward : RAPTOR :=
  match boucleRAPTOR net1 10%nat false net1_init with
  | Some s => s
  | None => net1_init
  end.


(** The path of its forward pass to route point 2, round 1. *)
Definition net1_path : option Path.t :=
  makePath net1 10%nat net1_forward 2 1 false.

(** The query "from stop point 0 to stop point 3" with line L1 forbidden:
    the state [compute_all] initialises, and what its forward pass leaves. *)
Definition net1_blocked_init : RAPTOR :=
  clear_and_init net1
    (set_routes_valides net1 engine1 (DT.date 27000)
       [("line", "L1")]%string)
    (getDepartures [(0, zero_meters)] 27000 true net1)
    [(3, zero_meters)] DT.inf true true.

Definition net1_blocked : RAPTOR :=
  match boucleRAPTOR net1 10%nat false net1_blocked_init with
  | Some s => s
  | None => net1_blocked_init
  end.


Definition net1_path_value : Path.t :=
  match net1_path with
  | Some p => p
  | None =>
      {| Path.items := []; Path.duration := 0; Path.nb_changes := 0;
         Path.percent_visited := 0 |}
  end.


(** ** Orders on engine states, forward mode *)

(** The sum of the best arrivals, the quantity every store lowers. *)
Definition best_arrival_sum (l : list type_retour) : N :=
  fold_right (fun r acc => arrival r + acc) 0 l.

(** Every round of labels has the size of [best]. *)
Definition rows_fit `{Externals} (s : RAPTOR) : Prop :=
  Forall (fun row : list type_retour =>
            List.length row = List.length (best s)) (retour s).

(** [s'] is [s] after labels of the current round were installed, each no
    later than the best arrival it replaced: the round counter and the sizes
    are those of [s], no best arrival is later, and a label that changed lies
    in round [count] between the new and the old best arrival. *)
Definition improves `{Externals} (s s' : RAPTOR) : Prop :=
  rows_fit s ->
  rows_fit s'
  /\ count s' = count s
  /\ List.length (best s') = List.length (best s)
  /\ List.length (retour s') = List.length (retour s)
  /\ (forall rp, arrival (best_at s' rp) <= arrival (best_at s rp))
  /\ (forall k rp,
        label s' k rp = label s k rp
        \/ (k = count s
            /\ arrival (best_at s' rp) <= arrival (label s' k rp)
            /\ arrival (label s' k rp) <= arrival (best_at s rp))).

(** Label monotonicity across rounds, forward mode, as the spec words it. *)
Definition monotone_forward `{Externals} (s : RAPTOR) : Prop :=
  forall k rp,
    1 <= k ->
    type (label s k rp) <> uninitialized ->
    type (label s (k - 1) rp) <> uninitialized ->
    arrival (label s k rp) <= arrival (label s (k - 1) rp).

(** Its reverse-mode counterpart. *)
Definition monotone_reverse `{Externals} (s : RAPTOR) : Prop :=
  forall k rp,
    1 <= k ->
    type (label s k rp) <> uninitialized ->
    type (label s (k - 1) rp) <> uninitialized ->
    departure (label s (k - 1) rp) <= departure (label s k rp).

(** [best] dominates the labels of every round, forward mode. *)
Definition best_dominates `{Externals} (s : RAPTOR) : Prop :=
  forall k rp,
    type (label s k rp) <> uninitialized ->
    arrival (best_at s rp) <= arrival (label s k rp).

(** The rounds after the current one hold no label yet. *)
Definition later_rounds_fresh `{Externals} (s : RAPTOR) : Prop :=
  forall k rp, count s < k -> type (label s k rp) = uninitialized.

(** The vectors have the sizes the timetable gives them: a round of labels
    and the sentinel round have the size of [best], which holds every route
    point. *)
Definition well_sized `{Externals} (data : Data) (s : RAPTOR) : Prop :=
  rows_fit s
  /\ List.length (retour_constant data) = List.length (best s)
  /\ Forall (fun rp => rp_idx rp < vsize (best s)) (route_points data).

(** The sentinel round holds uninitialized labels only. *)
Definition sentinel_uninitialized (data : Data) : Prop :=
  Forall (fun r => type r = uninitialized) (retour_constant data).


(** The state of a round when its route scan starts (lines 650-655). *)
Definition round_start `{Externals} (v : Visitor) (s : RAPTOR) : RAPTOR :=
  let s := with_count s (count s + 1) in
  let s := if (count s =? vsize (retour s))%N then one_more_step v s else s in
  v_make_queue v s.


(** What the forward pass keeps true of the labels. *)
Definition forward_invariant `{Externals} (data : Data) (s : RAPTOR) : Prop :=
  well_sized data s /\ best_dominates s /\ monotone_forward s
  /\ later_rounds_fresh s.


(** The query "from stop point 0 to the stop points 1 and 2", stop point 1
    lying 690 m from the destination: the state [compute_all] initialises and
    what its forward pass leaves. *)
Definition meters_690 : double := QArith_base.Qmake 690 1.

Definition net1_walk_destinations : list (idx_t * double) :=
  [(1, meters_690); (2, zero_meters)].

Definition net1_walk_init : RAPTOR :=
  clear_and_init net1
    (set_routes_valides net1 engine1 (DT.date 27000) [])
    (getDepartures [(0, zero_meters)] 27000 true net1)
    net1_walk_destinations DT.inf true true.

Definition net1_walk : RAPTOR :=
  match boucleRAPTOR net1 10%nat false net1_walk_init with
  | Some s => s
  | None => net1_walk_init
  end.

(** The query "from the stop points 0 and 1 to stop point 1": a seeded route
    point is also a destination route point. *)
Definition net1_overlap_departs : list Departure_Type :=
  getDepartures [(0, zero_meters); (1, zero_meters)] 27000 true net1.

Definition net1_overlap_init : RAPTOR :=
  clear_and_init net1
    (set_routes_valides net1 engine1 (DT.date 27000) [])
    net1_overlap_departs [(1, zero_meters)] DT.inf true true.

Definition net1_overlap : RAPTOR :=
  match boucleRAPTOR net1 10%nat false net1_overlap_init with
  | Some s => s
  | None => net1_overlap_init
  end.

(** ** A second timetable, with a guaranteed connection

    Route 0 serves the stop points 0, 1 (route points 0, 1) and route 1 the
    stop points 2, 3 (route points 2, 3), with one vehicle journey each; the
    vehicle of route 0 dwells at its first stop from 1000 to 1600.  A footpath
    of 100 s leads from stop point 0 to stop point 3, and a guaranteed
    connection of 50 s from route point 0 to route point 2. *)
Definition net2 : Data :=
  {| routes :=
       [ {| r_idx := 0; line_idx := 0; mode_type_idx := 0;
            r_external_code := "R0"; vehicle_journey_list := [0];
            r_route_point_list := [0; 1] |};
         {| r_idx := 1; line_idx := 0; mode_type_idx := 0;
            r_external_code := "R1"; vehicle_journey_list := [1];
            r_route_point_list := [2; 3] |} ];
     route_points :=
       [ mkrp 0 0%Z 0 0; mkrp 1 1%Z 0 1; mkrp 2 0%Z 1 2; mkrp 3 1%Z 1 3 ];
     stop_points :=
       [ {| route_point_list := [0] |}; {| route_point_list := [1] |};
         {| route_point_list := [2] |}; {| route_point_list := [3] |};
         {| route_point_list := [] |} ];
     stop_areas := [];
     stop_times :=
       [ mkst 0 1000 1600 0 0 uint32_max; mkst 1 2000 2000 0 1 uint32_max;
         mkst 2 1200 1300 1 2 uint32_max; mkst 3 1450 1450 1 3 uint32_max ];
     vehicle_journeys :=
       [ {| validity_pattern_idx := 0; stop_time_list := [0; 1] |};
         {| validity_pattern_idx := 0; stop_time_list := [2; 3] |} ];
     lines := [ {| l_external_code := "L0" |} ];
     mode_types := [ {| m_external_code := "bus" |} ];
     validity_patterns := [ {| days := [true; true; true] |} ];
     foot_path := [ {| destination_stop_point_idx := 3; duration := 100 |} ];
     footpath_index := [ (0, 1); (1, 0); (1, 0); (1, 0); (1, 0) ]%Z;
     footpath_rp_forward := [];
     footpath_rp_backward :=
       [ (2, {| departure_route_point_idx := 0;
                destination_route_point_idx := 2; length_rpc := 50;
                connection_kind := guarantee |}) ];
     retour_constant := repeat retour_default 4%nat;
     retour_constant_reverse := repeat retour_default_reverse 4%nat |}.

Definition engine2 : RAPTOR :=
  {| retour := []; best := []; Q := [];
     marked_rp := repeat false 4%nat; marked_sp := repeat false 5%nat;
     routes_valides := [];
     b_dest :=
       {| sd_destinations := []; sd_best_now := retour_default;
          sd_best_now_rpid := invalid_idx; sd_count := 0 |};
     count := 0 |}.

(** The reverse query "be at stop point 1 by 5000, from stop point 4" as
    [compute_reverse_all] initialises it. *)
Definition net2_init : RAPTOR :=
  clear_and_init net2 (set_routes_valides net2 engine2 0 [])
    (getDepartures [(1, zero_meters)] 5000 false net2)
    [(4, zero_meters)] DT.min false true.



Definition net2_reverse : RAPTOR :=
  match boucleRAPTORreverse net2 10%nat true net2_init with
  | Some s => s
  | None => net2_init
  end.





(** ** A third timetable, with a transfer

    Route 0 runs from stop point 0 to stop point 2 (route points 0, 1) and
    arrives at 5000; route 1 runs from stop point 0 to stop point 1 (route
    points 2, 3) and route 2 from stop point 1 to stop point 2 (route points
    4, 5), arriving at 3000.  Stop point 3 is served by no route. *)
Definition net3 : Data :=
  {| routes :=
       [ {| r_idx := 0; line_idx := 0; mode_type_idx := 0;
            r_external_code := "R0"; vehicle_journey_list := [0];
            r_route_point_list := [0; 1] |};
         {| r_idx := 1; line_idx := 0; mode_type_idx := 0;
            r_external_code := "R1"; vehicle_journey_list := [1];
            r_route_point_list := [2; 3] |};
         {| r_idx := 2; line_idx := 0; mode_type_idx := 0;
            r_external_code := "R2"; vehicle_journey_list := [2];
            r_route_point_list := [4; 5] |} ];
     route_points :=
       [ mkrp 0 0%Z 0 0; mkrp 1 1%Z 0 2; mkrp 2 0%Z 1 0; mkrp 3 1%Z 1 1;
         mkrp 4 0%Z 2 1; mkrp 5 1%Z 2 2 ];
     stop_points :=
       [ {| route_point_list := [0; 2] |}; {| route_point_list := [3; 4] |};
         {| route_point_list := [1; 5] |}; {| route_point_list := [] |} ];
     stop_areas := [];
     stop_times :=
       [ mkst 0 1000 1000 0 0 uint32_max; mkst 1 5000 5000 0 1 uint32_max;
         mkst 2 1000 1000 1 2 uint32_max; mkst 3 2000 2000 1 3 uint32_max;
         mkst 4 2500 2500 2 4 uint32_max; mkst 5 3000 3000 2 5 uint32_max ];
     vehicle_journeys :=
       [ {| validity_pattern_idx := 0; stop_time_list := [0; 1] |};
         {| validity_pattern_idx := 0; stop_time_list := [2; 3] |};
         {| validity_pattern_idx := 0; stop_time_list := [4; 5] |} ];
     lines := [ {| l_external_code := "L0" |} ];
     mode_types := [ {| m_external_code := "bus" |} ];
     validity_patterns := [ {| days := [true; true; true] |} ];
     foot_path := [];
     footpath_index := [ (0, 0); (0, 0); (0, 0); (0, 0) ]%Z;
     footpath_rp_forward := [];
     footpath_rp_backward := [];
     retour_constant := repeat retour_default 6%nat;
     retour_constant_reverse := repeat retour_default_reverse 6%nat |}.

Definition engine3 : RAPTOR :=
  {| retour := []; best := []; Q := [];
     marked_rp := repeat false 6%nat; marked_sp := repeat false 4%nat;
     routes_valides := [];
     b_dest :=
       {| sd_destinations := []; sd_best_now := retour_default;
          sd_best_now_rpid := invalid_idx; sd_count := 0 |};
     count := 0 |}.

(** The query "from stop point 0 at 500 to stop point 3" and its forward
    pass, which explores the whole network. *)
Definition net3_init : RAPTOR :=
  clear_and_init net3 (set_routes_valides net3 engine3 0 [])
    (getDepartures [(0, zero_meters)] 500 true net3)
    [(3, zero_meters)] DT.inf true true.

Definition net3_forward : RAPTOR :=
  match boucleRAPTOR net3 10%nat false net3_init with
  | Some s => s
  | None => net3_init
  end.

(** What no step inside a round changes: the round counter, the validity
    bitset, and the sizes of the label rows and of the other vectors. *)
Definition round_frame `{Externals} (s s' : RAPTOR) : Prop :=
  count s' = count s
  /\ routes_valides s' = routes_valides s
  /\ map (@List.length type_retour) (retour s')
     = map (@List.length type_retour) (retour s)
  /\ List.length (best s') = List.length (best s)
  /\ List.length (Q s') = List.length (Q s)
  /\ List.length (marked_rp s') = List.length (marked_rp s)
  /\ List.length (marked_sp s') = List.length (marked_sp s).

(** The shape of a path item.  A public-transport item lists as many
    arrivals and departures as stop points, at least one, and its own
    arrival and departure are an end of each list: while [makePath] walks
    back in forward mode ([reverse = false]) the first arrival and the last
    departure pushed, otherwise the last arrival and the first departure.
    Any other item joins two stop points and lists no time. *)
Definition item_shape (reverse : bool) (item : PathItem.t) : Prop :=
  match PathItem.type item with
  | ItemType.public_transport =>
      List.length (PathItem.stop_points item)
      = List.length (PathItem.arrivals item)
      /\ List.length (PathItem.departures item)
         = List.length (PathItem.arrivals item)
      /\ (1 <= List.length (PathItem.arrivals item))%nat
      /\ (if reverse
          then PathItem.arrival item = last (PathItem.arrivals item) DT.inf
               /\ PathItem.departure item
                  = hd DT.inf (PathItem.departures item)
          else PathItem.arrival item = hd DT.inf (PathItem.arrivals item)
               /\ PathItem.departure item
                  = last (PathItem.departures item) DT.inf)
  | _ =>
      List.length (PathItem.stop_points item) = 2%nat
      /\ PathItem.arrivals item = []
      /\ PathItem.departures item = []
  end.

(** ** States of the worked timetables used by the instances below *)

(** The first round of the forward pass on [net3] when its route scan
    starts, and when it ends. *)
Definition net3_round1 : RAPTOR :=
  round_start (raptor_visitor net3)
              (marcheapied net3 (with_count net3_init 0%N)).

Definition net3_round1_scanned : RAPTOR :=
  fst (fst (fold_left (scan_route net3 (raptor_visitor net3) false)
              (routes net3)
              (net3_round1, boarding_init (raptor_visitor net3), true))).

(** The locals of the scan of route 0 of [net3] once its first route point
    is passed: the vehicle journey 0 is boarded. *)
Definition net3_route0 : Route := nth 0%nat (routes net3) net1_route0.

Definition net3_boarded : Boarding :=
  snd (fst (scan_rp net3 (raptor_visitor net3) false net3_route0
              (net3_round1, boarding_init (raptor_visitor net3), true)
              (mkrp 0%N 0%Z 0%N 0%N))).

(** The first round of the reverse pass on [net2] when its route scan
    ends. *)
Definition net2_round1_scanned : RAPTOR :=
  fst (fst (fold_left (scan_route net2 (raptor_reverse_visitor net2) true)
              (routes net2)
              (round_start (raptor_reverse_visitor net2)
                 (marcheapiedreverse net2 (with_count net2_init 0%N)),
               boarding_init (raptor_reverse_visitor net2), true))).

(** The query "to stop point 3" on [net3] without any seed. *)
Definition net3_idle : RAPTOR :=
  clear_and_init net3 (set_routes_valides net3 engine3 0%N []) []
    [(3%N, zero_meters)] DT.inf true true.

(** An engine for [net1] that holds the labels of an earlier query. *)
Definition engine1_used : RAPTOR :=
  with_count
    (with_Q (with_best (with_retour engine1 (retour net1_forward))
                       (best net1_forward))
            [3%Z; 4%Z])
    9%N.

(** The paths [makePathes] gives on [net1_walk]. *)
Definition net1_walk_paths : list Path.t :=
  match makePathes net1 10%nat net1_walk net1_walk_destinations DT.inf with
  | Some paths => paths
  | None => []
  end.

(** The multi-datetime query "from stop point 0 to stop point 2 at 500, 900
    and 700" on [net3]. *)
Definition net3_datetimes : list (Path.t * N) * RAPTOR :=
  match compute_all_datetimes net3 0%N 10%nat
          (set_routes_valides net3 engine3 0%N [])
          [(0%N, zero_meters)] [(2%N, zero_meters)]
          [500%N; 900%N; 700%N] DT.inf with
  | Some r => r
  | None => ([], engine3)
  end.

(** What the two loops of [clear_and_init] keep. *)
Definition init_frame `{Externals} (a b : RAPTOR) : Prop :=
  routes_valides b = routes_valides a
  /\ marked_rp b = marked_rp a
  /\ map (@List.length type_retour) (retour b)
     = map (@List.length type_retour) (retour a)
  /\ List.length (best b) = List.length (best a)
  /\ List.length (Q b) = List.length (Q a)
  /\ List.length (marked_sp b) = List.length (marked_sp a)
  /\ (forall sp, vget false (marked_sp a) sp = true ->
                 vget false (marked_sp b) sp = true).

(** The instant a destination route point offers to [makePathesreverse]:
    its departure in round [i], the egress walk taken off; and the step of
    the selection, lines 741-747. *)
Definition reverse_offer `{Externals} (s : RAPTOR) (i : N)
  (c : idx_t * double) : DateTime :=
  DT.minus (departure (label s i (fst c)))
    (double_seconds
       (QArith_base.Qdiv (snd c) (QArith_base.Qmake 138 100))).

Definition reverse_select_step `{Externals} (s : RAPTOR) (i : N)
  (acc : DateTime * idx_t) (c : idx_t * double) : DateTime * idx_t :=
  if negb (is_uninitialized (label s i (fst c))) then
    if (fst acc <=? reverse_offer s i c)%N then (reverse_offer s i c, fst c)
    else acc
  else acc.

(** The three lists of an item grown by the same number of entries. *)
Definition item_grown (n : nat) (item item' : PathItem.t) : Prop :=
  PathItem.type item' = PathItem.type item
  /\ List.length (PathItem.stop_points item')
     = (List.length (PathItem.stop_points item) + n)%nat
  /\ List.length (PathItem.arrivals item')
     = (List.length (PathItem.arrivals item) + n)%nat
  /\ List.length (PathItem.departures item')
     = (List.length (PathItem.departures item) + n)%nat.

(** The number of public-transport items. *)
Definition rides (items : list PathItem.t) : nat :=
  List.length
    (filter (fun item =>
               ItemType.eqb (PathItem.type item) ItemType.public_transport)
            items).

(** The route points a pivot is chosen among, the instant compared, and the
    step of the search, lines 119-124. *)
Definition pivot_eligible `{Externals} (s : RAPTOR) (rp : idx_t) : Prop :=
  type (label s (count s) rp) = vj \/ type (label s (count s) rp) = depart.

Definition pivot_arrival `{Externals} (s : RAPTOR) (rp : idx_t) : DateTime :=
  arrival (label s (count s) rp).

Definition pivot_step `{Externals} (v : WalkingVisitor) (s : RAPTOR)
  (acc : DateTime * idx_t) (rpidx : idx_t) : DateTime * idx_t :=
  let '(best_arrival, best_rp) := acc in
  let r := label s (count s) rpidx in
  if (boarding_type_eqb (type r) vj || boarding_type_eqb (type r) depart)
     && comp v (arrival r) best_arrival
  then (arrival r, rpidx)
  else (best_arrival, best_rp).

(** The footpath at position [it + k] of [foot_path]; a route point reached
    over one of the first [n] footpaths from [it], the pivot being [best_rp]
    and its instant [previous]; and what the relaxation of these footpaths
    carries along: the round counter, the cached instant [next], which is
    the pivot's instant combined with the cached duration once a duration
    was seen, and the labels. *)
Definition footpath_at (data : Data) (it : Z) (k : nat) : Connection :=
  vget Connection_default (foot_path data) (Z.to_N (it + Z.of_nat k)).

Definition walked `{Externals} (data : Data) (v : WalkingVisitor)
  (best_rp : idx_t) (previous : DateTime) (s0 s' : RAPTOR) (it : Z) (n : nat)
  (rp : idx_t) : Prop :=
  label s' (count s0) rp = label s0 (count s0) rp
  \/ exists k,
       (k < n)%nat
       /\ In rp (route_point_list
                   (stop_point data
                      (destination_stop_point_idx (footpath_at data it k))))
       /\ rp <> best_rp
       /\ label s' (count s0) rp
          = retour_connection
              (combine v previous (duration (footpath_at data it k)))
              (combine v previous (duration (footpath_at data it k)))
              best_rp.

Definition carried `{Externals} (data : Data) (v : WalkingVisitor)
  (best_rp : idx_t) (previous : DateTime) (s0 : RAPTOR) (it : Z) (n : nat)
  (acc : RAPTOR * DateTime * Z) : Prop :=
  count (fst (fst acc)) = count s0
  /\ (snd acc = (-1)%Z \/ snd (fst acc) = combine v previous (snd acc))
  /\ forall rp, walked data v best_rp previous s0 (fst (fst acc)) it n rp.

(** Only the row of the current round may differ. *)
Definition own_row `{Externals} (a b : RAPTOR) : Prop :=
  count b = count a
  /\ forall k rp, k <> count a -> label b k rp = label a k rp.

(** ** Proof automation *)

Ltac splits := repeat match goal with |- _ /\ _ => split end.

Close Scope N_scope.

(** * Properties *)

(** ** Vectors *)

Lemma vset_length {A} (l : list A) i x : List.length (vset l i x) = List.length l.
Proof.
  revert i; induction l as [|y l IH]; intros i; simpl; [reflexivity|].
  destruct (i =? 0)%N; simpl; [reflexivity|]. now rewrite IH.
Qed.

Lemma vget_vset_other {A} (d : A) l i j x :
  i <> j -> vget d (vset l i x) j = vget d l j.
Proof.
  revert i j; induction l as [|y l IH]; intros i j Hij; simpl; [reflexivity|].
  destruct (i =? 0)%N eqn:Hi; simpl.
  - apply N.eqb_eq in Hi. destruct (j =? 0)%N eqn:Hj; [|reflexivity].
    apply N.eqb_eq in Hj. congruence.
  - destruct (j =? 0)%N eqn:Hj; [reflexivity|].
    apply IH. apply N.eqb_neq in Hi, Hj. lia.
Qed.

Lemma vget_vset_same {A} (d : A) l i x :
  (i < vsize l)%N -> vget d (vset l i x) i = x.
Proof.
  unfold vsize. revert i; induction l as [|y l IH]; intros i Hi; simpl in *.
  - lia.
  - destruct (i =? 0)%N eqn:E0; simpl; rewrite E0; [reflexivity|].
    apply IH. apply N.eqb_neq in E0. lia.
Qed.

Lemma vset_out_of_range {A} (l : list A) i x :
  (vsize l <= i)%N -> vset l i x = l.
Proof.
  unfold vsize. revert i; induction l as [|y l IH]; intros i Hi; simpl in *.
  - reflexivity.
  - destruct (i =? 0)%N eqn:E0.
    + apply N.eqb_eq in E0. lia.
    + f_equal. apply IH. apply N.eqb_neq in E0. lia.
Qed.

Lemma vget_out_of_range {A} (d : A) l i :
  (vsize l <= i)%N -> vget d l i = d.
Proof.
  unfold vsize. revert i; induction l as [|y l IH]; intros i Hi; simpl in *.
  - reflexivity.
  - destruct (i =? 0)%N eqn:E0.
    + apply N.eqb_eq in E0. lia.
    + apply IH. apply N.eqb_neq in E0. lia.
Qed.

Lemma vsize_vset {A} (l : list A) i x : vsize (vset l i x) = vsize l.
Proof. unfold vsize. now rewrite vset_length. Qed.

Lemma boarding_type_eqb_eq a b : boarding_type_eqb a b = true <-> a = b.
Proof. destruct a, b; simpl; split; (congruence || discriminate). Qed.

Lemma fold_left_invariant {A B} (P : A -> Prop) (f : A -> B -> A) l a :
  (forall a x, In x l -> P a -> P (f a x)) -> P a -> P (fold_left f l a).
Proof.
  revert a; induction l as [|x l IH]; intros a Hf Ha; simpl; [exact Ha|].
  apply IH.
  - intros a' y Hy. apply Hf. now right.
  - apply Hf; [now left | exact Ha].
Qed.

Lemma fold_left_ext {A B} (g f : A -> B -> A) l a :
  (forall a x, f a x = g a x) -> fold_left f l a = fold_left g l a.
Proof.
  intros H. revert a; induction l as [|x l IH]; intros a; simpl;
    [reflexivity|]. now rewrite H, IH.
Qed.

(** ** Labels read after a write *)

Section LabelFacts.
Context `{E : Externals}.

Lemma label_set_label_other (s : RAPTOR) k k' rp rp' r :
  rp <> rp' -> label (set_label s k rp r) k' rp' = label s k' rp'.
Proof.
  intros Hne. unfold label, set_label; simpl.
  destruct (N.eq_dec k k') as [->|Hk].
  - destruct (N.lt_ge_cases k' (vsize (retour s))) as [Hin|Hout].
    + rewrite vget_vset_same by exact Hin. now apply vget_vset_other.
    + now rewrite vset_out_of_range.
  - now rewrite vget_vset_other.
Qed.

Lemma label_set_label_cases (s : RAPTOR) k k' rp rp' r :
  label (set_label s k rp r) k' rp' = label s k' rp'
  \/ (k = k' /\ rp = rp' /\ label (set_label s k rp r) k' rp' = r).
Proof.
  destruct (N.eq_dec rp rp') as [->|Hne].
  2: { left. now apply label_set_label_other. }
  destruct (N.eq_dec k k') as [->|Hk].
  2: { left. unfold label, set_label; simpl. now rewrite vget_vset_other. }
  unfold label, set_label; simpl.
  destruct (N.lt_ge_cases k' (vsize (retour s))) as [Hin|Hout].
  2: { left. now rewrite vset_out_of_range. }
  rewrite vget_vset_same by exact Hin.
  destruct (N.lt_ge_cases rp' (vsize (vget [] (retour s) k'))) as [Hin'|Hout'].
  - right. repeat split. now apply vget_vset_same.
  - left. now rewrite vset_out_of_range.
Qed.

End LabelFacts.

(** ** The store decision of the route scan *)


(** ** The footpath relaxer *)

Section FootPathFacts.
Context `{E : Externals}.
Variable data : Data.

Lemma offer_and_queue_labels v (s : RAPTOR) rp r :
  retour (offer_and_queue data v s rp r) = retour s
  /\ best (offer_and_queue data v s rp r) = best s
  /\ count (offer_and_queue data v s rp r) = count s
  /\ marked_sp (offer_and_queue data v s rp r) = marked_sp s.
Proof.
  unfold offer_and_queue.
  destruct (ajouter_best _ _ _ _ _) as [b absorbed]; simpl.
  destruct (negb absorbed && _); simpl; repeat split; reflexivity.
Qed.


Lemma relax_footpath_rp_labels v best_rp previous dur (s : RAPTOR) next
  prec_duration rp :
  let next' :=
    if negb (dur =? prec_duration)%Z then combine v previous dur else next in
  retour (fst (fst (relax_footpath_rp data v best_rp previous dur
                      (s, next, prec_duration) rp))) =
  if negb (best_rp =? rp)%N
     && (comp v next' (instant v (best_at s rp))
         || (next' =? instant v (best_at s rp))%N)
  then retour (set_label s (count s) rp (retour_connection next' next' best_rp))
  else retour s.
Proof.
  cbv zeta. unfold relax_footpath_rp.
  destruct (negb (best_rp =? rp)%N); [|reflexivity].
  destruct (negb (dur =? prec_duration)%Z); simpl;
    match goal with
    | |- context [if ?c then _ else _] => destruct c
    end; simpl; try reflexivity;
    now rewrite (proj1 (offer_and_queue_labels _ _ _ _)).
Qed.

End FootPathFacts.


Section PivotFacts.
Context `{E : Externals}.
Variable data : Data.

Lemma label_ext (s1 s2 : RAPTOR) :
  retour s1 = retour s2 -> forall k rp, label s1 k rp = label s2 k rp.
Proof. intros H k rp. unfold label. now rewrite H. Qed.




End PivotFacts.


(** ** The validity filter *)

Section ValidityFacts.
Context `{E : Externals}.
Variable data : Data.

Lemma forbidden_fold_spec (line : Line) (mode : ModeType) (route : Route)
  (forbidden : list (string * string)) (acc : bool) :
  fold_left
    (fun (forbidden_route : bool) (pair : string * string) =>
       let forbidden_route :=
         if String.eqb (fst pair) "line"
            && String.eqb (snd pair) (l_external_code line)
         then true else forbidden_route in
       let forbidden_route :=
         if String.eqb (fst pair) "route"
            && String.eqb (snd pair) (r_external_code route)
         then true else forbidden_route in
       if String.eqb (fst pair) "mode"
          && String.eqb (snd pair) (m_external_code mode)
       then true else forbidden_route)
    forbidden acc = true
  <-> acc = true
      \/ exists kind code,
           In (kind, code) forbidden
           /\ ((kind = "line"%string /\ code = l_external_code line)
               \/ (kind = "route"%string /\ code = r_external_code route)
               \/ (kind = "mode"%string /\ code = m_external_code mode)).
Proof.
  revert acc. induction forbidden as [|[kind code] l IH]; intros acc; simpl.
  - split; [auto|]. intros [H|(k & c & [] & _)]; exact H.
  - rewrite IH. clear IH.
    destruct (String.eqb_spec kind "line") as [Hk1|Hk1];
      destruct (String.eqb_spec code (l_external_code line)) as [Hc1|Hc1];
      destruct (String.eqb_spec kind "route") as [Hk2|Hk2];
      destruct (String.eqb_spec code (r_external_code route)) as [Hc2|Hc2];
      destruct (String.eqb_spec kind "mode") as [Hk3|Hk3];
      destruct (String.eqb_spec code (m_external_code mode)) as [Hc3|Hc3];
      simpl;
      (split;
       [ intros [H|(k & c & Hin & Hm)];
         [ first [ right; exists kind, code; split; [now left|];
                   solve [ left; split; assumption
                         | right; left; split; assumption
                         | right; right; split; assumption ]
                 | left; exact H ]
         | right; exists k, c; split; [now right | exact Hm] ]
       | intros [H|(k & c & [Heq|Hin] & Hm)];
         [ first [ left; exact H | left; reflexivity ]
         | first [ left; reflexivity
                 | exfalso; inversion Heq; subst;
                   destruct Hm as [[? ?]|[[? ?]|[? ?]]]; congruence ]
         | right; exists k, c; split; assumption ] ]).
Qed.

Lemma some_vj_circulates_spec date vjs :
  some_vj_circulates data date vjs = true
  <-> exists vjidx, In vjidx vjs /\ vj_check2 data date vjidx = true.
Proof.
  induction vjs as [|x l IH]; simpl.
  - split; [discriminate|]. intros (? & [] & _).
  - destruct (vj_check2 data date x) eqn:Hx.
    + split; [|reflexivity]. intros _. exists x. auto.
    + rewrite IH. split.
      * intros (y & Hy & Hc). exists y. auto.
      * intros (y & [->|Hy] & Hc); [congruence|]. exists y. auto.
Qed.

Lemma routes_valides_fold (cond : Route -> bool) (l : list Route)
  (rv : list bool) (j : idx_t) :
  vget false
    (fold_left (fun rv route =>
                  if cond route then vset rv (r_idx route) true else rv) l rv)
    j = true
  <-> vget false rv j = true
      \/ ((j < vsize rv)%N
          /\ exists route, In route l /\ r_idx route = j /\ cond route = true).
Proof.
  revert rv. induction l as [|a l IH]; intros rv; simpl.
  - split; [auto|]. intros [H|(_ & r & [] & _)]; exact H.
  - rewrite IH. clear IH.
    destruct (cond a) eqn:Ha.
    + rewrite vsize_vset.
      destruct (N.eq_dec (r_idx a) j) as [Hj|Hj].
      * subst j.
        destruct (N.lt_ge_cases (r_idx a) (vsize rv)) as [Hin|Hout].
        -- rewrite vget_vset_same by exact Hin. split; intros _.
           ++ right. split; [exact Hin|]. exists a. auto.
           ++ now left.
        -- rewrite vset_out_of_range by exact Hout.
           rewrite vget_out_of_range by exact Hout.
           split; intros [H|(Hlt & _)]; try discriminate; lia.
      * rewrite vget_vset_other by exact Hj. split.
        -- intros [H|(Hlt & r & Hr & Hidx & Hc)]; [now left|].
           right. split; [exact Hlt|]. exists r. auto.
        -- intros [H|(Hlt & r & [->|Hr] & Hidx & Hc)];
             [now left | congruence |].
           right. split; [exact Hlt|]. exists r. auto.
    + split.
      * intros [H|(Hlt & r & Hr & Hidx & Hc)]; [now left|].
        right. split; [exact Hlt|]. exists r. auto.
      * intros [H|(Hlt & r & [->|Hr] & Hidx & Hc)];
          [now left | congruence |].
        right. split; [exact Hlt|]. exists r. auto.
Qed.

End ValidityFacts.

(** C7.  When every route sits at the position its [idx] names, the bit of a
    route in [routes_valides] is set by [set_routes_valides] if and only if no
    forbidden pair matches the route (kind [line] against the external code of
    its line, [route] against its own, [mode] against its mode type's) and
    one of its vehicle journeys has a validity pattern for which [check2]
    holds at the date. *)
Theorem set_routes_valides_iff `{E : Externals} (data : Data) (s : RAPTOR)
  (date : N) (forbidden : list (string * string)) (i : nat) (route : Route) :
  (forall j r, nth_error (routes data) j = Some r -> r_idx r = N.of_nat j) ->
  nth_error (routes data) i = Some route ->
  vget false (routes_valides (set_routes_valides data s date forbidden))
       (r_idx route) = true
  <->
  (~ (exists kind code,
        In (kind, code) forbidden
        /\ ((kind = "line"%string
             /\ code = l_external_code
                         (vget Line_default (lines data) (line_idx route)))
            \/ (kind = "route"%string /\ code = r_external_code route)
            \/ (kind = "mode"%string
                /\ code = m_external_code
                            (vget ModeType_default (mode_types data)
                                  (mode_type_idx route))))))
  /\ (exists vjidx,
        In vjidx (vehicle_journey_list route)
        /\ check2
             (vget {| days := [] |} (validity_patterns data)
                (validity_pattern_idx
                   (vget VehicleJourney_default (vehicle_journeys data) vjidx)))
             date = true).
Proof.
  intros Hidx Hroute.
  unfold set_routes_valides. simpl routes_valides.
  rewrite (fold_left_ext
             (fun rv route =>
                if negb (forbidden_route data forbidden route)
                   && some_vj_circulates data date (vehicle_journey_list route)
                then vset rv (r_idx route) true else rv)).
  2: { intros rv r. destruct (forbidden_route data forbidden r); simpl;
       [reflexivity|].
       destruct (some_vj_circulates data date (vehicle_journey_list r));
         reflexivity. }
  rewrite (routes_valides_fold
             (fun route => negb (forbidden_route data forbidden route)
                           && some_vj_circulates data date
                                (vehicle_journey_list route))).
  assert (Hfalse : vget false (repeat false (List.length (routes data)))
                        (r_idx route) = false).
  { generalize (List.length (routes data)) as n. generalize (r_idx route).
    intros j n. revert j. induction n as [|n IH]; intros j; simpl;
      [reflexivity|]. destruct (j =? 0)%N; [reflexivity|apply IH]. }
  rewrite Hfalse.
  assert (Hcond :
            negb (forbidden_route data forbidden route)
            && some_vj_circulates data date (vehicle_journey_list route)
            = true
            <-> (~ (exists kind code,
                      In (kind, code) forbidden
                      /\ ((kind = "line"%string
                           /\ code = l_external_code
                                (vget Line_default (lines data)
                                      (line_idx route)))
                          \/ (kind = "route"%string
                              /\ code = r_external_code route)
                          \/ (kind = "mode"%string
                              /\ code = m_external_code
                                   (vget ModeType_default (mode_types data)
                                         (mode_type_idx route))))))
                /\ (exists vjidx,
                      In vjidx (vehicle_journey_list route)
                      /\ vj_check2 data date vjidx = true)).
  { rewrite andb_true_iff, negb_true_iff, some_vj_circulates_spec.
    unfold forbidden_route.
    pose proof (forbidden_fold_spec
                  (vget Line_default (lines data) (line_idx route))
                  (vget ModeType_default (mode_types data)
                        (mode_type_idx route))
                  route forbidden false) as Hf.
    cbv zeta in Hf.
    split.
    - intros [Hn Hc]. split; [|exact Hc].
      intros Hex. rewrite (proj2 Hf) in Hn; [discriminate|now right].
    - intros [Hn Hc]. split; [|exact Hc].
      apply not_true_is_false. intros Hx.
      apply Hn. apply Hf in Hx. destruct Hx as [Hx|Hx];
        [discriminate|exact Hx]. }
  unfold vj_check2 in Hcond. rewrite <- Hcond. clear Hcond.
  split.
  - intros [H|(_ & r & Hin & Hr & Hc)]; [discriminate|].
    apply In_nth_error in Hin. destruct Hin as [j Hj].
    pose proof (Hidx _ _ Hj) as Hrj. pose proof (Hidx _ _ Hroute) as Hri.
    assert (j = i) by lia. subst j.
    rewrite Hroute in Hj. inversion Hj; subst. exact Hc.
  - intros Hc. right. split.
    + unfold vsize. rewrite repeat_length. rewrite (Hidx _ _ Hroute).
      assert (i < List.length (routes data))%nat
        by (apply nth_error_Some; congruence).
      lia.
    + exists route. split; [|split; [reflexivity|exact Hc]].
      eapply nth_error_In; eassumption.
Qed.

(** ** Path metadata *)

Lemma skipn_nth_cons {A} (d : A) (l : list A) (a : nat) :
  (a < List.length l)%nat -> skipn a l = nth a l d :: skipn (S a) l.
Proof.
  revert a; induction l as [|x l IH]; intros a Ha; simpl in *; [lia|].
  destruct a as [|a]; [reflexivity|]. apply IH. lia.
Qed.

Lemma count_changes_fold (P : PathItem.t -> bool) (items : list PathItem.t)
  (k a : nat) (n0 : N) :
  (a + k <= List.length items)%nat ->
  fold_left
    (fun (nb_changes : N) i =>
       if P (nth i items PathItem.default) then (nb_changes + 1)%N
       else nb_changes)
    (seq a k) n0
  = (n0 + N.of_nat (List.length (filter P (firstn k (skipn a items)))))%N.
Proof.
  revert a n0; induction k as [|k IH]; intros a n0 Hk; simpl.
  - lia.
  - rewrite IH by lia.
    rewrite (@skipn_nth_cons _ PathItem.default items a) by lia.
    simpl firstn. simpl filter.
    destruct (P (nth a items PathItem.default)); simpl List.length; lia.
Qed.

Lemma count_changes_spec (items : list PathItem.t) :
  count_changes items
  = N.of_nat
      (List.length
         (filter (fun item => ItemType.eqb (PathItem.type item) ItemType.walking)
                 (removelast (tl items)))).
Proof.
  unfold count_changes.
  destruct (2 <? List.length items)%nat eqn:Hlen.
  - apply Nat.ltb_lt in Hlen.
    rewrite (count_changes_fold
               (fun item => ItemType.eqb (PathItem.type item) ItemType.walking))
      by lia.
    rewrite N.add_0_l. do 3 f_equal.
    rewrite removelast_firstn_len.
    destruct items as [|x l]; simpl in *; [lia|].
    f_equal. lia.
  - apply Nat.ltb_ge in Hlen.
    destruct items as [|x [|y [|z l]]]; simpl in *; try reflexivity; lia.
Qed.

Section PathFacts.
Context `{E : Externals}.
Variable data : Data.

Lemma makePath_step_items fuel (s : RAPTOR) reverse items cur cb re items' cur'
  cb' re' :
  makePath_step data fuel s reverse items cur cb re
  = Some (items', cur', cb', re') ->
  (exists item, items' = items ++ [item])
  \/ (items' = items /\ re' = re /\ re <> invalid_idx).
Proof.
  unfold makePath_step.
  destruct (is_connection_type _).
  - intros H; inversion H; subst. left. eauto.
  - destruct (re =? invalid_idx)%N eqn:Hre.
    + destruct (at_stop_time _ _); [|discriminate].
      destruct (leg_loop _ _ _ _ _ _ _ _) as [[[[i w] st] c]|]; [|discriminate].
      destruct (push_times _ _ _ _).
      intros H; inversion H; subst. left. eauto.
    + intros H; inversion H; subst. right. apply N.eqb_neq in Hre. auto.
Qed.

Lemma makePath_loop_nonempty fuel (s : RAPTOR) reverse items cur cb re res :
  makePath_loop data fuel s reverse items cur cb re = Some res ->
  items <> [] \/ re = invalid_idx ->
  res <> [].
Proof.
  revert items cur cb re.
  induction fuel as [|fuel IH]; intros items cur cb re; simpl; [discriminate|].
  destruct (makePath_step data fuel s reverse items cur cb re)
    as [[[[items' cur'] cb'] re']|] eqn:Hstep; [|discriminate].
  intros Hloop Hinit.
  assert (Hne : items' <> []).
  { apply makePath_step_items in Hstep.
    destruct Hstep as [(item & ->)|(-> & _ & Hre)].
    - destruct items; discriminate.
    - destruct Hinit; [assumption|contradiction]. }
  destruct (boarding_type_eqb _ _).
  - inversion Hloop; subst. exact Hne.
  - eapply IH; [exact Hloop|]. now left.
Qed.

End PathFacts.

(** C9.  A path returned by [makePath] has at least one item; its duration
    is the arrival of its last item minus the departure of its first item,
    and [nb_changes] is the number of items of type [walking] strictly
    between the first and the last item, hence 0 when the path has at most
    two items. *)
Theorem makePath_duration_and_changes `{E : Externals} (data : Data)
  (fuel : nat) (s : RAPTOR) (destination_idx : idx_t) (countb : N)
  (reverse : bool) (p : Path.t) :
  makePath data fuel s destination_idx countb reverse = Some p ->
  Path.items p <> []
  /\ Path.duration p
     = DT.diff (PathItem.arrival (last (Path.items p) PathItem.default))
               (PathItem.departure (hd PathItem.default (Path.items p)))
  /\ Path.nb_changes p
     = N.of_nat
         (List.length
            (filter
               (fun item =>
                  ItemType.eqb (PathItem.type item) ItemType.walking)
               (removelast (tl (Path.items p)))))
  /\ ((List.length (Path.items p) <= 2)%nat -> Path.nb_changes p = 0%N).
Proof.
  unfold makePath.
  destruct (makePath_loop data fuel s reverse [] destination_idx countb
                          invalid_idx) as [items|] eqn:Hloop; [|discriminate].
  intros Hp. inversion Hp; subst p; clear Hp.
  assert (Hne : items <> [])
    by (eapply makePath_loop_nonempty; [exact Hloop|now right]).
  unfold finish_path. simpl.
  set (items' := if negb reverse then map reverse_item (rev items) else items).
  assert (Hne' : items' <> []).
  { unfold items'. destruct (negb reverse); [|exact Hne].
    intros H. apply map_eq_nil in H.
    apply (f_equal (@List.length _)) in H. rewrite length_rev in H.
    destruct items; [congruence|discriminate]. }
  clearbody items'.
  split; [exact Hne'|]. split; [|split].
  - destruct items' as [|x l]; [congruence|reflexivity].
  - apply count_changes_spec.
  - intros Hlen. rewrite count_changes_spec.
    destruct items' as [|x [|y [|z l]]]; simpl in *; try reflexivity; lia.
Qed.

(** ** No journey found *)

(** C8.  When the destination tracker's best label is still uninitialized
    after the first pass, [compute_all] and [compute_reverse_all] return the
    empty path list and leave the engine as the first pass left it: no
    further pass and no reconstruction takes place. *)
Theorem compute_all_empty_when_destination_unreached `{E : Externals}
  (data : Data) (fuel : nat) (s : RAPTOR)
  (departs destinations : list (idx_t * double)) (dt_depart borne : DateTime)
  (forbidden : list (string * string)) :
  (forall s1,
     boucleRAPTOR data fuel false
       (clear_and_init data
          (set_routes_valides data s (DT.date dt_depart) forbidden)
          (getDepartures departs dt_depart true data)
          destinations borne true true) = Some s1 ->
     type (best_now (b_dest s1)) = uninitialized ->
     compute_all data fuel s departs destinations dt_depart borne forbidden
     = Some ([], s1))
  /\
  (forall s1,
     boucleRAPTORreverse data fuel global_pruning_default
       (clear_and_init data
          (set_routes_valides data s (DT.date dt_depart) forbidden)
          (getDepartures destinations dt_depart false data)
          departs borne false true) = Some s1 ->
     type (best_now (b_dest s1)) = uninitialized ->
     compute_reverse_all data fuel s departs destinations dt_depart borne
                         forbidden
     = Some ([], s1)).
Proof.
  split; intros s1 Hpass Hty.
  - unfold compute_all. rewrite Hpass.
    unfold is_uninitialized. rewrite Hty. reflexivity.
  - unfold compute_reverse_all. rewrite Hpass.
    unfold is_uninitialized. rewrite Hty. reflexivity.
Qed.

(** ** The boarding state at the start of a route scan *)

Section ScanFacts.
Context `{E : Externals}.
Variable data : Data.

Lemma boarding_agree_refl b : boarding_agree b b.
Proof. unfold boarding_agree. auto 10. Qed.

Lemma boarding_agree_boarded b1 b2 :
  boarding_agree b1 b2 -> t b1 <> (-1)%Z -> b1 = b2.
Proof.
  destruct b1, b2. unfold boarding_agree. simpl.
  intros (-> & -> & -> & -> & [H| ->]) Hne; [contradiction|reflexivity].
Qed.

Lemma scan_rp_l_zone v gp route (s : RAPTOR) b1 b2 e rp :
  boarding_agree b1 b2 ->
  fst (fst (scan_rp data v gp route (s, b1, e) rp))
  = fst (fst (scan_rp data v gp route (s, b2, e) rp))
  /\ snd (scan_rp data v gp route (s, b1, e) rp)
     = snd (scan_rp data v gp route (s, b2, e) rp)
  /\ boarding_agree (snd (fst (scan_rp data v gp route (s, b1, e) rp)))
                    (snd (fst (scan_rp data v gp route (s, b2, e) rp))).
Proof.
  intros Hag.
  destruct (Z.eq_dec (t b1) (-1)) as [Ht|Ht].
  2: { rewrite (boarding_agree_boarded Hag Ht).
       repeat split; try reflexivity. apply boarding_agree_refl. }
  destruct b1 as [t1 e1 w1 i1 z1], b2 as [t2 e2 w2 i2 z2].
  unfold boarding_agree in Hag. simpl in Hag, Ht.
  destruct Hag as (<- & <- & <- & <- & _). subst t1.
  unfold scan_rp, scan_store, scan_board. simpl.
  repeat (match goal with
          | |- context [if ?c then _ else _] => destruct c
          end; simpl);
    repeat split; try reflexivity; unfold boarding_agree; simpl; auto 10.
Qed.

Lemma scan_rps_l_zone v gp route rps (s : RAPTOR) b1 b2 e :
  boarding_agree b1 b2 ->
  fst (fst (fold_left (scan_rp data v gp route) rps (s, b1, e)))
  = fst (fst (fold_left (scan_rp data v gp route) rps (s, b2, e)))
  /\ snd (fold_left (scan_rp data v gp route) rps (s, b1, e))
     = snd (fold_left (scan_rp data v gp route) rps (s, b2, e))
  /\ boarding_agree
       (snd (fst (fold_left (scan_rp data v gp route) rps (s, b1, e))))
       (snd (fst (fold_left (scan_rp data v gp route) rps (s, b2, e)))).
Proof.
  revert s b1 b2 e. induction rps as [|rp rps IH]; intros s b1 b2 e Hag.
  - simpl. auto.
  - simpl.
    destruct (scan_rp_l_zone v gp route s e rp Hag) as (Hs & He & Hb).
    destruct (scan_rp data v gp route (s, b1, e) rp) as [[s1 b1'] e1].
    destruct (scan_rp data v gp route (s, b2, e) rp) as [[s2 b2'] e2].
    simpl in Hs, He, Hb. subst s2 e2. now apply IH.
Qed.

End ScanFacts.

(** C3, as the code has it.  When the scan of a route starts, the boarded
    trip is set to none, the boarding route point to the visitor's initial
    value and the working datetime to the direction's worst value; [l_zone]
    keeps the value the last boarding left (it is set to none once, before the
    first round).  That value is never read: whatever [l_zone] holds when the
    scan of a route starts, the scan leaves the same engine state, the same
    [end] flag and the same boarded trip, boarding route point, working
    datetime and stop-time cursor. *)
Theorem route_scan_start_keeps_dead_l_zone `{E : Externals} (data : Data)
  (v : Visitor) (global_pruning : bool) (s : RAPTOR) (b : Boarding)
  (end_ : bool) (route : Route) (z : N) :
  (t (route_entry v b) = (-1)%Z
   /\ embarquement (route_entry v b) = embarquement_init v
   /\ workingDt (route_entry v b) = working_datetime_init v
   /\ l_zone (route_entry v b) = l_zone b
   /\ l_zone (boarding_init v) = uint32_max)
  /\
  (let r1 := scan_route data v global_pruning (s, b, end_) route in
   let r2 := scan_route data v global_pruning (s, with_l_zone b z, end_) route in
   fst (fst r1) = fst (fst r2)
   /\ snd r1 = snd r2
   /\ t (snd (fst r1)) = t (snd (fst r2))
   /\ embarquement (snd (fst r1)) = embarquement (snd (fst r2))
   /\ workingDt (snd (fst r1)) = workingDt (snd (fst r2))
   /\ it_st (snd (fst r1)) = it_st (snd (fst r2))).
Proof.
  split; [repeat split|].
  cbv zeta. unfold scan_route.
  destruct (route_is_scanned s route).
  - assert (Hag : boarding_agree (route_entry v b)
                                 (route_entry v (with_l_zone b z))).
    { unfold boarding_agree, route_entry. simpl. auto 10. }
    destruct (scan_rps_l_zone data v global_pruning route
                (v_route_points v route (Q_at s (r_idx route))) s end_ Hag)
      as (Hs & He & Hb).
    destruct (fold_left _ _ (s, route_entry v b, end_)) as [[s1 b1] e1].
    destruct (fold_left _ _ (s, route_entry v (with_l_zone b z), end_))
      as [[s2 b2] e2].
    simpl in *. subst s2 e2.
    destruct Hb as (H1 & H2 & H3 & H4 & _). auto 10.
  - simpl. auto 10.
Qed.

(** C3, as stated, fails: in the first round of the query on [net1], route 0
    is scanned first and a trip is boarded in local traffic zone 5; route 1 is
    queued and valid, and its scan starts with [l_zone] still 5. *)
Lemma route_scan_start_l_zone_not_reset :
  let r :=
    scan_route net1 (raptor_visitor net1) false
               (net1_round1, boarding_init (raptor_visitor net1), true)
               net1_route0 in
  route_is_scanned (fst (fst r)) net1_route1 = true
  /\ l_zone (route_entry (raptor_visitor net1) (snd (fst r))) = 5%N
  /\ l_zone (route_entry (raptor_visitor net1) (snd (fst r))) <> uint32_max.
Proof. vm_compute. repeat split; discriminate. Qed.

(** ** Worked instances *)


Lemma set_routes_valides_route0_of_net1 :
  exists vjidx,
    In vjidx (vehicle_journey_list net1_route0)
    /\ check2
         (vget {| days := [] |} (validity_patterns net1)
            (validity_pattern_idx
               (vget VehicleJourney_default (vehicle_journeys net1) vjidx)))
         1%N = true.
Proof.
  refine (proj2 (proj1 (@set_routes_valides_iff sample_externals net1 engine1
                          1%N [("line", "L1")]%string 0%nat net1_route0 _ _)
                       _)).
  - intros j r H. destruct j as [|[|j]]; simpl in H.
    + inversion H. reflexivity.
    + inversion H. reflexivity.
    + destruct j; discriminate.
  - reflexivity.
  - reflexivity.
Defined.

Lemma makePath_on_net1 :
  exists p,
    net1_path = Some p
    /\ Path.items p <> []
    /\ Path.duration p = 1200%Z
    /\ Path.nb_changes p = 0%N.
Proof.
  assert (Hp : makePath net1 10%nat net1_forward 2%N 1%N false
               = Some net1_path_value) by (vm_compute; reflexivity).
  exists net1_path_value. split; [exact Hp|].
  destruct (@makePath_duration_and_changes sample_externals net1 10%nat
              net1_forward 2%N 1%N false net1_path_value Hp)
    as (Hne & Hd & Hc & _).
  split; [exact Hne|]. split.
  - rewrite Hd. vm_compute. reflexivity.
  - rewrite Hc. vm_compute. reflexivity.
Defined.

Lemma compute_all_on_blocked_net1 :
  compute_all net1 10%nat engine1 [(0%N, zero_meters)] [(3%N, zero_meters)]
              27000%N DT.inf [("line", "L1")]%string
  = Some ([], net1_blocked).
Proof.
  apply (proj1 (@compute_all_empty_when_destination_unreached sample_externals
                  net1 10%nat engine1 [(0%N, zero_meters)]
                  [(3%N, zero_meters)] 27000%N DT.inf
                  [("line", "L1")]%string)).
  - vm_compute. reflexivity.
  - vm_compute. reflexivity.
Defined.

(** ** The forward order on engine states *)

Unset Implicit Arguments.

Lemma vget_In {A} (d : A) (l : list A) (i : N) :
  (i < vsize l)%N -> In (vget d l i) l.
Proof.
  unfold vsize. revert i; induction l as [|x l IH]; intros i Hi; simpl in *.
  - lia.
  - destruct (i =? 0)%N eqn:E0; [now left|].
    right. apply IH. apply N.eqb_neq in E0. lia.
Qed.

Lemma Forall_vset {A} (P : A -> Prop) (l : list A) (i : N) (x : A) :
  Forall P l -> ((i < vsize l)%N -> P x) -> Forall P (vset l i x).
Proof.
  intros Hl. revert i; induction Hl as [|y l Hy Hl IH]; intros i Hx; simpl.
  - constructor.
  - destruct (i =? 0)%N eqn:E0.
    + constructor; [|exact Hl]. apply Hx. unfold vsize. simpl.
      apply N.eqb_eq in E0. lia.
    + constructor; [exact Hy|]. apply IH. intros Hi. apply Hx.
      unfold vsize in *. simpl. apply N.eqb_neq in E0. lia.
Qed.

Lemma vget_succ {A} (d : A) (x : A) (l : list A) (i : N) :
  vget d (x :: l) (N.succ i) = vget d l i.
Proof.
  simpl. destruct (N.succ i =? 0)%N eqn:E0.
  - apply N.eqb_eq in E0. lia.
  - now rewrite N.pred_succ.
Qed.

Lemma best_arrival_sum_pointwise (d : type_retour) (l' l : list type_retour) :
  List.length l' = List.length l ->
  (forall i, (arrival (vget d l' i) <= arrival (vget d l i))%N) ->
  (best_arrival_sum l' <= best_arrival_sum l)%N.
Proof.
  revert l; induction l' as [|x' l' IH]; intros [|x l] Hlen Hpt;
    simpl in Hlen; try lia.
  assert (H0 := Hpt 0%N). simpl in H0.
  assert (Htl : (best_arrival_sum l' <= best_arrival_sum l)%N).
  { apply IH; [lia|]. intros i. specialize (Hpt (N.succ i)).
    now rewrite !vget_succ in Hpt. }
  simpl. lia.
Qed.

Lemma best_arrival_sum_vset (d : type_retour) (l : list type_retour) (i : N)
  (x : type_retour) :
  (i < vsize l)%N ->
  (best_arrival_sum (vset l i x) + arrival (vget d l i)
   = best_arrival_sum l + arrival x)%N.
Proof.
  unfold vsize. revert i; induction l as [|y l IH]; intros i Hi; simpl in *.
  - lia.
  - destruct (i =? 0)%N eqn:E0; simpl; [lia|].
    apply N.eqb_neq in E0. specialize (IH (N.pred i)). lia.
Qed.

Section ForwardOrder.
Context `{E : Externals}.
Variable data : Data.

Lemma label_set_label_range (s : RAPTOR) k k' rp rp' r :
  label (set_label s k rp r) k' rp' = label s k' rp'
  \/ (k = k' /\ rp = rp' /\ label (set_label s k rp r) k' rp' = r
      /\ (k < vsize (retour s))%N
      /\ (rp < vsize (vget [] (retour s) k))%N).
Proof.
  destruct (N.eq_dec rp rp') as [->|Hne].
  2: { left. now apply label_set_label_other. }
  destruct (N.eq_dec k k') as [->|Hk].
  2: { left. unfold label, set_label; simpl. now rewrite vget_vset_other. }
  unfold label, set_label; simpl.
  destruct (N.lt_ge_cases k' (vsize (retour s))) as [Hin|Hout].
  2: { left. now rewrite vset_out_of_range. }
  rewrite vget_vset_same by exact Hin.
  destruct (N.lt_ge_cases rp' (vsize (vget [] (retour s) k'))) as [Hin'|Hout'].
  - right. repeat split; try assumption. now apply vget_vset_same.
  - left. now rewrite vset_out_of_range.
Qed.

Lemma improves_refl (s : RAPTOR) : improves s s.
Proof.
  intros Hfit. repeat split; auto; try lia.
Qed.

Lemma improves_trans (s1 s2 s3 : RAPTOR) :
  improves s1 s2 -> improves s2 s3 -> improves s1 s3.
Proof.
  intros H12 H23 Hfit.
  destruct (H12 Hfit) as (Hf2 & Hc2 & Hb2 & Hr2 & Hp2 & Hl2).
  destruct (H23 Hf2) as (Hf3 & Hc3 & Hb3 & Hr3 & Hp3 & Hl3).
  split; [exact Hf3|]. split; [congruence|]. split; [congruence|].
  split; [congruence|]. split.
  - intros rp. specialize (Hp2 rp). specialize (Hp3 rp). lia.
  - intros k rp.
    destruct (Hl3 k rp) as [Heq3|(Hk3 & Hlo3 & Hhi3)].
    + rewrite Heq3.
      destruct (Hl2 k rp) as [Heq2|(Hk2 & Hlo2 & Hhi2)]; [now left|].
      right. split; [exact Hk2|]. split; [|exact Hhi2].
      specialize (Hp3 rp). lia.
    + right. split; [congruence|]. split; [exact Hlo3|].
      specialize (Hp2 rp). lia.
Qed.

(** A step that touches neither the labels, nor [best], nor [count]. *)
Lemma improves_aux (s s' : RAPTOR) :
  retour s' = retour s -> best s' = best s -> count s' = count s ->
  improves s s'.
Proof.
  intros Hr Hb Hc Hfit. unfold rows_fit, best_at, label in *.
  rewrite Hr, Hb, Hc. repeat split; auto; try lia.
Qed.

(** A label installed in the current round, no later than the best arrival. *)
Lemma improves_write (s : RAPTOR) rp L :
  (arrival L <= arrival (best_at s rp))%N ->
  improves s (set_best (set_label s (count s) rp L) rp L).
Proof.
  intros Hle Hfit.
  assert (Hrow : forall k, (k < vsize (retour s))%N ->
                           vsize (vget [] (retour s) k) = vsize (best s)).
  { intros k Hk. unfold rows_fit in Hfit. rewrite Forall_forall in Hfit.
    unfold vsize. f_equal. apply Hfit. now apply vget_In. }
  split.
  { unfold rows_fit. simpl. rewrite vset_length.
    apply Forall_vset; [exact Hfit|]. intros Hin. rewrite vset_length.
    unfold rows_fit in Hfit. rewrite Forall_forall in Hfit.
    apply Hfit. now apply vget_In. }
  split; [reflexivity|]. split; [simpl; apply vset_length|].
  split; [simpl; apply vset_length|]. split.
  - intros rp'. unfold best_at. simpl.
    destruct (N.eq_dec rp rp') as [->|Hne].
    + destruct (N.lt_ge_cases rp' (vsize (best s))) as [Hin|Hout].
      * rewrite vget_vset_same by exact Hin. exact Hle.
      * rewrite vset_out_of_range by exact Hout. lia.
    + rewrite vget_vset_other by exact Hne. lia.
  - intros k rp'.
    assert (Hlab : label (set_best (set_label s (count s) rp L) rp L) k rp'
                   = label (set_label s (count s) rp L) k rp') by reflexivity.
    rewrite Hlab.
    destruct (label_set_label_range s (count s) k rp rp' L)
      as [Hsame|(Hk & Hrp & Hnew & Hin & Hin')]; [now left|].
    right. subst k rp'. split; [reflexivity|]. rewrite Hnew.
    rewrite (Hrow _ Hin) in Hin'.
    unfold best_at at 1. simpl. rewrite vget_vset_same by exact Hin'.
    split; [lia|exact Hle].
Qed.

Lemma improves_sum (s s' : RAPTOR) :
  improves s s' -> rows_fit s ->
  (best_arrival_sum (best s') <= best_arrival_sum (best s))%N.
Proof.
  intros H Hfit. destruct (H Hfit) as (_ & _ & Hlen & _ & Hpt & _).
  apply (best_arrival_sum_pointwise retour_default); assumption.
Qed.

Lemma improves_fit (s s' : RAPTOR) : improves s s' -> rows_fit s -> rows_fit s'.
Proof. intros H Hfit. now destruct (H Hfit). Qed.

Lemma improves_vsize_best (s s' : RAPTOR) :
  improves s s' -> rows_fit s -> vsize (best s') = vsize (best s).
Proof.
  intros H Hfit. destruct (H Hfit) as (_ & _ & Hlen & _).
  unfold vsize. now rewrite Hlen.
Qed.

Lemma improves_fold {B} (f : RAPTOR -> B -> RAPTOR) (l : list B) (s : RAPTOR) :
  (forall s x, improves s (f s x)) -> improves s (fold_left f l s).
Proof.
  intros Hf. revert s; induction l as [|x l IH]; intros s; simpl.
  - apply improves_refl.
  - eapply improves_trans; [apply Hf | apply IH].
Qed.

Lemma offer_and_queue_improves v (s : RAPTOR) rp r :
  improves s (offer_and_queue data v s rp r).
Proof.
  destruct (offer_and_queue_labels data v s rp r) as (Hr & Hb & Hc & _).
  now apply improves_aux.
Qed.

(** *** The relaxers, forward *)

Lemma relax_same_stop_improves best_rp best_departure (s : RAPTOR) rp :
  improves s (relax_same_stop data walking_visitor best_rp best_departure s rp).
Proof.
  unfold relax_same_stop. simpl comp. simpl instant.
  destruct (negb (rp =? best_rp)%N); simpl; [|apply improves_refl].
  destruct (N.ltb_spec best_departure (arrival (best_at s rp)));
    [|apply improves_refl].
  eapply improves_trans; [|apply offer_and_queue_improves].
  apply (@improves_write s rp
           (retour_connection best_departure best_departure best_rp)).
  simpl. lia.
Qed.

Lemma relax_footpath_rp_improves best_rp previous dur
  (acc : RAPTOR * DateTime * Z) rp :
  improves (fst (fst acc))
    (fst (fst (relax_footpath_rp data walking_visitor best_rp previous dur
                 acc rp))).
Proof.
  destruct acc as [[s next] prec]. unfold relax_footpath_rp.
  simpl comp. simpl instant. simpl combine.
  change (fst (fst (s, next, prec))) with s.
  destruct (negb (best_rp =? rp)%N); simpl; [|apply improves_refl].
  destruct (negb (dur =? prec)%Z); simpl.
  - destruct (N.ltb_spec (DT.plus previous dur) (arrival (best_at s rp)));
      destruct (N.eqb_spec (DT.plus previous dur) (arrival (best_at s rp)));
      simpl; try apply improves_refl;
      (eapply improves_trans; [|apply offer_and_queue_improves]);
      apply (@improves_write s rp
               (retour_connection (DT.plus previous dur)
                                  (DT.plus previous dur) best_rp));
      simpl; lia.
  - destruct (N.ltb_spec next (arrival (best_at s rp)));
      destruct (N.eqb_spec next (arrival (best_at s rp)));
      simpl; try apply improves_refl;
      (eapply improves_trans; [|apply offer_and_queue_improves]);
      apply (@improves_write s rp (retour_connection next next best_rp));
      simpl; lia.
Qed.

Lemma fold_left_improves_acc {A B} (f : RAPTOR * A -> B -> RAPTOR * A)
  (l : list B) (acc : RAPTOR * A) :
  (forall acc x, improves (fst acc) (fst (f acc x))) ->
  improves (fst acc) (fst (fold_left f l acc)).
Proof.
  intros Hf. revert acc; induction l as [|x l IH]; intros acc; simpl.
  - apply improves_refl.
  - eapply improves_trans; [apply Hf | apply IH].
Qed.

Lemma relax_footpaths_improves best_rp previous it n (s : RAPTOR) :
  improves s
    (fst (fst (relax_footpaths data walking_visitor best_rp previous it n s))).
Proof.
  unfold relax_footpaths.
  set (f := fun (acc : RAPTOR * DateTime * Z) (k : nat) => _).
  assert (H : forall l acc,
             improves (fst (fst acc)) (fst (fst (fold_left f l acc)))).
  { induction l as [|x l IH]; intros acc; simpl; [apply improves_refl|].
    eapply improves_trans; [|apply IH].
    unfold f.
    generalize (route_point_list
                  (stop_point data
                     (destination_stop_point_idx
                        (vget Connection_default (foot_path data)
                              (Z.to_N (it + Z.of_nat x)))))).
    generalize (duration (vget Connection_default (foot_path data)
                               (Z.to_N (it + Z.of_nat x)))).
    intros dur rps. revert acc.
    induction rps as [|rp rps IHr]; intros acc; simpl;
      [apply improves_refl|].
    eapply improves_trans; [apply relax_footpath_rp_improves | apply IHr]. }
  apply (H _ (s, worst walking_visitor, (-1)%Z)).
Qed.

Lemma foot_path_sp_improves (acc : RAPTOR * Z * Z) sp :
  improves (fst (fst acc))
           (fst (fst (foot_path_sp data walking_visitor acc sp))).
Proof.
  destruct acc as [[s it] last]. unfold foot_path_sp.
  change (fst (fst (s, it, last))) with s.
  destruct (select_pivot walking_visitor s _) as [best_arrival best_rp].
  destruct (negb (best_rp =? invalid_idx)%N); [|apply improves_refl].
  match goal with
  | |- context [relax_footpaths data walking_visitor best_rp ?p ?i ?n ?s1] =>
      pose proof (relax_footpaths_improves best_rp p i n s1) as Hfp;
      destruct (relax_footpaths data walking_visitor best_rp p i n s1)
        as [[s2 n2] p2]
  end.
  simpl in *.
  eapply improves_trans; [|exact Hfp].
  apply improves_fold. intros s' x. apply relax_same_stop_improves.
Qed.

Lemma marcheapied_improves (s : RAPTOR) : improves s (marcheapied data s).
Proof.
  unfold marcheapied, foot_path_run.
  set (f := foot_path_sp data walking_visitor).
  assert (H : forall l acc,
             improves (fst (fst acc)) (fst (fst (fold_left f l acc)))).
  { induction l as [|x l IH]; intros acc; simpl; [apply improves_refl|].
    eapply improves_trans; [apply foot_path_sp_improves | apply IH]. }
  apply (H _ (s, 0%Z, 0%Z)).
Qed.

Lemma route_path_connections_forward_improves (s : RAPTOR) :
  improves s (route_path_connections_forward data s).
Proof.
  unfold route_path_connections_forward.
  set (g := fun (acc : RAPTOR * list idx_t) (rp : idx_t) => _).
  assert (Hg : forall l acc, improves (fst acc) (fst (fold_left g l acc))).
  { intros l acc0. apply (fold_left_improves_acc g l acc0).
    intros acc rp. unfold g.
    apply (fold_left_improves_acc _ (equal_range (footpath_rp_forward data) rp)
             acc).
    clear. intros [s to_mark] rpc.
    change (fst (s, to_mark)) with s.
    destruct (boarding_type_eqb _ _ && _) eqn:Hc; [|apply improves_refl].
    simpl. apply andb_prop in Hc. destruct Hc as [_ Hc].
    apply N.ltb_lt in Hc.
    apply (@improves_write s (destination_route_point_idx rpc)
             (retour_typed _ _ rp _)).
    simpl. lia. }
  specialize (Hg (set_bits (marked_rp s)) (s, [])).
  destruct (fold_left g (set_bits (marked_rp s)) (s, [])) as [s1 to_mark].
  simpl in Hg. eapply improves_trans; [exact Hg|].
  apply improves_fold. intros s' rp.
  destruct (_ <? _)%Z; apply improves_aux; reflexivity.
Qed.

(** *** The route scan, forward *)

Lemma store_better_improves (s : RAPTOR) rpid wdt bound st emb :
  (arrival bound <= arrival (best_at s rpid))%N ->
  improves s (fst (fst (store_better data s rpid wdt bound st emb))).
Proof.
  intros Hb. unfold store_better.
  set (dt := DT.update wdt (arrival_time st)).
  destruct ((dt <? arrival bound)%N && drop_off_allowed st) eqn:Hstrict.
  - apply andb_prop in Hstrict. destruct Hstrict as [Hlt _].
    apply N.ltb_lt in Hlt.
    assert (Hw : improves s (set_best (set_label s (count s) rpid
                                         (retour_vj st dt emb true))
                                      rpid (retour_vj st dt emb true))).
    { apply improves_write. simpl. lia. }
    simpl. destruct (ajouter_best _ _ _ _ _) as [b absorbed].
    destruct absorbed; simpl;
      (eapply improves_trans; [exact Hw|]); apply improves_aux; reflexivity.
  - destruct ((dt =? arrival bound)%N && _) eqn:Htie; simpl;
      [|apply improves_refl].
    apply andb_prop in Htie. destruct Htie as [Heq _].
    apply N.eqb_eq in Heq.
    destruct (ajouter_best _ _ _ _ _) as [b absorbed].
    destruct absorbed; simpl.
    + eapply improves_trans;
        [apply (improves_aux s (with_b_dest s b)); reflexivity|].
      apply (improves_write (with_b_dest s b) rpid (retour_vj st dt emb true)).
      simpl. change (best_at (with_b_dest s b) rpid) with (best_at s rpid).
      lia.
    + apply improves_aux; reflexivity.
Qed.

Lemma store_better_strict (s : RAPTOR) rpid wdt bound st emb :
  snd (store_better data s rpid wdt bound st emb) = false ->
  (rpid < vsize (best s))%N ->
  (arrival bound <= arrival (best_at s rpid))%N ->
  (best_arrival_sum (best (fst (fst (store_better data s rpid wdt bound st
                                        emb))))
   < best_arrival_sum (best s))%N.
Proof.
  unfold store_better.
  set (dt := DT.update wdt (arrival_time st)).
  destruct ((dt <? arrival bound)%N && drop_off_allowed st) eqn:Hstrict.
  - apply andb_prop in Hstrict. destruct Hstrict as [Hlt _].
    apply N.ltb_lt in Hlt. simpl.
    destruct (ajouter_best _ _ _ _ _) as [b absorbed].
    destruct absorbed; simpl; [discriminate|].
    intros _ Hin Hb.
    pose proof (best_arrival_sum_vset retour_default (best s) rpid
                  (retour_vj st dt emb true) Hin) as Hsum.
    simpl in Hsum. unfold best_at in Hb. lia.
  - destruct ((dt =? arrival bound)%N && _); simpl.
    + destruct (ajouter_best _ _ _ _ _) as [b absorbed].
      destruct absorbed; simpl; discriminate.
    + discriminate.
Qed.

Lemma scan_store_forward gp (s : RAPTOR) b e rp :
  improves s (fst (fst (scan_store data (raptor_visitor data) gp (s, b, e) rp)))
  /\ ((rp_idx rp < vsize (best s))%N ->
      snd (scan_store data (raptor_visitor data) gp (s, b, e) rp) = false ->
      e = false
      \/ (best_arrival_sum
            (best (fst (fst (scan_store data (raptor_visitor data) gp
                               (s, b, e) rp))))
          < best_arrival_sum (best s))%N).
Proof.
  unfold scan_store.
  destruct (0 <=? t b)%Z; [|split; [apply improves_refl|simpl; auto]].
  cbv zeta.
  match goal with
  | |- context [if ?c then _ else (s, ?b', e)] => destruct c
  end; [|split; [apply improves_refl|simpl; auto]].
  simpl v_store_better. simpl better.
  match goal with
  | |- context [store_better data s ?r ?w ?bd ?st0 ?em] =>
      assert (Hb : (arrival bd <= arrival (best_at s r))%N);
      [ destruct (N.ltb_spec (arrival (best_at s (rp_idx rp)))
                             (arrival (best_now (b_dest s)))); simpl; [lia|];
        destruct (negb gp); simpl; lia
      | pose proof (store_better_improves s r w bd st0 em Hb) as Himp;
        pose proof (store_better_strict s r w bd st0 em) as Hstr;
        destruct (store_better data s r w bd st0 em) as [[s' wdt'] res] ]
  end.
  simpl in *. split; [exact Himp|].
  intros Hin Hend. destruct res; simpl in Hend; [now left|].
  right. now apply Hstr.
Qed.

Lemma scan_board_state v route (acc : RAPTOR * Boarding * bool) rp :
  fst (fst (scan_board data v route acc rp)) = fst (fst acc)
  /\ snd (scan_board data v route acc rp) = snd acc.
Proof.
  destruct acc as [[s b] e]. unfold scan_board.
  repeat (match goal with
          | |- context [if ?c then _ else _] => destruct c
          end; simpl); auto.
Qed.

(** The scan invariant: the state improves on [s0], and [end] is false only
    if it was false before or the sum of the best arrivals went down. *)
Lemma scan_rp_forward gp route (s0 : RAPTOR) (e0 : bool)
  (acc : RAPTOR * Boarding * bool) rp :
  rows_fit s0 ->
  (rp_idx rp < vsize (best s0))%N ->
  improves s0 (fst (fst acc)) ->
  (snd acc = false ->
   e0 = false
   \/ (best_arrival_sum (best (fst (fst acc)))
       < best_arrival_sum (best s0))%N) ->
  improves s0 (fst (fst (scan_rp data (raptor_visitor data) gp route acc rp)))
  /\ (snd (scan_rp data (raptor_visitor data) gp route acc rp) = false ->
      e0 = false
      \/ (best_arrival_sum
            (best (fst (fst (scan_rp data (raptor_visitor data) gp route
                               acc rp))))
          < best_arrival_sum (best s0))%N).
Proof.
  intros Hfit Hin Himp Hend. destruct acc as [[s b] e]. simpl in Himp, Hend.
  unfold scan_rp.
  destruct (scan_board_state (raptor_visitor data) route
              (scan_store data (raptor_visitor data) gp (s, b, e) rp) rp)
    as [Hs He].
  rewrite Hs, He.
  destruct (scan_store_forward gp s b e rp) as [Hst Hstr].
  split; [eapply improves_trans; eassumption|].
  intros Hfalse.
  assert (Hle : (best_arrival_sum
                   (best (fst (fst (scan_store data (raptor_visitor data) gp
                                      (s, b, e) rp))))
                 <= best_arrival_sum (best s))%N).
  { apply improves_sum; [exact Hst|]. eapply improves_fit; eassumption. }
  assert (Hle0 : (best_arrival_sum (best s) <= best_arrival_sum (best s0))%N)
    by (apply improves_sum; assumption).
  rewrite <- (improves_vsize_best s0 s Himp Hfit) in Hin.
  destruct (Hstr Hin Hfalse) as [He0|Hlt].
  - destruct (Hend He0) as [H|H]; [now left|right; lia].
  - right. lia.
Qed.

Lemma vslice_incl {A} (l : list A) (a n : N) (x : A) :
  In x (vslice l a n) -> In x l.
Proof.
  unfold vslice. intros H.
  rewrite <- (firstn_skipn (N.to_nat a) l). apply in_or_app. right.
  rewrite <- (firstn_skipn (N.to_nat n) (skipn (N.to_nat a) l)).
  apply in_or_app. now left.
Qed.

Lemma scan_route_forward gp (s0 : RAPTOR) (e0 : bool)
  (acc : RAPTOR * Boarding * bool) route :
  rows_fit s0 ->
  Forall (fun rp => (rp_idx rp < vsize (best s0))%N) (route_points data) ->
  improves s0 (fst (fst acc)) ->
  (snd acc = false ->
   e0 = false
   \/ (best_arrival_sum (best (fst (fst acc)))
       < best_arrival_sum (best s0))%N) ->
  improves s0
    (fst (fst (scan_route data (raptor_visitor data) gp acc route)))
  /\ (snd (scan_route data (raptor_visitor data) gp acc route) = false ->
      e0 = false
      \/ (best_arrival_sum
            (best (fst (fst (scan_route data (raptor_visitor data) gp acc
                               route))))
          < best_arrival_sum (best s0))%N).
Proof.
  intros Hfit Hrange Himp Hend. destruct acc as [[s b] e].
  simpl in Himp, Hend. unfold scan_route.
  destruct (route_is_scanned s route).
  - assert (H : forall rps acc,
               (forall rp, In rp rps -> In rp (route_points data)) ->
               improves s0 (fst (fst acc)) ->
               (snd acc = false ->
                e0 = false
                \/ (best_arrival_sum (best (fst (fst acc)))
                    < best_arrival_sum (best s0))%N) ->
               improves s0
                 (fst (fst (fold_left (scan_rp data (raptor_visitor data) gp
                                         route) rps acc)))
               /\ (snd (fold_left (scan_rp data (raptor_visitor data) gp
                                     route) rps acc) = false ->
                   e0 = false
                   \/ (best_arrival_sum
                         (best (fst (fst (fold_left
                                            (scan_rp data
                                               (raptor_visitor data) gp route)
                                            rps acc))))
                       < best_arrival_sum (best s0))%N)).
    { induction rps as [|rp rps IH]; intros acc Hsub Hi He; simpl; [auto|].
      rewrite Forall_forall in Hrange.
      destruct (scan_rp_forward gp route s0 e0 acc rp Hfit
                  (Hrange rp (Hsub rp (or_introl eq_refl))) Hi He)
        as [Hi' He'].
      apply IH; auto. intros rp' Hrp'. apply Hsub. now right. }
    specialize (H (v_route_points (raptor_visitor data) route
                     (Q_at s (r_idx route)))
                  (s, route_entry (raptor_visitor data) b, e)).
    destruct H as [Hi He]; try assumption.
    { intros rp Hrp. simpl in Hrp. unfold route_points_forward in Hrp.
      eapply vslice_incl; eassumption. }
    destruct (fold_left _ _ _) as [[s1 b1] e1]. simpl in *.
    split; [|exact He].
    eapply improves_trans; [exact Hi|]. apply improves_aux; reflexivity.
  - simpl. split; [|exact Hend].
    eapply improves_trans; [exact Himp|]. apply improves_aux; reflexivity.
Qed.

(** *** One round, forward *)

Lemma raptor_round_unfold v gp (s : RAPTOR) b :
  raptor_round data v gp s b
  = let '(s1, b1, e1) :=
      fold_left (scan_route data v gp) (routes data) (round_start v s, b, true)
    in (walking v (route_path_connections v s1), b1, e1).
Proof. reflexivity. Qed.

Lemma round_start_forward (s : RAPTOR) :
  well_sized data s ->
  well_sized data (round_start (raptor_visitor data) s)
  /\ best (round_start (raptor_visitor data) s) = best s
  /\ count (round_start (raptor_visitor data) s) = (count s + 1)%N.
Proof.
  intros (Hfit & Hrc & Hrange). unfold round_start. simpl.
  destruct (count s + 1 =? vsize (retour s))%N; simpl.
  - repeat split; try assumption.
    unfold rows_fit in *. simpl. apply Forall_app. split; [exact Hfit|].
    constructor; [exact Hrc|constructor].
  - repeat split; assumption.
Qed.

Lemma scan_routes_forward gp (s0 : RAPTOR) b :
  rows_fit s0 ->
  Forall (fun rp => (rp_idx rp < vsize (best s0))%N) (route_points data) ->
  improves s0
    (fst (fst (fold_left (scan_route data (raptor_visitor data) gp)
                         (routes data) (s0, b, true))))
  /\ (snd (fold_left (scan_route data (raptor_visitor data) gp)
                     (routes data) (s0, b, true)) = false ->
      (best_arrival_sum
         (best (fst (fst (fold_left (scan_route data (raptor_visitor data) gp)
                                    (routes data) (s0, b, true)))))
       < best_arrival_sum (best s0))%N).
Proof.
  intros Hfit Hrange.
  assert (H : forall l acc,
             improves s0 (fst (fst acc)) ->
             (snd acc = false ->
              true = false
              \/ (best_arrival_sum (best (fst (fst acc)))
                  < best_arrival_sum (best s0))%N) ->
             improves s0
               (fst (fst (fold_left (scan_route data (raptor_visitor data) gp)
                                    l acc)))
             /\ (snd (fold_left (scan_route data (raptor_visitor data) gp)
                                l acc) = false ->
                 true = false
                 \/ (best_arrival_sum
                       (best (fst (fst (fold_left
                                          (scan_route data
                                             (raptor_visitor data) gp)
                                          l acc))))
                     < best_arrival_sum (best s0))%N)).
  { induction l as [|route l IH]; intros acc Hi He; simpl; [auto|].
    destruct (scan_route_forward gp s0 true acc route Hfit Hrange Hi He)
      as [Hi' He'].
    now apply IH. }
  destruct (H (routes data) (s0, b, true)) as [Hi He].
  - apply improves_refl.
  - simpl. discriminate.
  - split; [exact Hi|]. intros Hf.
    destruct (He Hf) as [Habs|Hlt]; [discriminate|exact Hlt].
Qed.

(** A round keeps the sizes, never raises the sum of the best arrivals, and
    lowers it when [end] is false. *)
Lemma raptor_round_forward gp (s : RAPTOR) b :
  well_sized data s ->
  well_sized data (fst (fst (raptor_round data (raptor_visitor data) gp s b)))
  /\ improves (round_start (raptor_visitor data) s)
              (fst (fst (raptor_round data (raptor_visitor data) gp s b)))
  /\ (best_arrival_sum
        (best (fst (fst (raptor_round data (raptor_visitor data) gp s b))))
      <= best_arrival_sum (best s))%N
  /\ (snd (raptor_round data (raptor_visitor data) gp s b) = false ->
      (best_arrival_sum
         (best (fst (fst (raptor_round data (raptor_visitor data) gp s b))))
       < best_arrival_sum (best s))%N).
Proof.
  intros Hws.
  destruct (round_start_forward s Hws) as ((Hfit0 & Hrc0 & Hrange0) & Hb0 & _).
  rewrite raptor_round_unfold.
  set (s0 := round_start (raptor_visitor data) s) in *. clearbody s0.
  destruct (scan_routes_forward gp s0 b Hfit0 Hrange0) as [Hscan Hend].
  destruct (fold_left _ _ _) as [[s1 b1] e1]. simpl in Hscan, Hend.
  simpl walking. simpl route_path_connections. simpl fst. simpl snd.
  assert (H12 : improves s1 (marcheapied data
                               (route_path_connections_forward data s1))).
  { eapply improves_trans;
      [apply route_path_connections_forward_improves
      |apply marcheapied_improves]. }
  assert (Hfit1 : rows_fit s1) by (eapply improves_fit; eassumption).
  assert (Himp : improves s0 (marcheapied data
                                (route_path_connections_forward data s1)))
    by (eapply improves_trans; eassumption).
  pose proof (improves_sum _ _ H12 Hfit1) as Hle12.
  pose proof (improves_sum _ _ Hscan Hfit0) as Hle01.
  rewrite Hb0 in Hle01.
  split; [|split; [exact Himp|split; [lia|]]].
  - destruct (Himp Hfit0) as (Hf & _ & Hlen & _).
    split; [exact Hf|]. split.
    + rewrite Hlen. exact Hrc0.
    + unfold vsize in *. rewrite Hlen. exact Hrange0.
  - intros He. specialize (Hend He). rewrite Hb0 in Hend. lia.
Qed.


Lemma improves_well_sized (s s' : RAPTOR) :
  improves s s' -> well_sized data s -> well_sized data s'.
Proof.
  intros Himp (Hfit & Hrc & Hrange).
  destruct (Himp Hfit) as (Hf & _ & Hlen & _).
  split; [exact Hf|]. split.
  - rewrite Hlen. exact Hrc.
  - unfold vsize in *. rewrite Hlen. exact Hrange.
Qed.

End ForwardOrder.


(** ** Label monotonicity, forward mode *)

Lemma vget_app_last {A} (d : A) (l : list A) (x : A) (k : N) :
  vget d (l ++ [x]) k
  = if (k <? vsize l)%N then vget d l k
    else if (k =? vsize l)%N then x else d.
Proof.
  unfold vsize. revert k; induction l as [|y l IH]; intros k; simpl.
  - destruct (N.ltb_spec k 0); [lia|]. destruct (k =? 0)%N; reflexivity.
  - destruct (k =? 0)%N eqn:E0.
    + apply N.eqb_eq in E0. subst k. reflexivity.
    + apply N.eqb_neq in E0. rewrite IH.
      destruct (N.ltb_spec (N.pred k) (N.of_nat (List.length l)));
        destruct (N.ltb_spec k (N.pos (Pos.of_succ_nat (List.length l))));
        try lia; try reflexivity.
      destruct (N.eqb_spec (N.pred k) (N.of_nat (List.length l)));
        destruct (N.eqb_spec k (N.pos (Pos.of_succ_nat (List.length l))));
        try lia; reflexivity.
Qed.

Lemma vget_Forall {A} (P : A -> Prop) (d : A) (l : list A) (i : N) :
  Forall P l -> P d -> P (vget d l i).
Proof.
  intros Hl Hd. revert i; induction Hl as [|x l Hx Hl IH]; intros i; simpl.
  - exact Hd.
  - destruct (i =? 0)%N; auto.
Qed.

Section ForwardMonotone.
Context `{E : Externals}.
Variable data : Data.

Lemma improves_forward_invariant (s s' : RAPTOR) :
  improves s s' -> forward_invariant data s -> forward_invariant data s'.
Proof.
  intros Himp (Hws & Hdom & Hmono & Hfresh).
  pose proof Hws as (Hfit & _).
  destruct (Himp Hfit) as (_ & Hc & _ & _ & Hpt & Hlab).
  split; [eapply improves_well_sized; eassumption|].
  split; [|split].
  - intros k rp Hinit.
    destruct (Hlab k rp) as [Heq|(_ & Hlo & _)]; [|exact Hlo].
    rewrite Heq in *. specialize (Hdom k rp Hinit). specialize (Hpt rp). lia.
  - intros k rp Hk Hinit Hprev.
    destruct (Hlab k rp) as [Heq|(Hkc & _ & Hhi)].
    + destruct (Hlab (k - 1)%N rp) as [Heq'|(Hkc' & _)].
      * rewrite Heq, Heq' in *. now apply Hmono.
      * rewrite Heq in Hinit. exfalso. apply Hinit. apply Hfresh. lia.
    + destruct (Hlab (k - 1)%N rp) as [Heq'|(Hkc' & _)]; [|lia].
      rewrite Heq' in *. specialize (Hdom (k - 1)%N rp Hprev). lia.
  - intros k rp Hk. rewrite Hc in Hk.
    destruct (Hlab k rp) as [Heq|(Hkc & _)]; [|lia].
    rewrite Heq. now apply Hfresh.
Qed.

Lemma round_start_labels (s : RAPTOR) k rp :
  sentinel_uninitialized data ->
  label (round_start (raptor_visitor data) s) k rp = label s k rp
  \/ (type (label (round_start (raptor_visitor data) s) k rp) = uninitialized
      /\ type (label s k rp) = uninitialized).
Proof.
  intros Hsent. unfold round_start. simpl.
  destruct (count s + 1 =? vsize (retour s))%N; [|now left].
  unfold label. simpl. rewrite vget_app_last.
  destruct (N.ltb_spec k (vsize (retour s))); [now left|].
  right. rewrite (@vget_out_of_range _ [] (retour s) k) by assumption. split.
  - destruct (k =? vsize (retour s))%N; [|reflexivity].
    apply (vget_Forall (fun r => type r = uninitialized));
      [exact Hsent|reflexivity].
  - reflexivity.
Qed.

Lemma round_start_forward_invariant (s : RAPTOR) :
  sentinel_uninitialized data ->
  forward_invariant data s ->
  forward_invariant data (round_start (raptor_visitor data) s).
Proof.
  intros Hsent (Hws & Hdom & Hmono & Hfresh).
  destruct (round_start_forward data s Hws) as (Hws' & Hb & Hc).
  split; [exact Hws'|]. split; [|split].
  - intros k rp Hinit. unfold best_at. rewrite Hb.
    destruct (round_start_labels s k rp Hsent) as [Heq|[Hu _]];
      [|contradiction].
    rewrite Heq in *. now apply Hdom.
  - intros k rp Hk Hinit Hprev.
    destruct (round_start_labels s k rp Hsent) as [Heq|[Hu _]];
      [|contradiction].
    destruct (round_start_labels s (k - 1)%N rp Hsent) as [Heq'|[Hu _]];
      [|contradiction].
    rewrite Heq, Heq' in *. now apply Hmono.
  - intros k rp Hk. rewrite Hc in Hk.
    destruct (round_start_labels s k rp Hsent) as [Heq|[Hu _]];
      [|exact Hu].
    rewrite Heq. apply Hfresh. lia.
Qed.

Lemma raptor_round_forward_invariant gp (s : RAPTOR) b :
  sentinel_uninitialized data ->
  forward_invariant data s ->
  forward_invariant data
    (fst (fst (raptor_round data (raptor_visitor data) gp s b))).
Proof.
  intros Hsent Hinv.
  pose proof Hinv as (Hws & _).
  destruct (raptor_round_forward data gp s b Hws) as (_ & Himp & _).
  eapply improves_forward_invariant; [exact Himp|].
  now apply round_start_forward_invariant.
Qed.

Lemma raptor_rounds_forward_invariant gp fuel :
  forall (s : RAPTOR) b s',
    sentinel_uninitialized data ->
    forward_invariant data s ->
    raptor_rounds data fuel (raptor_visitor data) gp s b = Some s' ->
    forward_invariant data s'.
Proof.
  induction fuel as [|fuel IH]; intros s b s' Hsent Hinv; simpl;
    [discriminate|].
  pose proof (raptor_round_forward_invariant gp s b Hsent Hinv) as Hinv1.
  destruct (raptor_round data (raptor_visitor data) gp s b) as [[s1 b1] e1].
  simpl in Hinv1. destruct e1.
  - intros H; inversion H; subst. exact Hinv1.
  - now apply IH.
Qed.

End ForwardMonotone.

Section ForwardInit.
Context `{E : Externals}.
Variable data : Data.

Lemma init_depart_seed (s : RAPTOR) (item : Departure_Type) :
  retour s = [best s] ->
  retour (init_depart data true s item) = [best (init_depart data true s item)]
  /\ List.length (best (init_depart data true s item)) = List.length (best s)
  /\ (forall rp, rp <> rpidx item ->
                 best_at (init_depart data true s item) rp = best_at s rp).
Proof.
  intros Hret. unfold init_depart.
  set (r := retour_depart (d_arrival item) (d_arrival item)).
  set (s1 := set_best (set_label s 0 (rpidx item) r) (rpidx item) r).
  assert (H1 : retour s1 = [best s1]
               /\ List.length (best s1) = List.length (best s)
               /\ (forall rp, rp <> rpidx item -> best_at s1 rp = best_at s rp)).
  { unfold s1. simpl. rewrite Hret. simpl. split; [reflexivity|].
    split; [apply vset_length|].
    intros rp Hne. unfold best_at. simpl.
    apply vget_vset_other. congruence. }
  clearbody s1.
  repeat match goal with
         | |- context [if ?c then _ else _] => destruct c
         end; simpl; exact H1.
Qed.

Lemma init_destination_best (borne : DateTime) (item : idx_t * double)
  (s : RAPTOR) (rp : idx_t) :
  retour (init_destination data true borne item s rp) = retour s
  /\ List.length (best (init_destination data true borne item s rp))
     = List.length (best s)
  /\ (forall rp', rp' <> rp ->
                  best_at (init_destination data true borne item s rp) rp'
                  = best_at s rp')
  /\ (borne <> DT.inf ->
      (arrival (best_at (init_destination data true borne item s rp) rp)
       <= arrival (best_at s rp))%N).
Proof.
  unfold init_destination.
  destruct (vget false (routes_valides s) (route_idx (route_point data rp)));
    simpl; [|repeat split; auto; lia].
  destruct (N.eqb_spec borne DT.inf) as [Hb|Hb]; simpl.
  - split; [reflexivity|]. split; [apply vset_length|]. split.
    + intros rp' Hne. unfold best_at. simpl. apply vget_vset_other. congruence.
    + intros H. contradiction.
  - destruct (N.ltb_spec borne (arrival (best_at s rp))); simpl.
    + split; [reflexivity|]. split; [apply vset_length|]. split.
      * intros rp' Hne. unfold best_at. simpl. apply vget_vset_other.
        congruence.
      * intros _. unfold best_at at 1. simpl.
        destruct (N.lt_ge_cases rp (vsize (best s))) as [Hin|Hout].
        -- rewrite vget_vset_same by exact Hin. simpl. lia.
        -- rewrite vset_out_of_range by exact Hout. fold (best_at s rp). lia.
    + repeat split; auto; lia.
Qed.

Lemma label_single_round (s : RAPTOR) (row : list type_retour) k rp :
  retour s = [row] ->
  label s k rp = if (k =? 0)%N then vget retour_default row rp
                 else retour_default.
Proof.
  intros Hret. unfold label. rewrite Hret. simpl.
  destruct (k =? 0)%N; reflexivity.
Qed.

(** [clear_and_init] with cleared labels, forward: [best] dominates the
    seeds unless a seeded route point is registered as a destination while
    no bound is given. *)
Lemma clear_and_init_forward_invariant (s : RAPTOR)
  (departs : list Departure_Type) (destinations : list (idx_t * double))
  (borne : DateTime) :
  sentinel_uninitialized data ->
  Forall (fun rp => (rp_idx rp < vsize (retour_constant data))%N)
         (route_points data) ->
  (borne <> DT.inf
   \/ forall d item,
        In d departs -> In item destinations ->
        ~ In (rpidx d) (route_point_list (stop_point data (fst item)))) ->
  forward_invariant data
    (with_count
       (clear_and_init data s departs destinations borne true true) 0).
Proof.
  intros Hsent Hrange Hsep. unfold clear_and_init.
  set (s2 := with_b_dest _ _).
  assert (H2 : retour s2 = [best s2]
               /\ List.length (best s2) = List.length (retour_constant data)
               /\ (forall rp, type (best_at s2 rp) <> uninitialized ->
                              exists d, In d departs /\ rpidx d = rp)).
  { unfold s2. simpl. repeat split; try reflexivity.
    intros rp Hinit. exfalso. apply Hinit. unfold best_at. simpl.
    apply (vget_Forall (fun r => type r = uninitialized));
      [exact Hsent|reflexivity]. }
  clearbody s2.
  set (s3 := fold_left (init_depart data true) departs s2).
  assert (H3 : retour s3 = [best s3]
               /\ List.length (best s3) = List.length (retour_constant data)
               /\ (forall rp, type (best_at s3 rp) <> uninitialized ->
                              exists d, In d departs /\ rpidx d = rp)).
  { unfold s3.
    apply (fold_left_invariant
             (fun s3 : RAPTOR =>
                retour s3 = [best s3]
                /\ List.length (best s3) = List.length (retour_constant data)
                /\ (forall rp, type (best_at s3 rp) <> uninitialized ->
                               exists d, In d departs /\ rpidx d = rp)));
      [|exact H2].
    intros a item Hitem (Ha & Hb & Hc).
    destruct (init_depart_seed a item Ha) as (Ha' & Hb' & Hc').
    split; [exact Ha'|]. split; [congruence|].
    intros rp Hinit. destruct (N.eq_dec rp (rpidx item)) as [->|Hne].
    - exists item. auto.
    - rewrite Hc' in Hinit by exact Hne. now apply Hc. }
  clearbody s3. clear H2 s2.
  destruct H3 as (Hret3 & Hlen3 & Hseed3).
  set (s4 := fold_left _ destinations s3).
  assert (H4 : retour s4 = [best s3]
               /\ List.length (best s4) = List.length (best s3)
               /\ (forall rp, type (best_at s3 rp) <> uninitialized ->
                              (arrival (best_at s4 rp)
                               <= arrival (best_at s3 rp))%N)).
  { unfold s4.
    apply (fold_left_invariant
             (fun s4 : RAPTOR =>
                retour s4 = [best s3]
                /\ List.length (best s4) = List.length (best s3)
                /\ (forall rp, type (best_at s3 rp) <> uninitialized ->
                               (arrival (best_at s4 rp)
                                <= arrival (best_at s3 rp))%N)));
      [|repeat split; auto; intros; lia].
    intros a item Hitem Ha.
    apply (fold_left_invariant
             (fun s4 : RAPTOR =>
                retour s4 = [best s3]
                /\ List.length (best s4) = List.length (best s3)
                /\ (forall rp, type (best_at s3 rp) <> uninitialized ->
                               (arrival (best_at s4 rp)
                                <= arrival (best_at s3 rp))%N)));
      [|exact Ha].
    intros a' rp Hrp (Hr & Hl & Hd).
    destruct (init_destination_best borne item a' rp) as (Hr' & Hl' & Ho & Hb).
    split; [congruence|]. split; [congruence|].
    intros rp' Hinit. destruct (N.eq_dec rp' rp) as [->|Hne].
    - destruct Hsep as [Hborne|Hsep].
      + specialize (Hb Hborne). specialize (Hd rp Hinit). lia.
      + exfalso. destruct (Hseed3 rp Hinit) as (d & Hd1 & Hd2).
        apply (Hsep d item Hd1 Hitem). now rewrite Hd2.
    - rewrite Ho by exact Hne. now apply Hd. }
  clearbody s4. destruct H4 as (Hret4 & Hlen4 & Hdom4).
  assert (Hlab : forall k rp,
             label (with_count (with_count s4 1) 0) k rp
             = if (k =? 0)%N then best_at s3 rp else retour_default).
  { intros k rp. apply (label_single_round _ (best s3)). exact Hret4. }
  split; [|split; [|split]].
  - split; [|split].
    + unfold rows_fit. simpl. rewrite Hret4. constructor; [|constructor].
      congruence.
    + simpl. congruence.
    + simpl. unfold vsize in *. rewrite Hlen4, Hlen3. exact Hrange.
  - intros k rp. rewrite Hlab. destruct (k =? 0)%N.
    + intros Hinit. now apply Hdom4.
    + simpl. congruence.
  - intros k rp Hk. rewrite Hlab.
    destruct (N.eqb_spec k 0); [lia|]. simpl. congruence.
  - intros k rp Hk. rewrite Hlab. simpl in Hk.
    destruct (N.eqb_spec k 0); [lia|]. reflexivity.
Qed.

End ForwardInit.

(** C5, forward mode.  A forward pass started by [clear_and_init] with
    cleared labels, on a timetable whose sentinel round is uninitialized and
    holds every route point, leaves labels that are monotone across rounds
    and dominated by [best], provided a bound is given or no seeded route
    point belongs to a destination stop point: for every route point and
    every round [k >= 1] whose label and whose predecessor's are initialized,
    the round-[k] arrival is at most the round-[k-1] arrival. *)
Theorem forward_label_monotonicity `{E : Externals} (data : Data) (s : RAPTOR)
  (departs : list Departure_Type) (destinations : list (idx_t * double))
  (borne : DateTime) (fuel : nat) (global_pruning : bool) (s' : RAPTOR) :
  sentinel_uninitialized data ->
  Forall (fun rp => (rp_idx rp < vsize (retour_constant data))%N)
         (route_points data) ->
  (borne <> DT.inf
   \/ forall d item,
        In d departs -> In item destinations ->
        ~ In (rpidx d) (route_point_list (stop_point data (fst item)))) ->
  boucleRAPTOR data fuel global_pruning
    (clear_and_init data s departs destinations borne true true) = Some s' ->
  monotone_forward s' /\ best_dominates s'.
Proof.
  intros Hsent Hrange Hsep Hrun.
  pose proof (clear_and_init_forward_invariant data s departs destinations
                borne Hsent Hrange Hsep) as Hinv.
  unfold boucleRAPTOR, raptor_loop in Hrun.
  set (s0 := with_count (clear_and_init data s departs destinations borne
                            true true) 0) in *.
  clearbody s0.
  assert (Hinv1 : forward_invariant data (walking (raptor_visitor data) s0)).
  { eapply improves_forward_invariant; [|exact Hinv].
    apply marcheapied_improves. }
  pose proof (raptor_rounds_forward_invariant data global_pruning fuel _ _ _
                Hsent Hinv1 Hrun) as (_ & Hdom & Hmono & _).
  split; assumption.
Qed.

(** C5, as stated, fails in forward mode: in the query on [net1] from the
    stop points 0 and 1 to stop point 1, route point 1 is seeded at 27000 and,
    being a destination, has its best arrival reset to the (absent) bound; the
    first round then stores the arrival 29400 there. *)
Lemma forward_monotonicity_fails_at_a_seeded_destination :
  boucleRAPTOR net1 10%nat false net1_overlap_init = Some net1_overlap
  /\ type (label net1_overlap 1%N 1%N) = vj
  /\ type (label net1_overlap 0%N 1%N) = depart
  /\ arrival (label net1_overlap 1%N 1%N) = 29400%N
  /\ arrival (label net1_overlap 0%N 1%N) = 27000%N
  /\ ~ monotone_forward net1_overlap.
Proof.
  repeat match goal with |- _ /\ _ => split end;
    try (vm_compute; reflexivity).
  intros H. specialize (H 1%N 1%N).
  assert (Hk : (1 <= 1)%N) by lia.
  assert (H1 : type (label net1_overlap 1%N 1%N) <> uninitialized)
    by (vm_compute; discriminate).
  assert (H0 : type (label net1_overlap (1 - 1)%N 1%N) <> uninitialized)
    by (vm_compute; discriminate).
  specialize (H Hk H1 H0). vm_compute in H. apply H. reflexivity.
Qed.

(** In reverse mode the labels of the query on [net2] are not monotone
    either: round 1 stores the departure 1600 at route point 0 and round 2
    replaces it, through the guaranteed connection, by the departure 1150. *)
Lemma reverse_monotonicity_fails_on_net2 :
  boucleRAPTORreverse net2 10%nat true net2_init = Some net2_reverse
  /\ label net2_reverse 1%N 0%N
     = {| stop_time_idx := 0%N; arrival := 1000%N; departure := 1600%N;
          type := vj; rpid_embarquement := 1%N |}
  /\ label net2_reverse 2%N 0%N
     = retour_typed 1150%N 1150%N 2%N connection_guarantee
  /\ ~ monotone_reverse net2_reverse.
Proof.
  repeat match goal with |- _ /\ _ => split end;
    try (vm_compute; reflexivity).
  intros H. specialize (H 2%N 0%N).
  assert (Hk : (1 <= 2)%N) by lia.
  assert (H1 : type (label net2_reverse 2%N 0%N) <> uninitialized)
    by (vm_compute; discriminate).
  assert (H0 : type (label net2_reverse (2 - 1)%N 0%N) <> uninitialized)
    by (vm_compute; discriminate).
  specialize (H Hk H1 H0). vm_compute in H. apply H. reflexivity.
Qed.


(** C4 at its failing input.  In [makePathes] the test converts the egress
    distance with [/ 1.38] (690 m are 500 s: 29400 + 500 = 29900), but the
    bound kept for the next destinations adds the 690 m as seconds
    (29400 + 690 = 30090); route point 2, reached at 30000, then replaces
    route point 1, from which the destination is reached at 29900. *)
Lemma makePathes_keeps_meters_as_seconds :
  boucleRAPTOR net1 10%nat false net1_walk_init = Some net1_walk
  /\ DT.plus (arrival (label net1_walk 1%N 1%N))
       (double_seconds
          (QArith_base.Qdiv meters_690 (QArith_base.Qmake 138 100)))
     = 29900%N
  /\ makePathes_select net1 net1_walk 1%N [(1%N, meters_690)] DT.inf
     = (30090%N, 1%Z)
  /\ makePathes_select net1 net1_walk 1%N net1_walk_destinations DT.inf
     = (30000%N, 2%Z)
  /\ option_map (map (fun p => map PathItem.arrival (Path.items p)))
       (makePathes net1 10%nat net1_walk net1_walk_destinations DT.inf)
     = Some [[30000%N]].
Proof.
  repeat match goal with |- _ /\ _ => split end; vm_compute; reflexivity.
Qed.

(** What the selection keeps as bound, in general: the best arrival plus the
    unconverted distance. *)
Lemma makePathes_select_bound `{E : Externals} (data : Data) (s : RAPTOR)
  (i : N) (spid : idx_t) (dist : double) (dest : idx_t) (dt : DateTime) :
  route_point_list (stop_point data spid) = [dest] ->
  type (label s i dest) <> uninitialized ->
  (DT.plus (arrival (label s i dest))
     (double_seconds (QArith_base.Qdiv dist (QArith_base.Qmake 138 100)))
   <= dt)%N ->
  makePathes_select data s i [(spid, dist)] dt
  = (DT.plus (arrival (best_at s dest)) (double_seconds dist), Z.of_N dest).
Proof.
  intros Hrps Hinit Hle. unfold makePathes_select. simpl. rewrite Hrps. simpl.
  unfold is_uninitialized.
  destruct (boarding_type_eqb (type (label s i dest)) uninitialized) eqn:Hu.
  - apply boarding_type_eqb_eq in Hu. contradiction.
  - simpl. apply N.leb_le in Hle. rewrite Hle. reflexivity.
Qed.

(** ** Worked instances of the forward pass *)

Lemma net3_init_well_sized : well_sized net3 net3_init.
Proof.
  split; [|split].
  - unfold rows_fit. vm_compute. repeat constructor.
  - vm_compute. reflexivity.
  - vm_compute. repeat constructor.
Qed.


(** On [net3] route point 1 is labelled in round 1 (arrival 5000, by route 0)
    and again in round 2 (arrival 3120, after the transfer). *)
Lemma forward_label_monotonicity_on_net3 :
  (monotone_forward net3_forward /\ best_dominates net3_forward)
  /\ type (label net3_forward 1%N 1%N) = vj
  /\ arrival (label net3_forward 1%N 1%N) = 5000%N
  /\ type (label net3_forward 2%N 1%N) = connection
  /\ arrival (label net3_forward 2%N 1%N) = 3120%N.
Proof.
  split; [|repeat match goal with |- _ /\ _ => split end;
           vm_compute; reflexivity].
  apply (@forward_label_monotonicity sample_externals net3
           (set_routes_valides net3 engine3 0%N [])
           (getDepartures [(0%N, zero_meters)] 500%N true net3)
           [(3%N, zero_meters)] DT.inf 10%nat false net3_forward).
  - unfold sentinel_uninitialized. vm_compute. repeat constructor.
  - vm_compute. repeat constructor.
  - right. intros d item Hd Hitem Hin.
    vm_compute in Hitem. destruct Hitem as [<-|[]].
    vm_compute in Hin. exact Hin.
  - vm_compute. reflexivity.
Defined.

(** * Further properties of the code *)

(** ** What a round keeps *)

Lemma vget_vset_cases {A} (d : A) l i j x :
  vget d (vset l i x) j = vget d l j
  \/ (i = j /\ vget d (vset l i x) j = x).
Proof.
  destruct (N.eq_dec i j) as [->|Hne].
  - destruct (N.ltb_spec j (vsize l)).
    + right. split; [reflexivity|]. now apply vget_vset_same.
    + left. now rewrite vset_out_of_range.
  - left. now apply vget_vset_other.
Qed.

Lemma map_length_vset_row {A} (rows : list (list A)) k row :
  List.length row = List.length (vget [] rows k) ->
  map (@List.length A) (vset rows k row) = map (@List.length A) rows.
Proof.
  revert k; induction rows as [|r rows IH]; intros k Hlen; simpl in *;
    [reflexivity|].
  destruct (k =? 0)%N; simpl.
  - now rewrite Hlen.
  - now rewrite IH.
Qed.

Section RoundFrame.
Context `{E : Externals}.
Variable data : Data.

Lemma round_frame_refl (s : RAPTOR) : round_frame s s.
Proof. unfold round_frame. auto 10. Qed.

Lemma round_frame_trans (s1 s2 s3 : RAPTOR) :
  round_frame s1 s2 -> round_frame s2 s3 -> round_frame s1 s3.
Proof.
  unfold round_frame.
  intros (a1 & a2 & a3 & a4 & a5 & a6 & a7) (b1 & b2 & b3 & b4 & b5 & b6 & b7).
  repeat split; congruence.
Qed.

Lemma round_frame_set_label (s : RAPTOR) k rp r :
  round_frame s (set_label s k rp r).
Proof.
  unfold round_frame, set_label; simpl. repeat split.
  apply map_length_vset_row, vset_length.
Qed.

Lemma round_frame_set_best (s : RAPTOR) rp r : round_frame s (set_best s rp r).
Proof.
  unfold round_frame, set_best; simpl. repeat split. apply vset_length.
Qed.

Lemma round_frame_set_Q (s : RAPTOR) r o : round_frame s (set_Q s r o).
Proof.
  unfold round_frame, set_Q; simpl. repeat split. apply vset_length.
Qed.

Lemma round_frame_with_b_dest (s : RAPTOR) b : round_frame s (with_b_dest s b).
Proof. unfold round_frame; simpl. auto 10. Qed.

Lemma round_frame_mark_rp (s : RAPTOR) rp :
  round_frame s (with_marked_rp s (vset (marked_rp s) rp true)).
Proof. unfold round_frame; simpl. repeat split. apply vset_length. Qed.

Lemma round_frame_mark_sp (s : RAPTOR) sp :
  round_frame s (with_marked_sp s (vset (marked_sp s) sp true)).
Proof. unfold round_frame; simpl. repeat split. apply vset_length. Qed.

Lemma round_frame_fold {B} (f : RAPTOR -> B -> RAPTOR) (l : list B)
  (s : RAPTOR) :
  (forall s x, round_frame s (f s x)) -> round_frame s (fold_left f l s).
Proof.
  intros Hf. revert s; induction l as [|x l IH]; intros s; simpl.
  - apply round_frame_refl.
  - eapply round_frame_trans; [apply Hf|apply IH].
Qed.

End RoundFrame.

Lemma fold_left_preorder {A B} (R : A -> A -> Prop) (f : A -> B -> A)
  (l : list B) (a : A) :
  (forall a, R a a) ->
  (forall a b c, R a b -> R b c -> R a c) ->
  (forall a x, R a (f a x)) ->
  R a (fold_left f l a).
Proof.
  intros Hrefl Htrans Hf. revert a; induction l as [|x l IH]; intros a; simpl.
  - apply Hrefl.
  - eapply Htrans; [apply Hf|apply IH].
Qed.

(** ** The footpath relaxer *)

Section FootPathOrder.
Context `{E : Externals}.
Variable data : Data.
Variable v : WalkingVisitor.
Variable R : RAPTOR -> RAPTOR -> Prop.
Hypothesis R_refl : forall s, R s s.
Hypothesis R_trans : forall s1 s2 s3, R s1 s2 -> R s2 s3 -> R s1 s3.
Hypothesis R_set_label :
  forall s rp r, R s (set_label s (count s) rp r).
Hypothesis R_set_best : forall s rp r, R s (set_best s rp r).
Hypothesis R_with_b_dest : forall s b, R s (with_b_dest s b).
Hypothesis R_set_Q :
  forall s r o, comp_int v o (Q_at s r) = true -> R s (set_Q s r o).

Lemma offer_and_queue_preorder (s : RAPTOR) rp r :
  R s (offer_and_queue data v s rp r).
Proof.
  unfold offer_and_queue.
  destruct (ajouter_best (b_dest s) rp r (count s) (clockwise v))
    as [b absorbed].
  destruct (negb absorbed
            && comp_int v (order (route_point data rp))
                 (Q_at (with_b_dest s b) (route_idx (route_point data rp))))
    eqn:Hc.
  - apply andb_prop in Hc. destruct Hc as [_ Hc].
    eapply R_trans; [apply R_with_b_dest|]. now apply R_set_Q.
  - apply R_with_b_dest.
Qed.

Lemma relax_same_stop_preorder best_rp best_departure (s : RAPTOR) rp :
  R s (relax_same_stop data v best_rp best_departure s rp).
Proof.
  unfold relax_same_stop.
  destruct (negb (rp =? best_rp)%N
            && comp v best_departure (instant v (best_at s rp))).
  - eapply R_trans; [apply R_set_best|].
    eapply R_trans; [apply R_set_label|]. apply offer_and_queue_preorder.
  - apply R_refl.
Qed.

Lemma relax_footpath_rp_preorder best_rp previous dur
  (acc : RAPTOR * DateTime * Z) rp :
  R (fst (fst acc))
    (fst (fst (relax_footpath_rp data v best_rp previous dur acc rp))).
Proof.
  destruct acc as [[s next] prec]. unfold relax_footpath_rp.
  destruct (negb (best_rp =? rp)%N); [|apply R_refl].
  destruct (negb (dur =? prec)%Z);
    match goal with
    | |- context [if ?c then _ else _] => destruct c
    end; simpl; try apply R_refl;
    (eapply R_trans; [apply R_set_best|];
     eapply R_trans; [apply R_set_label|]; apply offer_and_queue_preorder).
Qed.

Lemma relax_footpaths_preorder best_rp previous it n (s : RAPTOR) :
  R s (fst (fst (relax_footpaths data v best_rp previous it n s))).
Proof.
  unfold relax_footpaths.
  apply (fold_left_preorder
           (fun a b : RAPTOR * DateTime * Z => R (fst (fst a)) (fst (fst b)))
           _ (seq 0 (Z.to_nat n)) (s, worst v, (-1)%Z)).
  - intros a. apply R_refl.
  - intros a b c. apply R_trans.
  - intros a k.
    apply (fold_left_preorder
             (fun a b : RAPTOR * DateTime * Z => R (fst (fst a)) (fst (fst b)))).
    + intros a0. apply R_refl.
    + intros a0 b0 c0. apply R_trans.
    + intros a0 x. apply relax_footpath_rp_preorder.
Qed.

Lemma foot_path_sp_preorder (acc : RAPTOR * Z * Z) sp :
  R (fst (fst acc)) (fst (fst (foot_path_sp data v acc sp))).
Proof.
  destruct acc as [[s it] last]. unfold foot_path_sp.
  destruct (select_pivot v s (route_point_list (stop_point data sp)))
    as [best_arrival best_rp].
  destruct (negb (best_rp =? invalid_idx)%N); [|apply R_refl].
  set (s1 := fold_left _ _ s).
  assert (H1 : R s s1).
  { unfold s1. apply fold_left_preorder; auto.
    intros a x. apply relax_same_stop_preorder. }
  match goal with
  | |- context [relax_footpaths data v ?b ?p ?i ?n s1] =>
      pose proof (relax_footpaths_preorder b p i n s1) as H2;
      destruct (relax_footpaths data v b p i n s1) as [[s2 nx] pd]
  end.
  simpl in *. eapply R_trans; eassumption.
Qed.

Lemma foot_path_run_preorder (s : RAPTOR) : R s (foot_path_run data v s).
Proof.
  unfold foot_path_run.
  apply (fold_left_preorder
           (fun a b : RAPTOR * Z * Z => R (fst (fst a)) (fst (fst b)))
           _ (set_bits (marked_sp s)) (s, 0%Z, 0%Z)).
  - intros a. apply R_refl.
  - intros a b c. apply R_trans.
  - intros a x. apply foot_path_sp_preorder.
Qed.

End FootPathOrder.

(** X1.  [foot_path] marks nothing: whatever the direction, it leaves the
    two marking bitsets, the validity bitset and the round counter as they
    are, and changes the size of no vector; it writes labels, [best], the
    tracker and the queue only. *)
Theorem foot_path_marks_nothing `{E : Externals} (data : Data)
  (v : WalkingVisitor) (s : RAPTOR) :
  let s' := foot_path_run data v s in
  marked_rp s' = marked_rp s
  /\ marked_sp s' = marked_sp s
  /\ routes_valides s' = routes_valides s
  /\ count s' = count s
  /\ map (@List.length type_retour) (retour s')
     = map (@List.length type_retour) (retour s)
  /\ List.length (best s') = List.length (best s)
  /\ List.length (Q s') = List.length (Q s).
Proof.
  set (R := fun a b : RAPTOR =>
              round_frame a b /\ marked_rp b = marked_rp a
              /\ marked_sp b = marked_sp a).
  assert (H : R s (foot_path_run data v s)).
  { apply foot_path_run_preorder; unfold R.
    - intros a. split; [apply round_frame_refl|auto].
    - intros a b c (H1 & H2 & H3) (H4 & H5 & H6).
      split; [eapply round_frame_trans; eassumption|split; congruence].
    - intros a rp r. split; [apply round_frame_set_label|auto].
    - intros a rp r. split; [apply round_frame_set_best|auto].
    - intros a b. split; [apply round_frame_with_b_dest|auto].
    - intros a r o _. split; [apply round_frame_set_Q|auto]. }
  destruct H as ((H1 & H2 & H3 & H4 & H5 & _ & _) & H6 & H7).
  simpl. auto 10.
Qed.

(** X3.  [foot_path] moves a queue entry in one direction only: forward, an
    entry of [Q] is never raised (a route is entered at the same stop or
    earlier); in reverse, never lowered. *)
Theorem foot_path_queue_one_way `{E : Externals} (data : Data) (s : RAPTOR)
  (r : idx_t) :
  (Q_at (marcheapied data s) r <= Q_at s r)%Z
  /\ (Q_at s r <= Q_at (marcheapiedreverse data s) r)%Z.
Proof.
  split.
  - revert r.
    apply (foot_path_run_preorder data walking_visitor
             (fun a b : RAPTOR => forall r, (Q_at b r <= Q_at a r)%Z)).
    + intros a r. lia.
    + intros a b c H1 H2 r. specialize (H1 r). specialize (H2 r). lia.
    + intros a rp x r. apply Z.le_refl.
    + intros a rp x r. apply Z.le_refl.
    + intros a b r. apply Z.le_refl.
    + intros a r0 o Hc r. simpl in Hc. apply Z.ltb_lt in Hc.
      unfold Q_at, set_Q in *; simpl.
      destruct (vget_vset_cases 0%Z (Q a) r0 r o) as [->|[<- ->]]; lia.
  - revert r.
    apply (foot_path_run_preorder data walking_backwards_visitor
             (fun a b : RAPTOR => forall r, (Q_at a r <= Q_at b r)%Z)).
    + intros a r. lia.
    + intros a b c H1 H2 r. specialize (H1 r). specialize (H2 r). lia.
    + intros a rp x r. apply Z.le_refl.
    + intros a rp x r. apply Z.le_refl.
    + intros a b r. apply Z.le_refl.
    + intros a r0 o Hc r. simpl in Hc. apply Z.ltb_lt in Hc.
      unfold Q_at, set_Q in *; simpl.
      destruct (vget_vset_cases 0%Z (Q a) r0 r o) as [->|[<- ->]]; lia.
Qed.

Lemma select_pivot_none `{E : Externals} (v : WalkingVisitor) (s : RAPTOR)
  (rps : list idx_t) :
  (forall rp, In rp rps ->
     type (label s (count s) rp) <> vj
     /\ type (label s (count s) rp) <> depart) ->
  select_pivot v s rps = (worst v, invalid_idx).
Proof.
  unfold select_pivot. intros H.
  apply fold_left_invariant; [|reflexivity].
  intros a rp Hin ->. destruct (H rp Hin) as [H1 H2].
  destruct (boarding_type_eqb (type (label s (count s) rp)) vj) eqn:Hv.
  { apply boarding_type_eqb_eq in Hv. contradiction. }
  destruct (boarding_type_eqb (type (label s (count s) rp)) depart) eqn:Hd.
  { apply boarding_type_eqb_eq in Hd. contradiction. }
  reflexivity.
Qed.

(** X2.  A marked stop point none of whose route points holds a
    vehicle-journey or departure label in the current round has no pivot:
    [foot_path] leaves the engine as it is when every marked stop point is
    so. *)
Theorem foot_path_without_pivot `{E : Externals} (data : Data)
  (v : WalkingVisitor) (s : RAPTOR) :
  (forall sp rp,
     In sp (set_bits (marked_sp s)) ->
     In rp (route_point_list (stop_point data sp)) ->
     type (label s (count s) rp) <> vj
     /\ type (label s (count s) rp) <> depart) ->
  foot_path_run data v s = s.
Proof.
  intros H. unfold foot_path_run.
  assert (Hf : fold_left (foot_path_sp data v) (set_bits (marked_sp s))
                 (s, 0%Z, 0%Z) = (s, 0%Z, 0%Z)).
  { apply (fold_left_invariant (fun a => a = (s, 0%Z, 0%Z)));
      [|reflexivity].
    intros a sp Hin ->. unfold foot_path_sp.
    rewrite select_pivot_none by (intros rp Hrp; now apply (H sp rp)).
    rewrite N.eqb_refl. reflexivity. }
  now rewrite Hf.
Qed.

Lemma foot_path_without_pivot_on_net3 :
  set_bits (marked_sp (with_marked_sp net3_forward [true; true; true; true]))
  = [0; 1; 2; 3]%N
  /\ foot_path_run net3 walking_visitor
       (with_marked_sp net3_forward [true; true; true; true])
     = with_marked_sp net3_forward [true; true; true; true].
Proof.
  split; [vm_compute; reflexivity|].
  apply (@foot_path_without_pivot sample_externals net3 walking_visitor
           (with_marked_sp net3_forward [true; true; true; true])).
  intros sp rp Hsp Hrp. vm_compute in Hsp.
  repeat (destruct Hsp as [<-|Hsp]; [vm_compute in Hrp;
    repeat (destruct Hrp as [<-|Hrp]; [vm_compute; split; discriminate|]);
    destruct Hrp|]).
  destruct Hsp.
Defined.

(** ** The route-point connection relaxers *)

Section ConnectionOrder.
Context `{E : Externals}.
Variable data : Data.
Variable R : RAPTOR -> RAPTOR -> Prop.
Hypothesis R_refl : forall s, R s s.
Hypothesis R_trans : forall s1 s2 s3, R s1 s2 -> R s2 s3 -> R s1 s3.
Hypothesis R_mark :
  forall s rp, R s (with_marked_rp s (vset (marked_rp s) rp true)).

Lemma route_path_connections_forward_preorder (s : RAPTOR) :
  (forall s rp dt src kind,
     (dt <? arrival (best_at s rp))%N = true ->
     let r := retour_typed dt dt src (connection_type kind) in
     R s (set_best (set_label s (count s) rp r) rp r)) ->
  (forall s r o, (o <? Q_at s r)%Z = true -> R s (set_Q s r o)) ->
  R s (route_path_connections_forward data s).
Proof.
  intros R_store R_set_Q. unfold route_path_connections_forward.
  match goal with
  | |- context [fold_left ?f (set_bits (marked_rp s)) (s, [])] =>
      assert (H1 : R s (fst (fold_left f (set_bits (marked_rp s)) (s, []))));
      [|destruct (fold_left f (set_bits (marked_rp s)) (s, []))
          as [s1 to_mark]]
  end.
  { apply (fold_left_preorder
             (fun a b : RAPTOR * list idx_t => R (fst a) (fst b))
             _ _ (s, [])).
    - intros a. apply R_refl.
    - intros a b c. apply R_trans.
    - intros a rp.
      apply (fold_left_preorder
               (fun a b : RAPTOR * list idx_t => R (fst a) (fst b))).
      + intros a0. apply R_refl.
      + intros a0 b0 c0. apply R_trans.
      + intros [s0 tm] rpc. simpl.
        match goal with
        | |- context [if ?c then _ else _] => destruct c eqn:Hc
        end; simpl; [|apply R_refl].
        apply andb_prop in Hc. destruct Hc as [_ Hc].
        apply R_store. exact Hc. }
  simpl in H1. eapply R_trans; [exact H1|].
  apply fold_left_preorder; auto.
  intros a rp.
  match goal with
  | |- context [if ?c then _ else _] => destruct c eqn:Hc
  end.
  - eapply R_trans; [apply R_mark|]. apply R_set_Q. exact Hc.
  - apply R_mark.
Qed.

Lemma route_path_connections_backward_preorder (s : RAPTOR) :
  (forall s rp dt src kind,
     (arrival (best_at s rp) <? dt)%N = true ->
     let r := retour_typed dt dt src (connection_type kind) in
     R s (set_best (set_label s (count s) rp r) rp r)) ->
  (forall s r o, (Q_at s r <? o)%Z = true -> R s (set_Q s r o)) ->
  R s (route_path_connections_backward data s).
Proof.
  intros R_store R_set_Q. unfold route_path_connections_backward.
  match goal with
  | |- context [fold_left ?f (set_bits (marked_rp s)) (s, [])] =>
      assert (H1 : R s (fst (fold_left f (set_bits (marked_rp s)) (s, []))));
      [|destruct (fold_left f (set_bits (marked_rp s)) (s, []))
          as [s1 to_mark]]
  end.
  { apply (fold_left_preorder
             (fun a b : RAPTOR * list idx_t => R (fst a) (fst b))
             _ _ (s, [])).
    - intros a. apply R_refl.
    - intros a b c. apply R_trans.
    - intros a rp.
      apply (fold_left_preorder
               (fun a b : RAPTOR * list idx_t => R (fst a) (fst b))).
      + intros a0. apply R_refl.
      + intros a0 b0 c0. apply R_trans.
      + intros [s0 tm] rpc. simpl.
        match goal with
        | |- context [if ?c then _ else _] => destruct c eqn:Hc
        end; simpl; [|apply R_refl].
        apply andb_prop in Hc. destruct Hc as [_ Hc].
        apply R_store. exact Hc. }
  simpl in H1. eapply R_trans; [exact H1|].
  apply fold_left_preorder; auto.
  intros a rp.
  match goal with
  | |- context [if ?c then _ else _] => destruct c eqn:Hc
  end.
  - eapply R_trans; [apply R_mark|]. apply R_set_Q. exact Hc.
  - apply R_mark.
Qed.

End ConnectionOrder.

Lemma round_frame_connection_store `{E : Externals} (s : RAPTOR) k rp r :
  round_frame s (set_best (set_label s k rp r) rp r).
Proof.
  eapply round_frame_trans;
    [apply round_frame_set_label|apply round_frame_set_best].
Qed.

Lemma vget_vset_true (l : list bool) i j :
  vget false l j = true -> vget false (vset l i true) j = true.
Proof.
  intros H. destruct (vget_vset_cases false l i j true) as [->|[_ ->]]; auto.
Qed.

(** X4.  The route-point connection relaxers unmark nothing and leave the
    stop-point marks, the validity bitset and the round counter as they are;
    every route point marked before is marked after, and a queue entry moves
    one way only: never raised forward, never lowered in reverse. *)
Theorem route_path_connections_keep_marks `{E : Externals} (data : Data)
  (s : RAPTOR) :
  (let s' := route_path_connections_forward data s in
   marked_sp s' = marked_sp s
   /\ routes_valides s' = routes_valides s
   /\ count s' = count s
   /\ (forall rp, vget false (marked_rp s) rp = true ->
                  vget false (marked_rp s') rp = true)
   /\ (forall r, (Q_at s' r <= Q_at s r)%Z))
  /\
  (let s' := route_path_connections_backward data s in
   marked_sp s' = marked_sp s
   /\ routes_valides s' = routes_valides s
   /\ count s' = count s
   /\ (forall rp, vget false (marked_rp s) rp = true ->
                  vget false (marked_rp s') rp = true)
   /\ (forall r, (Q_at s r <= Q_at s' r)%Z)).
Proof.
  split.
  - set (R := fun a b : RAPTOR =>
                marked_sp b = marked_sp a
                /\ routes_valides b = routes_valides a
                /\ count b = count a
                /\ (forall rp, vget false (marked_rp a) rp = true ->
                               vget false (marked_rp b) rp = true)
                /\ (forall r, (Q_at b r <= Q_at a r)%Z)).
    apply (route_path_connections_forward_preorder data R); unfold R.
    + intros a. splits; auto. intros r; lia.
    + intros a b c (H1 & H2 & H3 & H4 & H5) (K1 & K2 & K3 & K4 & K5).
      splits; try congruence; auto.
      intros r. specialize (H5 r). specialize (K5 r). lia.
    + intros a rp. simpl. splits; auto.
      * intros rp'. apply vget_vset_true.
      * intros r; apply Z.le_refl.
    + intros a rp dt src kind _. simpl. splits; auto.
      intros r; apply Z.le_refl.
    + intros a r o Hc. apply Z.ltb_lt in Hc. simpl. splits; auto.
      intros r'. unfold Q_at, set_Q in *; simpl.
      destruct (vget_vset_cases 0%Z (Q a) r r' o) as [->|[<- ->]]; lia.
  - set (R := fun a b : RAPTOR =>
                marked_sp b = marked_sp a
                /\ routes_valides b = routes_valides a
                /\ count b = count a
                /\ (forall rp, vget false (marked_rp a) rp = true ->
                               vget false (marked_rp b) rp = true)
                /\ (forall r, (Q_at a r <= Q_at b r)%Z)).
    apply (route_path_connections_backward_preorder data R); unfold R.
    + intros a. splits; auto. intros r; lia.
    + intros a b c (H1 & H2 & H3 & H4 & H5) (K1 & K2 & K3 & K4 & K5).
      splits; try congruence; auto.
      intros r. specialize (H5 r). specialize (K5 r). lia.
    + intros a rp. simpl. splits; auto.
      * intros rp'. apply vget_vset_true.
      * intros r; apply Z.le_refl.
    + intros a rp dt src kind _. simpl. splits; auto.
      intros r; apply Z.le_refl.
    + intros a r o Hc. apply Z.ltb_lt in Hc. simpl. splits; auto.
      intros r'. unfold Q_at, set_Q in *; simpl.
      destruct (vget_vset_cases 0%Z (Q a) r r' o) as [->|[<- ->]]; lia.
Qed.

Lemma best_at_connection_store `{E : Externals} (s : RAPTOR) k rp r rp' :
  best_at (set_best (set_label s k rp r) rp r) rp' = best_at s rp'
  \/ (rp = rp' /\ best_at (set_best (set_label s k rp r) rp r) rp' = r).
Proof.
  unfold best_at, set_best, set_label; simpl. apply vget_vset_cases.
Qed.

Lemma label_connection_store `{E : Externals} (s : RAPTOR) k rp r k' rp' :
  label (set_best (set_label s k rp r) rp r) k' rp' = label s k' rp'
  \/ (k = k' /\ rp = rp'
      /\ label (set_best (set_label s k rp r) rp r) k' rp' = r).
Proof. apply (label_set_label_cases s k k' rp rp' r). Qed.

(** X5.  A label the route-point connection relaxers write lies in the
    current round, is of type [connection_extension] or
    [connection_guarantee] and has its arrival equal to its departure; the
    same holds of the entries of [best] they write.  Forward they never
    raise a best arrival; in reverse they never lower one (it is the arrival
    field that the reverse relaxer compares and writes). *)
Theorem route_path_connections_labels `{E : Externals} (data : Data)
  (s : RAPTOR) :
  (let s' := route_path_connections_forward data s in
   forall k rp,
     (label s' k rp = label s k rp
      \/ (k = count s
          /\ (type (label s' k rp) = connection_extension
              \/ type (label s' k rp) = connection_guarantee)
          /\ arrival (label s' k rp) = departure (label s' k rp)))
     /\ (best_at s' rp = best_at s rp
         \/ ((type (best_at s' rp) = connection_extension
              \/ type (best_at s' rp) = connection_guarantee)
             /\ arrival (best_at s' rp) = departure (best_at s' rp)))
     /\ (arrival (best_at s' rp) <= arrival (best_at s rp))%N)
  /\
  (let s' := route_path_connections_backward data s in
   forall k rp,
     (label s' k rp = label s k rp
      \/ (k = count s
          /\ (type (label s' k rp) = connection_extension
              \/ type (label s' k rp) = connection_guarantee)
          /\ arrival (label s' k rp) = departure (label s' k rp)))
     /\ (best_at s' rp = best_at s rp
         \/ ((type (best_at s' rp) = connection_extension
              \/ type (best_at s' rp) = connection_guarantee)
             /\ arrival (best_at s' rp) = departure (best_at s' rp)))
     /\ (arrival (best_at s rp) <= arrival (best_at s' rp))%N).
Proof.
  set (P := fun r : type_retour =>
              (type r = connection_extension \/ type r = connection_guarantee)
              /\ arrival r = departure r).
  assert (HP : forall dt src kind,
             P (retour_typed dt dt src (connection_type kind))).
  { intros dt src kind. split; [|reflexivity].
    destruct kind; simpl; auto. }
  split.
  - set (R := fun a b : RAPTOR =>
                count b = count a
                /\ forall k rp,
                     (label b k rp = label a k rp
                      \/ (k = count a /\ P (label b k rp)))
                     /\ (best_at b rp = best_at a rp \/ P (best_at b rp))
                     /\ (arrival (best_at b rp) <= arrival (best_at a rp))%N).
    assert (H : R s (route_path_connections_forward data s)).
    { apply (route_path_connections_forward_preorder data R); unfold R.
      - intros a. split; [reflexivity|]. intros k rp. splits; auto. lia.
      - intros a b c [H1 H2] [K1 K2]. split; [congruence|]. intros k rp.
        destruct (H2 k rp) as (L1 & L2 & L3).
        destruct (K2 k rp) as (M1 & M2 & M3). splits.
        + destruct M1 as [->|[-> M1]]; [exact L1|].
          right. split; [exact H1|exact M1].
        + destruct M2 as [->|M2]; [exact L2|now right].
        + lia.
      - intros a rp. split; [reflexivity|]. intros k rp'. splits; auto.
        apply N.le_refl.
      - intros a rp dt src kind Hc. apply N.ltb_lt in Hc.
        split; [reflexivity|]. intros k rp'. splits.
        + destruct (label_connection_store a (count a) rp
                      (retour_typed dt dt src (connection_type kind)) k rp')
            as [->|(<- & _ & ->)]; [now left|right].
          split; [reflexivity|apply HP].
        + destruct (best_at_connection_store a (count a) rp
                      (retour_typed dt dt src (connection_type kind)) rp')
            as [->|(_ & ->)]; [now left|right; apply HP].
        + destruct (best_at_connection_store a (count a) rp
                      (retour_typed dt dt src (connection_type kind)) rp')
            as [->|(<- & ->)]; [apply N.le_refl|simpl; lia].
      - intros a r o _. split; [reflexivity|]. intros k rp'. splits; auto.
        apply N.le_refl. }
    destruct H as [_ H]. exact H.
  - set (R := fun a b : RAPTOR =>
                count b = count a
                /\ forall k rp,
                     (label b k rp = label a k rp
                      \/ (k = count a /\ P (label b k rp)))
                     /\ (best_at b rp = best_at a rp \/ P (best_at b rp))
                     /\ (arrival (best_at a rp) <= arrival (best_at b rp))%N).
    assert (H : R s (route_path_connections_backward data s)).
    { apply (route_path_connections_backward_preorder data R); unfold R.
      - intros a. split; [reflexivity|]. intros k rp. splits; auto. lia.
      - intros a b c [H1 H2] [K1 K2]. split; [congruence|]. intros k rp.
        destruct (H2 k rp) as (L1 & L2 & L3).
        destruct (K2 k rp) as (M1 & M2 & M3). splits.
        + destruct M1 as [->|[-> M1]]; [exact L1|].
          right. split; [exact H1|exact M1].
        + destruct M2 as [->|M2]; [exact L2|now right].
        + lia.
      - intros a rp. split; [reflexivity|]. intros k rp'. splits; auto.
        apply N.le_refl.
      - intros a rp dt src kind Hc. apply N.ltb_lt in Hc.
        split; [reflexivity|]. intros k rp'. splits.
        + destruct (label_connection_store a (count a) rp
                      (retour_typed dt dt src (connection_type kind)) k rp')
            as [->|(<- & _ & ->)]; [now left|right].
          split; [reflexivity|apply HP].
        + destruct (best_at_connection_store a (count a) rp
                      (retour_typed dt dt src (connection_type kind)) rp')
            as [->|(_ & ->)]; [now left|right; apply HP].
        + destruct (best_at_connection_store a (count a) rp
                      (retour_typed dt dt src (connection_type kind)) rp')
            as [->|(<- & ->)]; [apply N.le_refl|simpl; lia].
      - intros a r o _. split; [reflexivity|]. intros k rp'. splits; auto.
        apply N.le_refl. }
    destruct H as [_ H]. exact H.
Qed.

(** X6.  Without work the connection relaxers change nothing: when no
    marked route point both holds a vehicle-journey label in the current
    round and has a route-point connection, the engine is left as it is (in
    particular on a timetable without route-point connections). *)
Theorem route_path_connections_idle `{E : Externals} (data : Data)
  (s : RAPTOR) :
  ((forall rp, In rp (set_bits (marked_rp s)) ->
      type (label s (count s) rp) <> vj
      \/ equal_range (footpath_rp_forward data) rp = []) ->
   route_path_connections_forward data s = s)
  /\
  ((forall rp, In rp (set_bits (marked_rp s)) ->
      type (label s (count s) rp) <> vj
      \/ equal_range (footpath_rp_backward data) rp = []) ->
   route_path_connections_backward data s = s).
Proof.
  split; intros H.
  - unfold route_path_connections_forward.
    match goal with
    | |- context [fold_left ?f (set_bits (marked_rp s)) (s, [])] =>
        assert (H1 : fold_left f (set_bits (marked_rp s)) (s, []) = (s, []))
    end.
    { apply (fold_left_invariant (fun a => a = (s, @nil idx_t)));
        [|reflexivity].
      intros a rp Hin ->. destruct (H rp Hin) as [Hty| ->]; [|reflexivity].
      apply (fold_left_invariant (fun a => a = (s, @nil idx_t)));
        [|reflexivity].
      intros a rpc _ ->.
      destruct (boarding_type_eqb (type (label s (count s) rp)) vj) eqn:Hv;
        [|reflexivity].
      apply boarding_type_eqb_eq in Hv. contradiction. }
    rewrite H1. reflexivity.
  - unfold route_path_connections_backward.
    match goal with
    | |- context [fold_left ?f (set_bits (marked_rp s)) (s, [])] =>
        assert (H1 : fold_left f (set_bits (marked_rp s)) (s, []) = (s, []))
    end.
    { apply (fold_left_invariant (fun a => a = (s, @nil idx_t)));
        [|reflexivity].
      intros a rp Hin ->. destruct (H rp Hin) as [Hty| ->]; [|reflexivity].
      apply (fold_left_invariant (fun a => a = (s, @nil idx_t)));
        [|reflexivity].
      intros a rpc _ ->.
      destruct (boarding_type_eqb (type (label s (count s) rp)) vj) eqn:Hv;
        [|reflexivity].
      apply boarding_type_eqb_eq in Hv. contradiction. }
    rewrite H1. reflexivity.
Qed.

(** ** The round loop *)

Lemma reset_bits_length (bs : list bool) :
  List.length (reset_bits bs) = List.length bs.
Proof. unfold reset_bits. apply length_map. Qed.

Section ScanOrder.
Context `{E : Externals}.
Variable data : Data.
Variable v : Visitor.
Variable R : RAPTOR -> RAPTOR -> Prop.
Hypothesis R_refl : forall s, R s s.
Hypothesis R_trans : forall s1 s2 s3, R s1 s2 -> R s2 s3 -> R s1 s3.
Hypothesis R_set_Q : forall s r o, R s (set_Q s r o).
Hypothesis R_store :
  forall s rp w bd st e, R s (fst (fst (v_store_better v s rp w bd st e))).

Lemma scan_store_preorder gp (acc : RAPTOR * Boarding * bool) rp :
  R (fst (fst acc)) (fst (fst (scan_store data v gp acc rp))).
Proof.
  destruct acc as [[s b] e]. unfold scan_store.
  destruct (0 <=? t b)%Z; [|apply R_refl].
  match goal with
  | |- context [if ?c then _ else _] => destruct c
  end; [|apply R_refl].
  match goal with
  | |- context [v_store_better v s ?r ?w ?bd ?st0 ?em] =>
      pose proof (R_store s r w bd st0 em) as H;
      destruct (v_store_better v s r w bd st0 em) as [[s1 w1] r1]
  end.
  exact H.
Qed.

Lemma scan_rp_preorder gp route (acc : RAPTOR * Boarding * bool) rp :
  R (fst (fst acc)) (fst (fst (scan_rp data v gp route acc rp))).
Proof.
  unfold scan_rp.
  destruct (scan_board_state data v route (scan_store data v gp acc rp) rp)
    as [-> _].
  apply scan_store_preorder.
Qed.

Lemma scan_route_preorder gp (acc : RAPTOR * Boarding * bool) route :
  R (fst (fst acc)) (fst (fst (scan_route data v gp acc route))).
Proof.
  destruct acc as [[s b] e]. unfold scan_route.
  destruct (route_is_scanned s route).
  - match goal with
    | |- context [fold_left ?f ?l ?a] =>
        pose proof (fold_left_preorder
                      (fun x y : RAPTOR * Boarding * bool =>
                         R (fst (fst x)) (fst (fst y)))
                      f l a) as H;
        destruct (fold_left f l a) as [[s1 b1] e1]
    end.
    simpl in *. eapply R_trans; [|apply R_set_Q].
    apply H.
    + intros x. apply R_refl.
    + intros x y z. apply R_trans.
    + intros x rp. apply scan_rp_preorder.
  - simpl. apply R_set_Q.
Qed.

Lemma scan_routes_preorder gp (l : list Route)
  (acc : RAPTOR * Boarding * bool) :
  R (fst (fst acc)) (fst (fst (fold_left (scan_route data v gp) l acc))).
Proof.
  apply (fold_left_preorder
           (fun x y : RAPTOR * Boarding * bool =>
              R (fst (fst x)) (fst (fst y)))).
  - intros x. apply R_refl.
  - intros x y z. apply R_trans.
  - intros x route. apply scan_route_preorder.
Qed.

End ScanOrder.

Section LoopFrame.
Context `{E : Externals}.
Variable data : Data.

Lemma make_queue_frame (s : RAPTOR) :
  round_frame s (make_queue s) /\ round_frame s (make_queuereverse s).
Proof.
  split;
    unfold round_frame, set_best, set_label, set_Q; simpl; splits;
    try reflexivity; try apply vset_length; try apply reset_bits_length;
    try (apply map_length_vset_row, vset_length).
Qed.

Lemma store_better_frame (s : RAPTOR) rpid wdt bound st emb :
  round_frame s (fst (fst (store_better data s rpid wdt bound st emb))).
Proof.
  unfold store_better.
  repeat match goal with
         | |- context [if ?c then _ else _] => destruct c
         | |- context [let '(_, _) := ?p in _] => destruct p
         end; simpl;
    unfold round_frame, set_best, set_label, set_Q; simpl; splits;
    try reflexivity; try apply vset_length; try apply reset_bits_length;
    try (apply map_length_vset_row, vset_length).
Qed.

Lemma store_better_reverse_frame (s : RAPTOR) rpid wdt bound st emb :
  round_frame s (fst (fst (store_better_reverse data s rpid wdt bound st emb))).
Proof.
  unfold store_better_reverse.
  repeat match goal with
         | |- context [if ?c then _ else _] => destruct c
         | |- context [let '(_, _) := ?p in _] => destruct p
         end; simpl;
    unfold round_frame, set_best, set_label, set_Q; simpl; splits;
    try reflexivity; try apply vset_length; try apply reset_bits_length;
    try (apply map_length_vset_row, vset_length).
Qed.

Lemma foot_path_run_frame v (s : RAPTOR) :
  round_frame s (foot_path_run data v s).
Proof.
  apply foot_path_run_preorder.
  - apply round_frame_refl.
  - apply round_frame_trans.
  - intros a rp r. apply round_frame_set_label.
  - apply round_frame_set_best.
  - apply round_frame_with_b_dest.
  - intros a r o _. apply round_frame_set_Q.
Qed.

Lemma route_path_connections_frame (s : RAPTOR) :
  round_frame s (route_path_connections_forward data s)
  /\ round_frame s (route_path_connections_backward data s).
Proof.
  split.
  - apply route_path_connections_forward_preorder.
    + apply round_frame_refl.
    + apply round_frame_trans.
    + apply round_frame_mark_rp.
    + intros a rp dt src kind _. apply round_frame_connection_store.
    + intros a r o _. apply round_frame_set_Q.
  - apply route_path_connections_backward_preorder.
    + apply round_frame_refl.
    + apply round_frame_trans.
    + apply round_frame_mark_rp.
    + intros a rp dt src kind _. apply round_frame_connection_store.
    + intros a r o _. apply round_frame_set_Q.
Qed.

Variable v : Visitor.
Variable row : list type_retour.
Hypothesis v_walking : forall s, round_frame s (walking v s).
Hypothesis v_connections : forall s, round_frame s (route_path_connections v s).
Hypothesis v_queue : forall s, round_frame s (v_make_queue v s).
Hypothesis v_store :
  forall s rp w bd st e,
    round_frame s (fst (fst (v_store_better v s rp w bd st e))).
Hypothesis v_step :
  forall s, one_more_step v s = with_retour s (retour s ++ [row]).

Lemma raptor_round_frame gp (s : RAPTOR) b :
  let s' := fst (fst (raptor_round data v gp s b)) in
  count s' = (count s + 1)%N
  /\ routes_valides s' = routes_valides s
  /\ map (@List.length type_retour) (retour s')
     = map (@List.length type_retour) (retour s)
       ++ (if (count s + 1 =? vsize (retour s))%N
           then [List.length row] else [])
  /\ List.length (best s') = List.length (best s)
  /\ List.length (Q s') = List.length (Q s)
  /\ List.length (marked_rp s') = List.length (marked_rp s)
  /\ List.length (marked_sp s') = List.length (marked_sp s).
Proof.
  rewrite raptor_round_unfold.
  pose proof (scan_routes_preorder data v round_frame round_frame_refl
                round_frame_trans round_frame_set_Q v_store gp (routes data)
                (round_start v s, b, true)) as H1.
  destruct (fold_left (scan_route data v gp) (routes data)
              (round_start v s, b, true)) as [[s1 b1] e1].
  simpl in H1.
  assert (H2 : round_frame (round_start v s)
                 (walking v (route_path_connections v s1))).
  { eapply round_frame_trans; [exact H1|].
    eapply round_frame_trans; [apply v_connections|apply v_walking]. }
  clear H1. simpl.
  destruct H2 as (F1 & F2 & F3 & F4 & F5 & F6 & F7).
  set (s0 := with_count s (count s + 1)) in *.
  set (s2 := if (count s0 =? vsize (retour s0))%N
             then one_more_step v s0 else s0) in *.
  assert (Hq : round_frame s2 (round_start v s)) by apply v_queue.
  destruct Hq as (G1 & G2 & G3 & G4 & G5 & G6 & G7).
  assert (K : count s2 = (count s + 1)%N
              /\ routes_valides s2 = routes_valides s
              /\ retour s2 = retour s
                             ++ (if (count s + 1 =? vsize (retour s))%N
                                 then [row] else [])
              /\ best s2 = best s /\ Q s2 = Q s
              /\ marked_rp s2 = marked_rp s /\ marked_sp s2 = marked_sp s).
  { unfold s2, s0; simpl.
    destruct (count s + 1 =? vsize (retour s))%N.
    - rewrite v_step. simpl. auto 10.
    - rewrite app_nil_r. auto 10. }
  destruct K as (K1 & K2 & K3 & K4 & K5 & K6 & K7).
  splits; try congruence.
  rewrite F3, G3, K3, map_app.
  destruct (count s + 1 =? vsize (retour s))%N; reflexivity.
Qed.

Lemma raptor_rounds_frame gp (fuel : nat) :
  forall (s : RAPTOR) b s',
    (count s < vsize (retour s))%N ->
    raptor_rounds data fuel v gp s b = Some s' ->
    (count s < count s')%N
    /\ (count s' < vsize (retour s'))%N
    /\ routes_valides s' = routes_valides s
    /\ (exists n,
          map (@List.length type_retour) (retour s')
          = map (@List.length type_retour) (retour s)
            ++ repeat (List.length row) n)
    /\ List.length (best s') = List.length (best s)
    /\ List.length (Q s') = List.length (Q s)
    /\ List.length (marked_rp s') = List.length (marked_rp s)
    /\ List.length (marked_sp s') = List.length (marked_sp s).
Proof.
  induction fuel as [|fuel IH]; intros s b s' Hlt Hrun; [discriminate|].
  simpl in Hrun.
  pose proof (raptor_round_frame gp s b) as Hf.
  destruct (raptor_round data v gp s b) as [[s1 b1] e1]. simpl in Hf.
  destruct Hf as (F1 & F2 & F3 & F4 & F5 & F6 & F7).
  assert (Hsize : (count s1 < vsize (retour s1))%N).
  { unfold vsize in *.
    rewrite <- (length_map (@List.length type_retour) (retour s1)), F3.
    rewrite length_app, length_map, F1.
    destruct (N.eqb_spec (count s + 1) (N.of_nat (List.length (retour s))));
      simpl; lia. }
  destruct e1.
  - injection Hrun as <-. splits; try congruence; try lia.
    exists (if (count s + 1 =? vsize (retour s))%N then 1%nat else 0%nat).
    rewrite F3. destruct (count s + 1 =? vsize (retour s))%N; reflexivity.
  - destruct (IH s1 b1 s' Hsize Hrun)
      as (I1 & I2 & I3 & (n & I4) & I5 & I6 & I7 & I8).
    splits; try congruence; try lia.
    exists ((if (count s + 1 =? vsize (retour s))%N then 1%nat else 0%nat)
            + n)%nat.
    rewrite I4, F3, <- app_assoc, repeat_app.
    destruct (count s + 1 =? vsize (retour s))%N; reflexivity.
Qed.

End LoopFrame.

(** X7.  What the round loop returns, in either direction, when started
    with at least the sentinel row of labels: at least one round was run,
    [retour] holds a row for every round up to [count], the rows added have
    the size of the direction's sentinel row, and neither the validity
    bitset nor the size of any other vector has changed. *)
Theorem raptor_loop_rows `{E : Externals} (data : Data) (clockwise : bool)
  (fuel : nat) (global_pruning : bool) (s s' : RAPTOR) :
  retour s <> [] ->
  (if clockwise then boucleRAPTOR data fuel global_pruning s
   else boucleRAPTORreverse data fuel global_pruning s) = Some s' ->
  (1 <= count s')%N
  /\ (count s' < vsize (retour s'))%N
  /\ routes_valides s' = routes_valides s
  /\ (exists n,
        map (@List.length type_retour) (retour s')
        = map (@List.length type_retour) (retour s)
          ++ repeat (List.length (if clockwise then retour_constant data
                                  else retour_constant_reverse data)) n)
  /\ List.length (best s') = List.length (best s)
  /\ List.length (Q s') = List.length (Q s)
  /\ List.length (marked_rp s') = List.length (marked_rp s)
  /\ List.length (marked_sp s') = List.length (marked_sp s).
Proof.
  intros Hne Hrun.
  assert (Hgen :
    forall (v : Visitor) (row : list type_retour),
      (forall s, round_frame s (walking v s)) ->
      (forall s, round_frame s (route_path_connections v s)) ->
      (forall s, round_frame s (v_make_queue v s)) ->
      (forall s rp w bd st e,
         round_frame s (fst (fst (v_store_better v s rp w bd st e)))) ->
      (forall s, one_more_step v s = with_retour s (retour s ++ [row])) ->
      raptor_loop data fuel v global_pruning s = Some s' ->
      (1 <= count s')%N
      /\ (count s' < vsize (retour s'))%N
      /\ routes_valides s' = routes_valides s
      /\ (exists n,
            map (@List.length type_retour) (retour s')
            = map (@List.length type_retour) (retour s)
              ++ repeat (List.length row) n)
      /\ List.length (best s') = List.length (best s)
      /\ List.length (Q s') = List.length (Q s)
      /\ List.length (marked_rp s') = List.length (marked_rp s)
      /\ List.length (marked_sp s') = List.length (marked_sp s)).
  { intros v row Hw Hc Hq Hs Hstep Hloop. unfold raptor_loop in Hloop.
    pose proof (Hw (with_count s 0)) as (W1 & W2 & W3 & W4 & W5 & W6 & W7).
    simpl in *.
    assert (Hlt : (count (walking v (with_count s 0))
                   < vsize (retour (walking v (with_count s 0))))%N).
    { rewrite W1. unfold vsize.
      rewrite <- (length_map (@List.length type_retour)), W3, length_map.
      destruct (retour s); [contradiction|simpl; lia]. }
    destruct (raptor_rounds_frame data v row Hw Hc Hq Hs Hstep global_pruning
                fuel _ _ _ Hlt Hloop)
      as (I1 & I2 & I3 & (n & I4) & I5 & I6 & I7 & I8).
    splits; try congruence; try lia.
    exists n. now rewrite I4, W3. }
  destruct clockwise.
  - apply (Hgen (raptor_visitor data) (retour_constant data)); auto.
    + intros a. apply foot_path_run_frame.
    + intros a. apply route_path_connections_frame.
    + intros a. apply make_queue_frame.
    + intros a rp w bd st e. apply store_better_frame.
  - apply (Hgen (raptor_reverse_visitor data) (retour_constant_reverse data));
      auto.
    + intros a. apply foot_path_run_frame.
    + intros a. apply route_path_connections_frame.
    + intros a. apply make_queue_frame.
    + intros a rp w bd st e. apply store_better_reverse_frame.
Qed.

Lemma raptor_loop_rows_on_net3 :
  (1 <= count net3_forward)%N
  /\ (count net3_forward < vsize (retour net3_forward))%N
  /\ routes_valides net3_forward = routes_valides net3_init
  /\ (exists n,
        map (@List.length type_retour) (retour net3_forward)
        = map (@List.length type_retour) (retour net3_init)
          ++ repeat (List.length (retour_constant net3)) n)
  /\ List.length (best net3_forward) = List.length (best net3_init)
  /\ List.length (Q net3_forward) = List.length (Q net3_init)
  /\ List.length (marked_rp net3_forward) = List.length (marked_rp net3_init)
  /\ List.length (marked_sp net3_forward) = List.length (marked_sp net3_init).
Proof.
  apply (@raptor_loop_rows sample_externals net3 true 10%nat false net3_init
           net3_forward).
  - intros H. vm_compute in H. discriminate H.
  - vm_compute. reflexivity.
Defined.

Lemma set_bits_from_reset (bs : list bool) (i : N) :
  set_bits_from i (reset_bits bs) = [].
Proof.
  revert i; induction bs as [|b bs IH]; intros i; simpl; [reflexivity|].
  apply IH.
Qed.

Section IdleLoop.
Context `{E : Externals}.
Variable data : Data.

Lemma route_is_scanned_reset (s : RAPTOR) (i : idx_t) (x : Z) (route : Route) :
  x = int_max \/ x = (-1)%Z ->
  route_is_scanned s route = false ->
  route_is_scanned (set_Q s i x) route = false.
Proof.
  intros Hx. unfold route_is_scanned, Q_at, set_Q; simpl.
  destruct (vget_vset_cases 0%Z (Q s) i (r_idx route) x) as [->|[_ ->]];
    [auto|].
  intros _. destruct Hx as [->| ->]; reflexivity.
Qed.

Lemma scan_routes_idle v gp (l : list Route) :
  reset_queue_item v = int_max \/ reset_queue_item v = (-1)%Z ->
  forall (s : RAPTOR) b e,
    (forall route, In route l -> route_is_scanned s route = false) ->
    fold_left (scan_route data v gp) l (s, b, e)
    = (fold_left (fun s route => set_Q s (r_idx route) (reset_queue_item v))
                 l s, b, e).
Proof.
  intros Hx. induction l as [|route l IH]; intros s b e H; [reflexivity|].
  cbn [fold_left].
  replace (scan_route data v gp (s, b, e) route)
    with (set_Q s (r_idx route) (reset_queue_item v), b, e)
    by (unfold scan_route; now rewrite (H route (or_introl eq_refl))).
  apply IH.
  intros r Hr. apply route_is_scanned_reset; [exact Hx|].
  apply H. now right.
Qed.

Lemma reset_queue_keeps (x : Z) (l : list Route) (s : RAPTOR) :
  let s' := fold_left (fun s route => set_Q s (r_idx route) x) l s in
  retour s' = retour s /\ best s' = best s /\ b_dest s' = b_dest s
  /\ routes_valides s' = routes_valides s /\ count s' = count s
  /\ marked_rp s' = marked_rp s /\ marked_sp s' = marked_sp s.
Proof.
  revert s; induction l as [|route l IH]; intros s; simpl; [auto 10|].
  destruct (IH (set_Q s (r_idx route) x)) as (H1 & H2 & H3 & H4 & H5 & H6 & H7).
  simpl in *. auto 10.
Qed.

Lemma raptor_loop_idle (v : Visitor) (row : list type_retour) fuel gp
  (s : RAPTOR) :
  (forall s, set_bits (marked_sp s) = [] -> walking v s = s) ->
  (forall s, set_bits (marked_rp s) = [] -> route_path_connections v s = s) ->
  (forall s, v_make_queue v s = make_queue s) ->
  (forall s, one_more_step v s = with_retour s (retour s ++ [row])) ->
  reset_queue_item v = int_max \/ reset_queue_item v = (-1)%Z ->
  set_bits (marked_sp s) = [] ->
  (forall route, In route (routes data) -> route_is_scanned s route = false) ->
  exists s',
    raptor_loop data (S fuel) v gp s = Some s'
    /\ count s' = 1%N
    /\ best s' = best s
    /\ b_dest s' = b_dest s
    /\ routes_valides s' = routes_valides s
    /\ retour s' = retour s ++ (if (1 =? vsize (retour s))%N then [row] else [])
    /\ set_bits (marked_rp s') = []
    /\ set_bits (marked_sp s') = [].
Proof.
  intros Hw Hc Hq Hstep Hx Hsp Hidle.
  unfold raptor_loop. rewrite (Hw (with_count s 0)) by exact Hsp.
  simpl. rewrite raptor_round_unfold. unfold round_start. rewrite Hq.
  set (s0 := with_count (with_count s 0) (count (with_count s 0) + 1)).
  set (s1 := if (count s0 =? vsize (retour s0))%N
             then one_more_step v s0 else s0).
  assert (K : count s1 = 1%N /\ best s1 = best s /\ b_dest s1 = b_dest s
              /\ routes_valides s1 = routes_valides s
              /\ retour s1 = retour s
                   ++ (if (1 =? vsize (retour s))%N then [row] else [])
              /\ Q s1 = Q s).
  { unfold s1, s0; cbn -[N.eqb]. destruct (1 =? vsize (retour s))%N.
    - rewrite Hstep. simpl. auto 10.
    - rewrite app_nil_r. simpl. auto 10. }
  destruct K as (K1 & K2 & K3 & K4 & K5 & K6).
  rewrite scan_routes_idle.
  2: exact Hx.
  2: { intros route Hr. specialize (Hidle route Hr).
       unfold route_is_scanned, Q_at in *. simpl. now rewrite K4, K6. }
  set (s2 := fold_left _ (routes data) (make_queue s1)).
  destruct (reset_queue_keeps (reset_queue_item v) (routes data)
              (make_queue s1))
    as (R1 & R2 & R3 & R4 & R5 & R6 & R7).
  fold s2 in R1, R2, R3, R4, R5, R6, R7. simpl in *.
  assert (Hrp : set_bits (marked_rp s2) = []).
  { rewrite R6. apply set_bits_from_reset. }
  assert (Hmsp : set_bits (marked_sp s2) = []).
  { rewrite R7. apply set_bits_from_reset. }
  rewrite (Hc s2 Hrp), (Hw s2 Hmsp).
  exists s2. splits; congruence.
Qed.

Lemma foot_path_run_unmarked v (s : RAPTOR) :
  set_bits (marked_sp s) = [] -> foot_path_run data v s = s.
Proof. intros H. unfold foot_path_run. now rewrite H. Qed.

Lemma route_path_connections_unmarked (s : RAPTOR) :
  set_bits (marked_rp s) = [] ->
  route_path_connections_forward data s = s
  /\ route_path_connections_backward data s = s.
Proof.
  intros H. unfold route_path_connections_forward,
              route_path_connections_backward.
  rewrite H. split; reflexivity.
Qed.

End IdleLoop.

(** X8.  With nothing to do the round loop runs exactly one round: when no
    stop point is marked and no route is both queued and valid, either
    direction returns after its first round with [count = 1], [best] and the
    tracker untouched, the marks cleared, and [retour] grown by the sentinel
    row if it held one row only. *)
Theorem raptor_loop_nothing_queued `{E : Externals} (data : Data)
  (clockwise : bool) (fuel : nat) (global_pruning : bool) (s : RAPTOR) :
  set_bits (marked_sp s) = [] ->
  (forall route, In route (routes data) -> route_is_scanned s route = false) ->
  exists s',
    (if clockwise then boucleRAPTOR data (S fuel) global_pruning s
     else boucleRAPTORreverse data (S fuel) global_pruning s) = Some s'
    /\ count s' = 1%N
    /\ best s' = best s
    /\ b_dest s' = b_dest s
    /\ routes_valides s' = routes_valides s
    /\ retour s'
       = retour s
         ++ (if (1 =? vsize (retour s))%N
             then [if clockwise then retour_constant data
                   else retour_constant_reverse data]
             else [])
    /\ set_bits (marked_rp s') = []
    /\ set_bits (marked_sp s') = [].
Proof.
  intros Hsp Hidle. destruct clockwise.
  - apply (raptor_loop_idle data (raptor_visitor data) (retour_constant data));
      auto.
    + intros a. apply foot_path_run_unmarked.
    + intros a Ha. now apply route_path_connections_unmarked.
  - apply (raptor_loop_idle data (raptor_reverse_visitor data)
             (retour_constant_reverse data)); auto.
    + intros a. apply foot_path_run_unmarked.
    + intros a Ha. now apply route_path_connections_unmarked.
Qed.

(** ** Initialisation *)

Section InitFacts.
Context `{E : Externals}.
Variable data : Data.

Lemma init_frame_refl (a : RAPTOR) : init_frame a a.
Proof. unfold init_frame. auto 10. Qed.

Lemma init_frame_trans (a b c : RAPTOR) :
  init_frame a b -> init_frame b c -> init_frame a c.
Proof.
  unfold init_frame.
  intros (a1 & a2 & a3 & a4 & a5 & a6 & a7) (b1 & b2 & b3 & b4 & b5 & b6 & b7).
  splits; try congruence. auto.
Qed.

Lemma init_depart_frame cw (s : RAPTOR) item :
  init_frame s (init_depart data cw s item).
Proof.
  unfold init_depart, init_frame.
  repeat match goal with
         | |- context [if ?c then _ else _] => destruct c
         end;
    unfold set_Q, set_best, set_label; simpl; splits;
    try reflexivity; try apply vset_length;
    try (apply map_length_vset_row, vset_length);
    try (intros sp; apply vget_vset_true); auto.
Qed.

Lemma init_destination_frame cw borne item (s : RAPTOR) rp :
  init_frame s (init_destination data cw borne item s rp).
Proof.
  unfold init_destination, init_frame.
  repeat match goal with
         | |- context [if ?c then _ else _] => destruct c
         end;
    unfold set_best; simpl; splits;
    try reflexivity; try apply vset_length; auto.
Qed.

Lemma clear_and_init_frame (s : RAPTOR) departs destinations borne cw clear :
  let s' := clear_and_init data s departs destinations borne cw clear in
  let sentinel :=
    if cw then retour_constant data else retour_constant_reverse data in
  count s' = 1%N
  /\ List.length (Q s') = List.length (routes data)
  /\ map (@List.length type_retour) (retour s')
     = (if clear then [List.length sentinel]
        else map (@List.length type_retour) (retour s))
  /\ List.length (best s')
     = (if clear then List.length sentinel else List.length (best s))
  /\ marked_rp s' = marked_rp s
  /\ routes_valides s' = routes_valides s
  /\ List.length (marked_sp s') = List.length (marked_sp s)
  /\ (forall sp, vget false (marked_sp s) sp = true ->
                 vget false (marked_sp s') sp = true).
Proof.
  unfold clear_and_init.
  set (s0 := with_Q s _).
  set (p := if clear then _ else (s0, borne)).
  assert (H0 : routes_valides (fst p) = routes_valides s
               /\ marked_rp (fst p) = marked_rp s
               /\ marked_sp (fst p) = marked_sp s
               /\ List.length (Q (fst p)) = List.length (routes data)
               /\ map (@List.length type_retour) (retour (fst p))
                  = (if clear
                     then [List.length (if cw then retour_constant data
                                        else retour_constant_reverse data)]
                     else map (@List.length type_retour) (retour s))
               /\ List.length (best (fst p))
                  = (if clear
                     then List.length (if cw then retour_constant data
                                       else retour_constant_reverse data)
                     else List.length (best s))).
  { unfold p, s0. destruct clear, cw; simpl; splits; try reflexivity;
      apply repeat_length. }
  destruct p as [s1 borne1]. simpl in H0.
  destruct H0 as (A1 & A2 & A3 & A4 & A5 & A6).
  set (s2 := fold_left (init_depart data cw) departs s1).
  assert (H2 : init_frame s1 s2).
  { apply (fold_left_preorder init_frame).
    - apply init_frame_refl.
    - apply init_frame_trans.
    - intros a x. apply init_depart_frame. }
  set (s3 := fold_left _ destinations s2).
  assert (H3 : init_frame s2 s3).
  { apply (fold_left_preorder init_frame).
    - apply init_frame_refl.
    - apply init_frame_trans.
    - intros a item. apply (fold_left_preorder init_frame).
      + apply init_frame_refl.
      + apply init_frame_trans.
      + intros a0 rp. apply init_destination_frame. }
  destruct (init_frame_trans _ _ _ H2 H3) as (B1 & B2 & B3 & B4 & B5 & B6 & B7).
  simpl. splits; try congruence.
  intros sp Hsp. apply B7. now rewrite A3.
Qed.

End InitFacts.

(** X9.  [clear_and_init] leaves the engine at round 1 with one queue entry
    per route; with [clear] the labels are a single row of the size of the
    direction's sentinel row, without it the rows keep their sizes.  It
    touches neither the route-point marks nor the validity bitset, and it
    clears no stop-point mark: a mark left by an earlier pass is still set
    afterwards. *)
Theorem clear_and_init_shape `{E : Externals} (data : Data) (s : RAPTOR)
  (departs : list Departure_Type) (destinations : list (idx_t * double))
  (borne : DateTime) (clockwise clear : bool) :
  let s' := clear_and_init data s departs destinations borne clockwise clear in
  let sentinel :=
    if clockwise then retour_constant data else retour_constant_reverse data in
  count s' = 1%N
  /\ List.length (Q s') = List.length (routes data)
  /\ map (@List.length type_retour) (retour s')
     = (if clear then [List.length sentinel]
        else map (@List.length type_retour) (retour s))
  /\ List.length (best s')
     = (if clear then List.length sentinel else List.length (best s))
  /\ marked_rp s' = marked_rp s
  /\ routes_valides s' = routes_valides s
  /\ List.length (marked_sp s') = List.length (marked_sp s)
  /\ (forall sp, vget false (marked_sp s) sp = true ->
                 vget false (marked_sp s') sp = true).
Proof. apply clear_and_init_frame. Qed.

Lemma init_depart_fold_fields `{E : Externals} (data : Data) cw
  (d1 : list Departure_Type) :
  forall (d2 : list Departure_Type) (s : RAPTOR),
    map rpidx d1 = map rpidx d2 ->
    map d_arrival d1 = map d_arrival d2 ->
    fold_left (init_depart data cw) d1 s = fold_left (init_depart data cw) d2 s.
Proof.
  induction d1 as [|x d1 IH]; intros [|y d2] s Hr Ha; simpl in *;
    try discriminate; [reflexivity|].
  injection Hr as Hr0 Hr. injection Ha as Ha0 Ha.
  replace (init_depart data cw s y) with (init_depart data cw s x).
  - now apply IH.
  - unfold init_depart. now rewrite Hr0, Ha0.
Qed.

(** X10.  Of a seed [clear_and_init] reads the route point and the arrival
    only: two seed vectors that agree on these two fields, whatever their
    [departure] fields hold, initialise the engine alike. *)
Theorem clear_and_init_ignores_seed_departure `{E : Externals} (data : Data)
  (s : RAPTOR) (d1 d2 : list Departure_Type)
  (destinations : list (idx_t * double)) (borne : DateTime)
  (clockwise clear : bool) :
  map rpidx d1 = map rpidx d2 ->
  map d_arrival d1 = map d_arrival d2 ->
  clear_and_init data s d1 destinations borne clockwise clear
  = clear_and_init data s d2 destinations borne clockwise clear.
Proof.
  intros Hr Ha. unfold clear_and_init.
  match goal with
  | |- context [let '(_, _) := ?p in _] => destruct p as [s1 borne1]
  end.
  now rewrite (init_depart_fold_fields data clockwise d1 d2 s1 Hr Ha).
Qed.

Section SeedFacts.
Context `{E : Externals}.
Variable data : Data.

Lemma init_depart_retour cw (s : RAPTOR) item :
  retour (init_depart data cw s item)
  = retour (set_label s 0 (rpidx item)
              (retour_depart (d_arrival item) (d_arrival item))).
Proof.
  unfold init_depart.
  repeat match goal with
         | |- context [if ?c then _ else _] => destruct c
         end; reflexivity.
Qed.

Lemma init_destination_retour cw borne item (s : RAPTOR) rp :
  retour (init_destination data cw borne item s rp) = retour s.
Proof.
  unfold init_destination.
  repeat match goal with
         | |- context [if ?c then _ else _] => destruct c
         end; reflexivity.
Qed.

Lemma init_destinations_retour cw borne destinations (s : RAPTOR) :
  retour
    (fold_left
       (fun s item =>
          fold_left (init_destination data cw borne item)
                    (route_point_list (stop_point data (fst item))) s)
       destinations s)
  = retour s.
Proof.
  apply (fold_left_preorder (fun a b : RAPTOR => retour b = retour a)).
  - reflexivity.
  - intros a b c H1 H2. congruence.
  - intros a item.
    apply (fold_left_preorder (fun a b : RAPTOR => retour b = retour a)).
    + reflexivity.
    + intros a0 b0 c0 H1 H2. congruence.
    + intros a0 rp. apply init_destination_retour.
Qed.

Lemma init_departs_round_zero cw (departs : list Departure_Type) :
  forall (s : RAPTOR) (row : list type_retour),
    retour s = [row] ->
    exists row',
      retour (fold_left (init_depart data cw) departs s) = [row']
      /\ List.length row' = List.length row
      /\ forall rp,
           vget retour_default row' rp
           = match find (fun d => (rpidx d =? rp)%N) (rev departs) with
             | Some d =>
                 if (rp <? vsize row)%N
                 then retour_depart (d_arrival d) (d_arrival d)
                 else retour_default
             | None => vget retour_default row rp
             end.
Proof.
  induction departs as [|x departs IH] using rev_ind; intros s row Hs.
  - exists row. simpl. auto.
  - rewrite fold_left_app, rev_app_distr. simpl.
    destruct (IH s row Hs) as (row1 & H1 & H2 & H3).
    set (s1 := fold_left (init_depart data cw) departs s) in *.
    exists (vset row1 (rpidx x)
              (retour_depart (d_arrival x) (d_arrival x))).
    rewrite init_depart_retour. unfold set_label; simpl. rewrite H1. simpl.
    splits; [reflexivity|now rewrite vset_length|].
    intros rp. destruct (N.eqb_spec (rpidx x) rp) as [->|Hne].
    + destruct (N.ltb_spec rp (vsize row)) as [Hlt|Hge].
      * apply vget_vset_same. unfold vsize in *. now rewrite H2.
      * rewrite vset_out_of_range by (unfold vsize in *; now rewrite H2).
        apply vget_out_of_range. unfold vsize in *. now rewrite H2.
    + rewrite vget_vset_other by exact Hne. apply H3.
Qed.

End SeedFacts.

(** X11.  After [clear_and_init] with [clear], round 0 holds the seeds and
    nothing else: a route point named by a seed holds a departure label
    whose arrival and departure are the arrival of the last seed naming it,
    every other route point holds its entry of the sentinel row, and there
    is no other round. *)
Theorem clear_and_init_round_zero `{E : Externals} (data : Data) (s : RAPTOR)
  (departs : list Departure_Type) (destinations : list (idx_t * double))
  (borne : DateTime) (clockwise : bool) (rp : idx_t) :
  let s' := clear_and_init data s departs destinations borne clockwise true in
  let sentinel :=
    if clockwise then retour_constant data else retour_constant_reverse data in
  label s' 0 rp
  = match find (fun d => (rpidx d =? rp)%N) (rev departs) with
    | Some d =>
        if (rp <? vsize sentinel)%N
        then retour_depart (d_arrival d) (d_arrival d)
        else retour_default
    | None => vget retour_default sentinel rp
    end
  /\ forall k, (1 <= k)%N -> label s' k rp = retour_default.
Proof.
  unfold clear_and_init.
  set (s0 := with_Q s _).
  set (p := if clockwise then _ else _).
  assert (H0 : retour (fst p)
               = [if clockwise then retour_constant data
                  else retour_constant_reverse data]).
  { unfold p. destruct clockwise; reflexivity. }
  destruct p as [s1 borne1]. simpl in H0.
  destruct (init_departs_round_zero data clockwise departs s1 _ H0)
    as (row' & H1 & H2 & H3).
  simpl. unfold label; simpl.
  rewrite init_destinations_retour, H1. split.
  - simpl. apply H3.
  - intros k Hk. simpl.
    destruct (N.eqb_spec k 0) as [->|_]; [lia|reflexivity].
Qed.

Section QueueFacts.
Context `{E : Externals}.
Variable data : Data.

Lemma init_depart_Q cw (s : RAPTOR) item :
  Q (init_depart data cw s item)
  = let rp := route_point data (rpidx item) in
    if cw && (order rp <? Q_at s (route_idx rp))%Z
    then vset (Q s) (route_idx rp) (order rp)
    else if negb cw && (Q_at s (route_idx rp) <? order rp)%Z
         then vset (Q s) (route_idx rp) (order rp)
         else Q s.
Proof.
  unfold init_depart. cbv zeta.
  change (Q_at (set_best (set_label s 0 (rpidx item)
                            (retour_depart (d_arrival item) (d_arrival item)))
                         (rpidx item)
                         (retour_depart (d_arrival item) (d_arrival item)))
               (route_idx (route_point data (rpidx item))))
    with (Q_at s (route_idx (route_point data (rpidx item)))).
  repeat match goal with
         | |- context [if ?c then _ else _] => destruct c
         end; reflexivity.
Qed.

Lemma init_destinations_Q cw borne destinations (s : RAPTOR) :
  Q (fold_left
       (fun s item =>
          fold_left (init_destination data cw borne item)
                    (route_point_list (stop_point data (fst item))) s)
       destinations s)
  = Q s.
Proof.
  apply (fold_left_preorder (fun a b : RAPTOR => Q b = Q a)).
  - reflexivity.
  - intros a b c H1 H2. congruence.
  - intros a item.
    apply (fold_left_preorder (fun a b : RAPTOR => Q b = Q a)).
    + reflexivity.
    + intros a0 b0 c0 H1 H2. congruence.
    + intros a0 rp. unfold init_destination.
      repeat match goal with
             | |- context [if ?c then _ else _] => destruct c
             end; reflexivity.
Qed.

Lemma vget_repeat {A} (d x : A) (n : nat) (i : N) :
  (i < N.of_nat n)%N -> vget d (repeat x n) i = x.
Proof.
  revert i; induction n as [|n IH]; intros i Hi; [lia|].
  simpl. destruct (N.eqb_spec i 0); [reflexivity|].
  apply IH. lia.
Qed.

Lemma init_departs_queue cw (departs : list Departure_Type) (s : RAPTOR)
  (r : idx_t) :
  let s' := fold_left (init_depart data cw) departs s in
  let on_route d := route_idx (route_point data (rpidx d)) = r in
  let rank d := order (route_point data (rpidx d)) in
  (r < vsize (Q s))%N ->
  vsize (Q s') = vsize (Q s)
  /\ (Q_at s' r = Q_at s r
      \/ exists d, In d departs /\ on_route d /\ Q_at s' r = rank d)
  /\ (if cw then (Q_at s' r <= Q_at s r)%Z else (Q_at s r <= Q_at s' r)%Z)
  /\ (forall d, In d departs -> on_route d ->
        if cw then (Q_at s' r <= rank d)%Z else (rank d <= Q_at s' r)%Z).
Proof.
  intros s' on_route rank Hr. unfold s'. clear s'.
  induction departs as [|x departs IH] using rev_ind.
  - simpl. splits; auto.
    + destruct cw; lia.
    + intros d [].
  - rewrite fold_left_app. simpl.
    set (s1 := fold_left (init_depart data cw) departs s) in *.
    destruct IH as (I1 & I2 & I3 & I4).
    assert (HQ := init_depart_Q cw s1 x). cbv zeta in HQ.
    set (rx := route_idx (route_point data (rpidx x))) in *.
    set (ox := order (route_point data (rpidx x))) in *.
    unfold Q_at in *.
    assert (Hin : forall d, In d (departs ++ [x]) -> In d departs \/ d = x).
    { intros d Hd. apply in_app_or in Hd. destruct Hd as [Hd|[Hd|[]]]; auto. }
    destruct cw; simpl in HQ.
    + destruct (Z.ltb_spec ox (vget 0%Z (Q s1) rx)) as [Hlt|Hge];
        rewrite HQ.
      * rewrite vsize_vset. splits; [exact I1| | |].
        -- destruct (vget_vset_cases 0%Z (Q s1) rx r ox) as [->|[Heq ->]].
           ++ destruct I2 as [I2|(d & D1 & D2 & D3)]; [now left|right].
              exists d. splits; auto. apply in_or_app. now left.
           ++ right. exists x. splits; auto. apply in_or_app. right. now left.
        -- destruct (vget_vset_cases 0%Z (Q s1) rx r ox) as [->|[Heq ->]];
             [exact I3|]. subst r. lia.
        -- intros d Hd Hon. destruct (Hin d Hd) as [Hd'| ->].
           ++ specialize (I4 d Hd' Hon).
              destruct (vget_vset_cases 0%Z (Q s1) rx r ox) as [->|[Heq ->]];
                [exact I4|]. subst r. lia.
           ++ unfold on_route in Hon. fold rx in Hon. subst r.
              rewrite vget_vset_same by (rewrite I1; exact Hr).
              apply Z.le_refl.
      * splits; [exact I1| |exact I3|].
        -- destruct I2 as [I2|(d & D1 & D2 & D3)]; [now left|right].
           exists d. splits; auto. apply in_or_app. now left.
        -- intros d Hd Hon. destruct (Hin d Hd) as [Hd'| ->]; [now apply I4|].
           unfold on_route in Hon. fold rx in Hon. subst r. exact Hge.
    + destruct (Z.ltb_spec (vget 0%Z (Q s1) rx) ox) as [Hlt|Hge];
        rewrite HQ.
      * rewrite vsize_vset. splits; [exact I1| | |].
        -- destruct (vget_vset_cases 0%Z (Q s1) rx r ox) as [->|[Heq ->]].
           ++ destruct I2 as [I2|(d & D1 & D2 & D3)]; [now left|right].
              exists d. splits; auto. apply in_or_app. now left.
           ++ right. exists x. splits; auto. apply in_or_app. right. now left.
        -- destruct (vget_vset_cases 0%Z (Q s1) rx r ox) as [->|[Heq ->]];
             [exact I3|]. subst r. lia.
        -- intros d Hd Hon. destruct (Hin d Hd) as [Hd'| ->].
           ++ specialize (I4 d Hd' Hon).
              destruct (vget_vset_cases 0%Z (Q s1) rx r ox) as [->|[Heq ->]];
                [exact I4|]. subst r. lia.
           ++ unfold on_route in Hon. fold rx in Hon. subst r.
              rewrite vget_vset_same by (rewrite I1; exact Hr).
              apply Z.le_refl.
      * splits; [exact I1| |exact I3|].
        -- destruct I2 as [I2|(d & D1 & D2 & D3)]; [now left|right].
           exists d. splits; auto. apply in_or_app. now left.
        -- intros d Hd Hon. destruct (Hin d Hd) as [Hd'| ->]; [now apply I4|].
           unfold on_route in Hon. fold rx in Hon. subst r. exact Hge.
Qed.

End QueueFacts.

(** X12.  The queue [clear_and_init] builds: the entry of a route is the
    direction's sentinel ([INT_MAX] forward, [-1] in reverse) when no seed
    lies on the route, and otherwise the order of a seed's route point on
    it, the smallest one forward and the largest one in reverse (an order
    beyond the sentinel leaves the sentinel in place). *)
Theorem clear_and_init_queue `{E : Externals} (data : Data) (s : RAPTOR)
  (departs : list Departure_Type) (destinations : list (idx_t * double))
  (borne : DateTime) (clockwise clear : bool) (r : idx_t) :
  let s' := clear_and_init data s departs destinations borne clockwise clear in
  let on_route d := route_idx (route_point data (rpidx d)) = r in
  let rank d := order (route_point data (rpidx d)) in
  (r < vsize (routes data))%N ->
  (Q_at s' r = (if clockwise then int_max else (-1)%Z)
   \/ exists d, In d departs /\ on_route d /\ Q_at s' r = rank d)
  /\ (if clockwise then (Q_at s' r <= int_max)%Z else (-1 <= Q_at s' r)%Z)
  /\ (forall d, In d departs -> on_route d ->
        if clockwise then (Q_at s' r <= rank d)%Z
        else (rank d <= Q_at s' r)%Z).
Proof.
  intros s' on_route rank Hr. unfold s', clear_and_init. clear s'.
  set (s0 := with_Q s _).
  set (p := if clear then _ else (s0, borne)).
  assert (H0 : Q (fst p)
               = repeat (if clockwise then int_max else (-1)%Z)
                        (List.length (routes data))).
  { unfold p, s0. destruct clear, clockwise; reflexivity. }
  destruct p as [s1 borne1]. simpl in H0.
  assert (Hr1 : (r < vsize (Q s1))%N).
  { rewrite H0. unfold vsize in *. now rewrite repeat_length. }
  destruct (init_departs_queue data clockwise departs s1 r Hr1)
    as (I1 & I2 & I3 & I4).
  assert (Hq : Q_at s1 r = (if clockwise then int_max else (-1)%Z)).
  { unfold Q_at. rewrite H0. apply vget_repeat. exact Hr. }
  unfold Q_at in *. simpl. rewrite init_destinations_Q.
  rewrite Hq in I2, I3. splits; auto.
  destruct clockwise; exact I3.
Qed.

(** ** Route validity *)

Section ForbiddenFacts.
Context `{E : Externals}.
Variable data : Data.

Lemma forbidden_route_spec (forbidden : list (string * string))
  (route : Route) :
  forbidden_route data forbidden route = true
  <-> exists kind code,
        In (kind, code) forbidden
        /\ ((kind = "line"%string
             /\ code = l_external_code
                         (vget Line_default (lines data) (line_idx route)))
            \/ (kind = "route"%string /\ code = r_external_code route)
            \/ (kind = "mode"%string
                /\ code = m_external_code
                            (vget ModeType_default (mode_types data)
                                  (mode_type_idx route)))).
Proof.
  unfold forbidden_route. rewrite forbidden_fold_spec. split.
  - intros [H|H]; [discriminate|exact H].
  - intros H. now right.
Qed.

Lemma vget_repeat_false (n : nat) (i : N) : vget false (repeat false n) i = false.
Proof.
  revert i; induction n as [|n IH]; intros i; simpl; [reflexivity|].
  destruct (i =? 0)%N; [reflexivity|apply IH].
Qed.

Lemma set_routes_valides_bit (s : RAPTOR) date forbidden (j : idx_t) :
  vget false (routes_valides (set_routes_valides data s date forbidden)) j
  = true
  <-> (j < vsize (routes data))%N
      /\ exists route,
           In route (routes data) /\ r_idx route = j
           /\ forbidden_route data forbidden route = false
           /\ some_vj_circulates data date (vehicle_journey_list route) = true.
Proof.
  unfold set_routes_valides; simpl.
  rewrite (fold_left_ext
             (fun rv route =>
                if negb (forbidden_route data forbidden route)
                   && some_vj_circulates data date (vehicle_journey_list route)
                then vset rv (r_idx route) true else rv)).
  2: { intros rv route.
       destruct (forbidden_route data forbidden route),
         (some_vj_circulates data date (vehicle_journey_list route));
         reflexivity. }
  rewrite routes_valides_fold, vget_repeat_false.
  unfold vsize. rewrite repeat_length. split.
  - intros [H|(Hj & route & H1 & H2 & H3)]; [discriminate|].
    split; [exact Hj|]. exists route.
    apply andb_prop in H3. destruct H3 as [H3 H4].
    apply negb_true_iff in H3. auto.
  - intros (Hj & route & H1 & H2 & H3 & H4). right. split; [exact Hj|].
    exists route. rewrite H3, H4. auto.
Qed.

End ForbiddenFacts.

(** X13.  Of the forbidden list [set_routes_valides] sees only which
    (line, code), (route, code) and (mode, code) entries it holds: two lists
    holding the same such entries, in whatever order, with whatever
    repetitions and whatever entries under other keys, give the same
    validity bitset. *)
Theorem set_routes_valides_forbidden_entries `{E : Externals} (data : Data)
  (s : RAPTOR) (date : N) (f1 f2 : list (string * string)) :
  (forall kind code,
     kind = "line"%string \/ kind = "route"%string \/ kind = "mode"%string ->
     (In (kind, code) f1 <-> In (kind, code) f2)) ->
  set_routes_valides data s date f1 = set_routes_valides data s date f2.
Proof.
  intros H. unfold set_routes_valides. f_equal.
  apply fold_left_ext. intros rv route.
  replace (forbidden_route data f2 route)
    with (forbidden_route data f1 route); [reflexivity|].
  apply eq_true_iff_eq. rewrite !forbidden_route_spec.
  split; intros (kind & code & Hin & Hc); exists kind, code;
    (split; [|exact Hc]); apply (H kind code);
    solve [ destruct Hc as [[-> _]|[[-> _]|[-> _]]]; auto | exact Hin ].
Qed.

(** X14.  Forbidding more never validates a route: the bitset
    [set_routes_valides] builds has one bit per route, and when every entry
    of one forbidden list belongs to another one, every bit set under the
    larger list is set under the smaller one. *)
Theorem set_routes_valides_antitone `{E : Externals} (data : Data)
  (s : RAPTOR) (date : N) (f1 f2 : list (string * string)) (j : idx_t) :
  (forall p, In p f1 -> In p f2) ->
  List.length (routes_valides (set_routes_valides data s date f2))
  = List.length (routes data)
  /\ (vget false (routes_valides (set_routes_valides data s date f2)) j = true ->
      vget false (routes_valides (set_routes_valides data s date f1)) j = true).
Proof.
  intros H. split.
  - unfold set_routes_valides; simpl.
    apply (fold_left_invariant
             (fun rv : list bool => List.length rv = List.length (routes data))).
    + intros rv route _ Hrv.
      destruct (negb (forbidden_route data f2 route)); [|exact Hrv].
      destruct (some_vj_circulates data date (vehicle_journey_list route));
        [|exact Hrv].
      now rewrite vset_length.
    + apply repeat_length.
  - rewrite !set_routes_valides_bit.
    intros (Hj & route & H1 & H2 & H3 & H4). split; [exact Hj|].
    exists route. splits; auto.
    apply not_true_is_false. intros Hf.
    apply forbidden_route_spec in Hf. destruct Hf as (kind & code & Hin & Hc).
    assert (Hf2 : forbidden_route data f2 route = true).
    { apply forbidden_route_spec. exists kind, code. split; [|exact Hc].
      now apply H. }
    congruence.
Qed.

(** ** The route points a scan visits *)

Lemma vget_nth {A} (d : A) (l : list A) (i : N) :
  vget d l i = nth (N.to_nat i) l d.
Proof.
  revert i; induction l as [|x l IH]; intros i; simpl.
  - now destruct (N.to_nat i).
  - destruct (N.eqb_spec i 0) as [->|Hne]; [reflexivity|].
    rewrite IH. destruct (N.to_nat i) as [|k] eqn:Hk; [lia|].
    f_equal. lia.
Qed.

Lemma vslice_positions {A} (d : A) (l : list A) (m p : nat) :
  (p + m <= List.length l)%nat ->
  firstn m (skipn p l) = map (fun k => nth k l d) (seq p m).
Proof.
  revert p; induction m as [|m IH]; intros p Hle; [reflexivity|].
  rewrite (skipn_nth_cons d l (a := p)) by lia.
  cbn [firstn seq map]. f_equal. apply IH. lia.
Qed.

Lemma map_seq_offset {A} (g : nat -> A) (a m p : nat) :
  map g (seq (a + p) m) = map (fun k => g (a + k)%nat) (seq p m).
Proof.
  revert p; induction m as [|m IH]; intros p; [reflexivity|].
  cbn [seq map]. f_equal. rewrite <- IH. f_equal. f_equal. lia.
Qed.

Section RoutePointsFacts.
Context `{E : Externals}.
Variable data : Data.

Lemma contiguous_nth (a : N) (n k : nat) :
  (k < n)%nat ->
  vget 0%N (map (fun k => (a + N.of_nat k)%N) (seq 0 n)) (N.of_nat k)
  = (a + N.of_nat k)%N.
Proof.
  intros Hk. rewrite vget_nth, Nat2N.id.
  rewrite (nth_indep _ 0%N (a + N.of_nat 0)%N)
    by (rewrite length_map, length_seq; exact Hk).
  rewrite (map_nth (fun k => (a + N.of_nat k)%N) (seq 0 n) 0%nat k).
  rewrite seq_nth by exact Hk. reflexivity.
Qed.

Lemma contiguous_last (a : N) (n : nat) :
  (0 < n)%nat ->
  last (map (fun k => (a + N.of_nat k)%N) (seq 0 n)) 0%N
  = (a + N.of_nat (n - 1))%N.
Proof.
  intros Hn. destruct n as [|n]; [lia|].
  rewrite seq_S, map_app. cbn [map]. rewrite last_last. f_equal. lia.
Qed.

Lemma route_points_contiguous (route : Route) (a : N) (n : nat) (o : Z) :
  r_route_point_list route = map (fun k => (a + N.of_nat k)%N) (seq 0 n) ->
  (0 <= o < Z.of_nat n)%Z ->
  (N.to_nat a + n <= List.length (route_points data))%nat ->
  route_points_forward data route o
  = map (fun k => vget RoutePoint_default (route_points data)
                       (a + N.of_nat k))
        (seq (Z.to_nat o) (n - Z.to_nat o))
  /\ route_points_reverse data route o
     = map (fun k => vget RoutePoint_default (route_points data)
                          (a + N.of_nat k))
           (rev (seq 0 (Z.to_nat o + 1))).
Proof.
  intros Hl Ho Hlen.
  assert (Hfirst : vget 0%N (r_route_point_list route) (Z.to_N o)
                   = (a + N.of_nat (Z.to_nat o))%N).
  { rewrite Hl. replace (Z.to_N o) with (N.of_nat (Z.to_nat o)) by lia.
    apply contiguous_nth. lia. }
  assert (Hg : forall l,
             map (fun k => vget RoutePoint_default (route_points data)
                                (a + N.of_nat k)) l
             = map (fun k => nth (N.to_nat a + k) (route_points data)
                                 RoutePoint_default) l).
  { intros l. apply map_ext. intros k. rewrite vget_nth. f_equal. lia. }
  split.
  - unfold route_points_forward, vslice. rewrite Hfirst, Hl.
    rewrite contiguous_last by lia.
    rewrite (vslice_positions RoutePoint_default) by lia.
    rewrite Hg.
    replace (N.to_nat (a + N.of_nat (n - 1) + 1
                       - (a + N.of_nat (Z.to_nat o))))
      with (n - Z.to_nat o)%nat by lia.
    replace (N.to_nat (a + N.of_nat (Z.to_nat o)))
      with (N.to_nat a + Z.to_nat o)%nat by lia.
    apply map_seq_offset.
  - unfold route_points_reverse, vslice. rewrite Hfirst.
    rewrite (vslice_positions RoutePoint_default) by lia.
    rewrite Hg, map_rev. f_equal.
    replace (N.to_nat (a + N.of_nat (Z.to_nat o) - Z.to_N o))
      with (N.to_nat a + 0)%nat by lia.
    replace (N.to_nat (Z.to_N o + 1)) with (Z.to_nat o + 1)%nat by lia.
    apply map_seq_offset.
Qed.

End RoutePointsFacts.

(** X15.  On a route whose route points lie contiguously in
    [route_points], at the positions [a .. a+n-1], the forward visitor scans
    the route points from the queue position [o] to the end of the route,
    in order, and the reverse visitor from the position [o] back to the
    start of the route. *)
Theorem route_points_of_contiguous_route `{E : Externals} (data : Data)
  (route : Route) (a : N) (n : nat) (o : Z) :
  r_route_point_list route = map (fun k => (a + N.of_nat k)%N) (seq 0 n) ->
  (0 <= o < Z.of_nat n)%Z ->
  (N.to_nat a + n <= List.length (route_points data))%nat ->
  v_route_points (raptor_visitor data) route o
  = map (fun k => vget RoutePoint_default (route_points data)
                       (a + N.of_nat k))
        (seq (Z.to_nat o) (n - Z.to_nat o))
  /\ v_route_points (raptor_reverse_visitor data) route o
     = map (fun k => vget RoutePoint_default (route_points data)
                          (a + N.of_nat k))
           (rev (seq 0 (Z.to_nat o + 1))).
Proof. apply route_points_contiguous. Qed.

(** ** Selecting the paths *)

Lemma fold_option_none {A B} (f : option A -> B -> option A) (l : list B) :
  (forall x, f None x = None) -> fold_left f l None = None.
Proof.
  intros Hf. induction l as [|x l IH]; simpl; [reflexivity|].
  now rewrite Hf.
Qed.

Lemma fold_option_length {A B D} (f : option (list A * D) -> B ->
                                      option (list A * D))
  (l : list B) :
  (forall x, f None x = None) ->
  (forall res d x res' d',
     f (Some (res, d)) x = Some (res', d') ->
     (List.length res' <= S (List.length res))%nat) ->
  forall res d res' d',
    fold_left f l (Some (res, d)) = Some (res', d') ->
    (List.length res' <= List.length res + List.length l)%nat.
Proof.
  intros Hnone Hstep. induction l as [|x l IH]; intros res d res' d' H.
  - simpl in H. injection H as <- <-. lia.
  - simpl in H. destruct (f (Some (res, d)) x) as [[res1 d1]|] eqn:Hf.
    + specialize (Hstep _ _ _ _ _ Hf). specialize (IH _ _ _ _ H).
      simpl. lia.
    + rewrite fold_option_none in H by exact Hnone. discriminate.
Qed.

Section SelectFacts.
Context `{E : Externals}.
Variable data : Data.

Lemma rounds_length (s : RAPTOR) :
  List.length (rounds s) = N.to_nat (count s).
Proof. unfold rounds. now rewrite length_map, length_seq. Qed.

Lemma makePathes_length fuel (s : RAPTOR) destinations dt paths :
  makePathes data fuel s destinations dt = Some paths ->
  (List.length paths <= N.to_nat (count s))%nat.
Proof.
  unfold makePathes. intros H.
  match type of H with
  | option_map fst (fold_left ?f ?l ?a) = _ =>
      destruct (fold_left f l a) as [[res d]|] eqn:Hf; [|discriminate];
      pose proof (fold_option_length f l) as Hlen
  end.
  simpl in H. injection H as <-.
  rewrite <- rounds_length.
  apply (Hlen (fun _ => eq_refl)) with (res := []) (d := dt) (d' := d);
    [|exact Hf].
  intros res0 d0 i res' d' Hstep.
  destruct (makePathes_select data s i destinations d0) as [d1 rpid].
  destruct (negb (rpid =? int_max)%Z).
  - destruct (makePath data fuel s (Z.to_N rpid) i false); [|discriminate].
    injection Hstep as <- <-. rewrite length_app. simpl. lia.
  - injection Hstep as <- <-. lia.
Qed.

Lemma makePathesreverse_length fuel (s : RAPTOR) destinations dt paths :
  makePathesreverse data fuel s destinations dt = Some paths ->
  (List.length paths <= N.to_nat (count s))%nat.
Proof.
  unfold makePathesreverse. intros H.
  match type of H with
  | option_map fst (fold_left ?f ?l ?a) = _ =>
      destruct (fold_left f l a) as [[res d]|] eqn:Hf; [|discriminate];
      pose proof (fold_option_length f l) as Hlen
  end.
  simpl in H. injection H as <-.
  rewrite <- rounds_length.
  apply (Hlen (fun _ => eq_refl)) with (res := []) (d := dt) (d' := d);
    [|exact Hf].
  intros res0 d0 i res' d' Hstep.
  destruct (makePathesreverse_select data s i destinations d0) as [d1 rpid].
  destruct (negb (rpid =? invalid_idx)%N).
  - destruct (makePathreverse data fuel s rpid i); [|discriminate].
    injection Hstep as <- <-. rewrite length_app. simpl. lia.
  - injection Hstep as <- <-. lia.
Qed.

End SelectFacts.

(** X16.  [makePathes] and [makePathesreverse] return at most one path per
    round: the list they return is no longer than [count]. *)
Theorem makePathes_one_path_per_round `{E : Externals} (data : Data)
  (fuel : nat) (s : RAPTOR) (destinations : list (idx_t * double))
  (dt : DateTime) (paths : list Path.t) :
  makePathes data fuel s destinations dt = Some paths
  \/ makePathesreverse data fuel s destinations dt = Some paths ->
  (N.of_nat (List.length paths) <= count s)%N.
Proof.
  intros [H|H].
  - apply makePathes_length in H. lia.
  - apply makePathesreverse_length in H. lia.
Qed.

Section NoneReached.
Context `{E : Externals}.
Variable data : Data.

Lemma rounds_In (s : RAPTOR) (i : N) :
  In i (rounds s) -> (1 <= i <= count s)%N.
Proof.
  unfold rounds. intros H. apply in_map_iff in H.
  destruct H as (k & <- & Hk). apply in_seq in Hk. lia.
Qed.

Lemma makePathes_select_none (s : RAPTOR) i destinations dt :
  (forall sp_dist rp,
     In sp_dist destinations ->
     In rp (route_point_list (stop_point data (fst sp_dist))) ->
     type (label s i rp) = uninitialized) ->
  makePathes_select data s i destinations dt = (dt, int_max)
  /\ makePathesreverse_select data s i destinations dt = (dt, invalid_idx).
Proof.
  intros H. split.
  - unfold makePathes_select.
    apply (fold_left_invariant (fun a => a = (dt, int_max))); [|reflexivity].
    intros a sp_dist Hin ->.
    apply (fold_left_invariant (fun a => a = (dt, int_max))); [|reflexivity].
    intros a rp Hrp ->. unfold is_uninitialized.
    now rewrite (H sp_dist rp Hin Hrp).
  - unfold makePathesreverse_select.
    apply (fold_left_invariant (fun a => a = (dt, invalid_idx)));
      [|reflexivity].
    intros a sp_dist Hin ->.
    apply (fold_left_invariant (fun a => a = (dt, invalid_idx)));
      [|reflexivity].
    intros a rp Hrp ->. unfold is_uninitialized.
    now rewrite (H sp_dist rp Hin Hrp).
Qed.

End NoneReached.

(** X17.  When no route point of a destination stop point holds a label in
    any round from 1 to [count] (in particular when there is no
    destination), [makePathes] and [makePathesreverse] return the empty
    list, without reconstructing any path. *)
Theorem makePathes_none_reached `{E : Externals} (data : Data) (fuel : nat)
  (s : RAPTOR) (destinations : list (idx_t * double)) (dt : DateTime) :
  (forall i sp_dist rp,
     (1 <= i <= count s)%N ->
     In sp_dist destinations ->
     In rp (route_point_list (stop_point data (fst sp_dist))) ->
     type (label s i rp) = uninitialized) ->
  makePathes data fuel s destinations dt = Some []
  /\ makePathesreverse data fuel s destinations dt = Some [].
Proof.
  intros H. split.
  - unfold makePathes.
    match goal with
    | |- option_map fst (fold_left ?f ?l ?a) = _ =>
        assert (Hf : fold_left f l a = Some ([], dt))
    end.
    { apply (fold_left_invariant
               (fun a : option (list Path.t * DateTime) => a = Some ([], dt)));
        [|reflexivity].
      intros a i Hi ->.
      destruct (makePathes_select_none data s i destinations dt
                  (fun sp_dist rp => H i sp_dist rp (rounds_In s i Hi)))
        as [-> _].
      reflexivity. }
    now rewrite Hf.
  - unfold makePathesreverse.
    match goal with
    | |- option_map fst (fold_left ?f ?l ?a) = _ =>
        assert (Hf : fold_left f l a = Some ([], dt))
    end.
    { apply (fold_left_invariant
               (fun a : option (list Path.t * DateTime) => a = Some ([], dt)));
        [|reflexivity].
      intros a i Hi ->.
      destruct (makePathes_select_none data s i destinations dt
                  (fun sp_dist rp => H i sp_dist rp (rounds_In s i Hi)))
        as [_ ->].
      reflexivity. }
    now rewrite Hf.
Qed.

Lemma fold_left_map {A B C} (f : A -> C -> A) (g : B -> C) (l : list B)
  (a : A) :
  fold_left f (map g l) a = fold_left (fun a x => f a (g x)) l a.
Proof.
  revert a; induction l as [|x l IH]; intros a; simpl; [reflexivity|].
  apply IH.
Qed.

Lemma fold_left_flat_map {A B C} (f : A -> C -> A) (g : B -> list C)
  (l : list B) (a : A) :
  fold_left f (flat_map g l) a
  = fold_left (fun a x => fold_left f (g x) a) l a.
Proof.
  revert a; induction l as [|x l IH]; intros a; simpl; [reflexivity|].
  rewrite fold_left_app. apply IH.
Qed.

Section ReverseSelection.
Context `{E : Externals}.
Variable data : Data.
Variable s : RAPTOR.
Variable i : N.

Lemma reverse_selection_flat (cands : list (idx_t * double)) :
  forall (b0 : DateTime) (rp0 : idx_t),
    let r := fold_left (reverse_select_step s i) cands (b0, rp0) in
    (b0 <= fst r)%N
    /\ ((r = (b0, rp0))
        \/ exists c, In c cands
                     /\ type (label s i (fst c)) <> uninitialized
                     /\ r = (reverse_offer s i c, fst c))
    /\ (forall c, In c cands ->
          type (label s i (fst c)) <> uninitialized ->
          (reverse_offer s i c <= fst r)%N).
Proof.
  induction cands as [|c cands IH]; intros b0 rp0; simpl.
  - splits; [lia|now left|intros c []].
  - assert (Hinit : is_uninitialized (label s i (fst c)) = true
                    <-> type (label s i (fst c)) = uninitialized).
    { unfold is_uninitialized. apply boarding_type_eqb_eq. }
    assert (Hs : reverse_select_step s i (b0, rp0) c
                 = if negb (is_uninitialized (label s i (fst c)))
                   then if (b0 <=? reverse_offer s i c)%N then (reverse_offer s i c, fst c)
                        else (b0, rp0)
                   else (b0, rp0)) by reflexivity.
    rewrite Hs. clear Hs.
    destruct (is_uninitialized (label s i (fst c))) eqn:Hu; simpl.
    + destruct (IH b0 rp0) as (I1 & I2 & I3). splits; [exact I1| |].
      * destruct I2 as [I2|(c' & C1 & C2 & C3)]; [now left|right].
        exists c'. auto.
      * intros c' [<-|Hc'] Hty; [|now apply I3].
        exfalso. apply Hty. now apply Hinit.
    + assert (Hty : type (label s i (fst c)) <> uninitialized).
      { intros Hc. apply Hinit in Hc. congruence. }
      destruct (N.leb_spec b0 (reverse_offer s i c)) as [Hle|Hgt].
      * destruct (IH (reverse_offer s i c) (fst c)) as (I1 & I2 & I3).
        splits; [lia| |].
        -- right. destruct I2 as [I2|(c' & C1 & C2 & C3)].
           ++ exists c. auto.
           ++ exists c'. auto.
        -- intros c' [<-|Hc'] Hty'; [exact I1|now apply I3].
      * destruct (IH b0 rp0) as (I1 & I2 & I3). splits; [exact I1| |].
        -- destruct I2 as [I2|(c' & C1 & C2 & C3)]; [now left|right].
           exists c'. auto.
        -- intros c' [<-|Hc'] Hty'; [lia|now apply I3].
Qed.

Lemma makePathesreverse_select_flat (destinations : list (idx_t * double))
  (best_dt : DateTime) :
  makePathesreverse_select data s i destinations best_dt
  = fold_left (reverse_select_step s i)
      (flat_map (fun p : idx_t * double =>
                   map (fun rp => (rp, snd p))
                       (route_point_list (stop_point data (fst p))))
                destinations)
      (best_dt, invalid_idx).
Proof.
  unfold makePathesreverse_select. rewrite fold_left_flat_map.
  apply fold_left_ext. intros a p. rewrite fold_left_map.
  apply fold_left_ext. intros [b rp] dest. reflexivity.
Qed.

Lemma makePathesreverse_select_spec (destinations : list (idx_t * double))
  (best_dt : DateTime) :
  let r := makePathesreverse_select data s i destinations best_dt in
  (best_dt <= fst r)%N
  /\ ((r = (best_dt, invalid_idx))
      \/ exists sp_dist,
           In sp_dist destinations
           /\ In (snd r) (route_point_list (stop_point data (fst sp_dist)))
           /\ type (label s i (snd r)) <> uninitialized
           /\ fst r = reverse_offer s i (snd r, snd sp_dist))
  /\ (forall sp_dist rp,
        In sp_dist destinations ->
        In rp (route_point_list (stop_point data (fst sp_dist))) ->
        type (label s i rp) <> uninitialized ->
        (reverse_offer s i (rp, snd sp_dist) <= fst r)%N).
Proof.
  cbv zeta. rewrite makePathesreverse_select_flat.
  match goal with
  | |- context [fold_left (reverse_select_step s i) ?cands _] =>
      destruct (reverse_selection_flat cands best_dt invalid_idx)
        as (H1 & H2 & H3)
  end.
  splits; [exact H1| |].
  - destruct H2 as [H2|(c & C1 & C2 & C3)]; [now left|right].
    apply in_flat_map in C1. destruct C1 as (p & P1 & P2).
    apply in_map_iff in P2. destruct P2 as (rp & <- & P3).
    exists p. rewrite C3. simpl. auto.
  - intros p rp Hp Hrp Hty. apply (H3 (rp, snd p)); [|exact Hty].
    apply in_flat_map. exists p. split; [exact Hp|].
    apply in_map_iff. exists rp. auto.
Qed.

End ReverseSelection.

(** X18.  What [makePathesreverse] retains in a round: among the
    destination route points that hold a label in the round, one whose
    departure, the egress walk (metres over 1.38) taken off, is the latest,
    provided it is not earlier than the bound carried in; the bound carried
    on is that instant, and it never decreases.  When none qualifies,
    nothing is retained and the bound is kept. *)
Theorem makePathesreverse_select_latest `{E : Externals} (data : Data)
  (s : RAPTOR) (i : N) (destinations : list (idx_t * double))
  (best_dt : DateTime) :
  let offer (rp : idx_t) (dist : double) :=
    DT.minus (departure (label s i rp))
      (double_seconds (QArith_base.Qdiv dist (QArith_base.Qmake 138 100))) in
  let r := makePathesreverse_select data s i destinations best_dt in
  (best_dt <= fst r)%N
  /\ ((r = (best_dt, invalid_idx))
      \/ exists sp_dist,
           In sp_dist destinations
           /\ In (snd r) (route_point_list (stop_point data (fst sp_dist)))
           /\ type (label s i (snd r)) <> uninitialized
           /\ fst r = offer (snd r) (snd sp_dist))
  /\ (forall sp_dist rp,
        In sp_dist destinations ->
        In rp (route_point_list (stop_point data (fst sp_dist))) ->
        type (label s i rp) <> uninitialized ->
        (offer rp (snd sp_dist) <= fst r)%N).
Proof. apply makePathesreverse_select_spec. Qed.

(** ** The items of a path *)

Lemma hd_rev {A} (d : A) (l : list A) : hd d (rev l) = last l d.
Proof.
  induction l as [|x l IH] using rev_ind; [reflexivity|].
  rewrite rev_app_distr, last_last. reflexivity.
Qed.

Lemma last_rev {A} (d : A) (l : list A) : last (rev l) d = hd d l.
Proof.
  destruct l as [|x l]; [reflexivity|].
  simpl. now rewrite last_last.
Qed.

Section ItemFacts.
Context `{E : Externals}.
Variable data : Data.

Lemma push_stop_grown reverse item sp w st :
  item_grown 1 item (fst (push_times reverse (push_stop_point item sp) w st)).
Proof.
  unfold item_grown, push_times, push_stop_point, push_arrival, push_departure.
  destruct reverse; simpl; rewrite ?length_app; simpl; auto.
Qed.

Lemma leg_loop_grown fuel reverse emb :
  forall item w st cur item' w' st' cur',
    leg_loop data fuel reverse emb item w st cur = Some (item', w', st', cur') ->
    exists n, item_grown n item item'.
Proof.
  induction fuel as [|fuel IH]; intros item w st cur item' w' st' cur' H.
  - simpl in H. destruct (emb =? cur)%N; [|discriminate].
    injection H as <- _ _ _. exists 0%nat. unfold item_grown.
    rewrite !Nat.add_0_r. auto.
  - simpl in H. destruct (emb =? cur)%N.
    + injection H as <- _ _ _. exists 0%nat. unfold item_grown.
      rewrite !Nat.add_0_r. auto.
    + pose proof (push_stop_grown reverse item
                    (stop_point_idx (route_point data cur)) w st) as Hg.
      destruct (push_times reverse
                  (push_stop_point item
                     (stop_point_idx (route_point data cur))) w st)
        as [item1 w1].
      simpl in Hg.
      match type of H with
      | match ?x with _ => _ end = _ => destruct x as [st1|]; [|discriminate]
      end.
      destruct (IH _ _ _ _ _ _ _ _ H) as (n & G1 & G2 & G3 & G4).
      destruct Hg as (K1 & K2 & K3 & K4).
      exists (S n). unfold item_grown. splits; try congruence; lia.
Qed.

Lemma makePath_step_shape fuel (s : RAPTOR) reverse items cur cb re items'
  cur' cb' re' :
  makePath_step data fuel s reverse items cur cb re
  = Some (items', cur', cb', re') ->
  items' = items
  \/ exists item, items' = items ++ [item] /\ item_shape reverse item.
Proof.
  unfold makePath_step.
  destruct (is_connection_type (type (label s cb cur))) eqn:Hc.
  - intros H. injection H as <- _ _ _. right. eexists. split; [reflexivity|].
    unfold is_connection_type in Hc.
    destruct (type (label s cb cur)); simpl in Hc; try discriminate;
      destruct reverse; unfold item_shape; simpl; auto.
  - destruct (re =? invalid_idx)%N.
    + destruct (at_stop_time data (stop_time_idx (label s cb cur)))
        as [st|]; [|discriminate].
      match goal with
      | |- match leg_loop data fuel reverse ?e ?it ?w ?st0 ?c with _ => _ end
           = _ -> _ =>
          destruct (leg_loop data fuel reverse e it w st0 c)
            as [[[[item1 w1] st1] cur1]|] eqn:Hleg; [|discriminate];
          destruct (leg_loop_grown _ _ _ _ _ _ _ _ _ _ _ Hleg)
            as (n & G1 & G2 & G3 & G4)
      end.
      pose proof (push_stop_grown reverse item1
                    (stop_point_idx (route_point data cur1)) w1 st1) as Hg.
      destruct (push_times reverse
                  (push_stop_point item1
                     (stop_point_idx (route_point data cur1))) w1 st1)
        as [item2 w2].
      simpl in Hg. destruct Hg as (K1 & K2 & K3 & K4).
      simpl in G1, G2, G3, G4.
      intros H. injection H as <- _ _ _. right. eexists.
      split; [reflexivity|].
      unfold item_shape.
      destruct reverse; simpl; rewrite K1, G1; simpl;
        splits; try reflexivity; lia.
    + intros H. injection H as <- _ _ _. now left.
Qed.

Lemma makePath_loop_shape fuel (s : RAPTOR) reverse :
  forall items cur cb re res,
    makePath_loop data fuel s reverse items cur cb re = Some res ->
    Forall (item_shape reverse) items ->
    Forall (item_shape reverse) res.
Proof.
  induction fuel as [|fuel IH]; intros items cur cb re res H Hall;
    [discriminate|].
  simpl in H.
  destruct (makePath_step data fuel s reverse items cur cb re)
    as [[[[items1 cur1] cb1] re1]|] eqn:Hstep; [|discriminate].
  assert (Hall1 : Forall (item_shape reverse) items1).
  { destruct (makePath_step_shape _ _ _ _ _ _ _ _ _ _ _ Hstep)
      as [->|(item & -> & Hitem)]; [exact Hall|].
    apply Forall_app. split; [exact Hall|]. now constructor. }
  destruct (boarding_type_eqb (type (label s cb1 cur1)) depart).
  - now injection H as <-.
  - now apply (IH _ _ _ _ _ H).
Qed.

Lemma reverse_item_shape (item : PathItem.t) :
  item_shape false item -> item_shape true (reverse_item item).
Proof.
  unfold item_shape, reverse_item. simpl.
  destruct (PathItem.type item).
  - rewrite !length_rev, last_rev, hd_rev. tauto.
  - rewrite !length_rev. intros (H1 & -> & ->). auto.
  - rewrite !length_rev. intros (H1 & -> & ->). auto.
  - rewrite !length_rev. intros (H1 & -> & ->). auto.
Qed.

Lemma makePath_shape fuel (s : RAPTOR) destination_idx countb reverse p :
  makePath data fuel s destination_idx countb reverse = Some p ->
  Forall (item_shape true) (Path.items p).
Proof.
  unfold makePath.
  destruct (makePath_loop data fuel s reverse [] destination_idx countb
              invalid_idx) as [items|] eqn:Hloop; [|discriminate].
  intros H. injection H as <-. unfold finish_path. simpl.
  pose proof (makePath_loop_shape _ _ _ _ _ _ _ _ Hloop (Forall_nil _))
    as Hall.
  destruct reverse; simpl; [exact Hall|].
  apply Forall_map, Forall_rev.
  eapply Forall_impl; [|exact Hall]. apply reverse_item_shape.
Qed.

Lemma makePath_step_without_stop_time fuel (s : RAPTOR) destination_idx
  countb reverse items :
  is_connection_type (type (label s countb destination_idx)) = false ->
  (vsize (stop_times data)
   <= stop_time_idx (label s countb destination_idx))%N ->
  at_stop_time data (stop_time_idx (label s countb destination_idx)) = None
  /\ makePath_step data fuel s reverse items destination_idx countb
                   invalid_idx = None.
Proof.
  intros Hc Hst.
  assert (Hat : at_stop_time data
                  (stop_time_idx (label s countb destination_idx)) = None).
  { unfold at_stop_time.
    destruct (N.ltb_spec (stop_time_idx (label s countb destination_idx))
                (vsize (stop_times data))); [lia|reflexivity]. }
  split; [exact Hat|].
  unfold makePath_step. now rewrite Hc, N.eqb_refl, Hat.
Qed.

Lemma makePath_without_stop_time fuel (s : RAPTOR) destination_idx countb
  reverse :
  is_connection_type (type (label s countb destination_idx)) = false ->
  (vsize (stop_times data)
   <= stop_time_idx (label s countb destination_idx))%N ->
  makePath data fuel s destination_idx countb reverse = None.
Proof.
  intros Hc Hst. unfold makePath.
  destruct fuel as [|fuel]; [reflexivity|].
  cbn [makePath_loop].
  destruct (makePath_step_without_stop_time fuel s destination_idx countb
              reverse [] Hc Hst) as [_ ->].
  reflexivity.
Qed.

Lemma rides_app items item :
  rides (items ++ [item])
  = (rides items
     + if ItemType.eqb (PathItem.type item) ItemType.public_transport
       then 1 else 0)%nat.
Proof.
  unfold rides. rewrite filter_app, length_app. simpl.
  destruct (ItemType.eqb (PathItem.type item) ItemType.public_transport);
    reflexivity.
Qed.

Lemma makePath_step_rides fuel (s : RAPTOR) reverse items cur cb items'
  cur' cb' re' :
  makePath_step data fuel s reverse items cur cb invalid_idx
  = Some (items', cur', cb', re') ->
  re' = invalid_idx
  /\ ((rides items' = rides items /\ cb' = cb)
      \/ (rides items' = S (rides items)
          /\ cb' = (if (cb =? 0)%N then uint32_max else cb - 1)%N)).
Proof.
  unfold makePath_step.
  destruct (is_connection_type (type (label s cb cur))) eqn:Hc.
  - intros H. injection H as <- _ <- <-. split; [reflexivity|left].
    split; [|reflexivity]. rewrite rides_app.
    unfold is_connection_type in Hc.
    destruct (type (label s cb cur)); simpl in Hc; try discriminate;
      destruct reverse; simpl; lia.
  - rewrite N.eqb_refl.
    destruct (at_stop_time data (stop_time_idx (label s cb cur)))
      as [st|]; [|discriminate].
    match goal with
    | |- match leg_loop data fuel reverse ?e ?it ?w ?st0 ?c with _ => _ end
         = _ -> _ =>
        destruct (leg_loop data fuel reverse e it w st0 c)
          as [[[[item1 w1] st1] cur1]|] eqn:Hleg; [|discriminate];
        destruct (leg_loop_grown _ _ _ _ _ _ _ _ _ _ _ Hleg)
          as (n & G1 & G2 & G3 & G4)
    end.
    pose proof (push_stop_grown reverse item1
                  (stop_point_idx (route_point data cur1)) w1 st1) as Hg.
    destruct (push_times reverse
                (push_stop_point item1
                   (stop_point_idx (route_point data cur1))) w1 st1)
      as [item2 w2].
    simpl in Hg. destruct Hg as (K1 & K2 & K3 & K4).
    simpl in G1.
    intros H. injection H as <- _ <- <-. split; [reflexivity|right].
    split; [|reflexivity]. rewrite rides_app.
    destruct reverse; simpl; rewrite K1, G1; simpl; lia.
Qed.

Hypothesis stop_times_fit : (vsize (stop_times data) <= invalid_idx)%N.

Lemma makePath_loop_wrapped fuel (s : RAPTOR) reverse items cur :
  (vsize (retour s) <= uint32_max)%N ->
  makePath_loop data fuel s reverse items cur uint32_max invalid_idx = None.
Proof.
  intros Hrows. destruct fuel as [|fuel]; [reflexivity|].
  simpl. unfold makePath_step.
  assert (Hl : label s uint32_max cur = retour_default).
  { unfold label. rewrite (vget_out_of_range [] (retour s)) by exact Hrows.
    reflexivity. }
  rewrite Hl. simpl. unfold at_stop_time.
  destruct (N.ltb_spec invalid_idx (vsize (stop_times data)));
    [lia|reflexivity].
Qed.

Lemma makePath_loop_rides fuel (s : RAPTOR) reverse :
  (vsize (retour s) <= uint32_max)%N ->
  forall items cur cb res,
    makePath_loop data fuel s reverse items cur cb invalid_idx = Some res ->
    (rides res <= rides items + N.to_nat cb)%nat.
Proof.
  intros Hrows.
  induction fuel as [|fuel IH]; intros items cur cb res H; [discriminate|].
  simpl in H.
  destruct (makePath_step data fuel s reverse items cur cb invalid_idx)
    as [[[[items1 cur1] cb1] re1]|] eqn:Hstep; [|discriminate].
  destruct (makePath_step_rides _ _ _ _ _ _ _ _ _ _ Hstep)
    as [-> [[R1 ->]|[R1 ->]]].
  - destruct (boarding_type_eqb (type (label s cb cur1)) depart).
    + injection H as <-. lia.
    + specialize (IH _ _ _ _ H). lia.
  - destruct (N.eqb_spec cb 0) as [->|Hne].
    + assert (Hl : label s uint32_max cur1 = retour_default).
      { unfold label.
        rewrite (vget_out_of_range [] (retour s)) by exact Hrows.
        reflexivity. }
      rewrite Hl in H. simpl in H.
      rewrite makePath_loop_wrapped in H by exact Hrows. discriminate.
    + destruct (boarding_type_eqb (type (label s (cb - 1) cur1)) depart).
      * injection H as <-. lia.
      * specialize (IH _ _ _ _ H). lia.
Qed.

Lemma rides_finish (s : RAPTOR) reverse items :
  rides (Path.items (finish_path data s reverse items)) = rides items.
Proof.
  unfold finish_path, rides. simpl. destruct reverse; simpl; [reflexivity|].
  induction items as [|x items IH] using rev_ind; [reflexivity|].
  rewrite rev_app_distr. simpl. rewrite filter_app, length_app. simpl.
  rewrite <- IH.
  destruct (ItemType.eqb (PathItem.type x) ItemType.public_transport);
    simpl; lia.
Qed.

Lemma makePath_rides fuel (s : RAPTOR) destination_idx countb reverse p :
  (vsize (retour s) <= uint32_max)%N ->
  makePath data fuel s destination_idx countb reverse = Some p ->
  (N.of_nat
     (List.length
        (filter (fun item =>
                   ItemType.eqb (PathItem.type item)
                                ItemType.public_transport)
                (Path.items p)))
   <= countb)%N.
Proof.
  intros Hrows. unfold makePath.
  destruct (makePath_loop data fuel s reverse [] destination_idx countb
              invalid_idx) as [items|] eqn:Hloop; [|discriminate].
  intros H. injection H as <-.
  pose proof (makePath_loop_rides fuel s reverse Hrows _ _ _ _ Hloop) as Hr.
  pose proof (rides_finish s reverse items) as Hf. unfold rides in *.
  simpl in Hr. lia.
Qed.


End ItemFacts.

(** X19.  Every item of a path [makePath] returns, in either direction, is
    well formed: a public-transport item lists as many arrivals and
    departures as stop points, at least one, departs at the first of its
    departures and arrives at the last of its arrivals; any other item joins
    two stop points and lists no time. *)
Theorem makePath_items_well_formed `{E : Externals} (data : Data)
  (fuel : nat) (s : RAPTOR) (destination_idx : idx_t) (countb : N)
  (reverse : bool) (p : Path.t) :
  makePath data fuel s destination_idx countb reverse = Some p ->
  Forall (item_shape true) (Path.items p).
Proof. apply makePath_shape. Qed.

(** X20.  [makePath] gives no path from a label that is not a connection
    and names no stop time, as a seed or an uninitialized label does: the
    first [stop_times.at] of the loop is out of range (the source throws
    [std::out_of_range]), so the first turn of the loop does not complete
    and nothing is returned. *)
Theorem makePath_from_a_label_without_stop_time `{E : Externals}
  (data : Data) (fuel : nat) (s : RAPTOR) (destination_idx : idx_t)
  (countb : N) (reverse : bool) :
  is_connection_type (type (label s countb destination_idx)) = false ->
  (vsize (stop_times data)
   <= stop_time_idx (label s countb destination_idx))%N ->
  at_stop_time data (stop_time_idx (label s countb destination_idx)) = None
  /\ makePath_step data fuel s reverse [] destination_idx countb invalid_idx
     = None
  /\ makePath data fuel s destination_idx countb reverse = None.
Proof.
  intros Hc Hst.
  destruct (makePath_step_without_stop_time data fuel s destination_idx
              countb reverse [] Hc Hst) as [H1 H2].
  splits; auto. now apply makePath_without_stop_time.
Qed.

(** ** The drivers *)

Section DriverFacts.
Context `{E : Externals}.
Variable data : Data.

Lemma init_depart_with_count cw (s : RAPTOR) item k :
  init_depart data cw (with_count s k) item
  = with_count (init_depart data cw s item) k.
Proof.
  unfold init_depart, set_label, set_best, set_Q, Q_at. simpl.
  repeat match goal with
         | |- context [if ?c then _ else _] => destruct c
         end; reflexivity.
Qed.

Lemma init_destination_with_count cw borne item (s : RAPTOR) rp k :
  init_destination data cw borne item (with_count s k) rp
  = with_count (init_destination data cw borne item s rp) k.
Proof.
  unfold init_destination, set_best, best_at. simpl.
  repeat match goal with
         | |- context [if ?c then _ else _] => destruct c
         end; reflexivity.
Qed.

Lemma fold_left_with_count {B} (f : RAPTOR -> B -> RAPTOR) (l : list B)
  (s : RAPTOR) k :
  (forall s x, f (with_count s k) x = with_count (f s x) k) ->
  fold_left f l (with_count s k) = with_count (fold_left f l s) k.
Proof.
  intros Hf. revert s; induction l as [|x l IH]; intros s; simpl;
    [reflexivity|].
  now rewrite Hf, IH.
Qed.

Lemma clear_and_init_fresh (s1 s2 : RAPTOR) departs destinations borne cw :
  b_dest s1 = b_dest s2 ->
  marked_rp s1 = marked_rp s2 ->
  marked_sp s1 = marked_sp s2 ->
  routes_valides s1 = routes_valides s2 ->
  clear_and_init data s1 departs destinations borne cw true
  = clear_and_init data s2 departs destinations borne cw true.
Proof.
  intros Hb Hrp Hsp Hrv. unfold clear_and_init.
  set (p1 := if cw then _ else _).
  set (p2 := if cw then _ else _).
  assert (Hp : p1 = (with_count (fst p2) (count s1), snd p2)).
  { unfold p1, p2. destruct s1, s2. simpl in *. subst.
    destruct cw; reflexivity. }
  destruct p2 as [s2' borne2]. rewrite Hp. simpl.
  rewrite fold_left_with_count
    by (intros; apply init_depart_with_count).
  rewrite fold_left_with_count.
  - reflexivity.
  - intros a item. apply fold_left_with_count.
    intros a0 rp. apply init_destination_with_count.
Qed.

End DriverFacts.

(** X21.  A query does not see the labels an earlier query left in the
    engine: the single-datetime drivers give the same answer from two
    engines that agree on the tracker and on the two marking bitsets,
    whatever their labels, [best], queue, validity bitset and round
    counter. *)
Theorem compute_all_from_a_used_engine `{E : Externals} (data : Data)
  (fuel : nat) (s1 s2 : RAPTOR)
  (departs destinations : list (idx_t * double)) (dt_depart borne : DateTime)
  (forbidden : list (string * string)) :
  b_dest s1 = b_dest s2 ->
  marked_rp s1 = marked_rp s2 ->
  marked_sp s1 = marked_sp s2 ->
  compute_all data fuel s1 departs destinations dt_depart borne forbidden
  = compute_all data fuel s2 departs destinations dt_depart borne forbidden
  /\ compute_reverse_all data fuel s1 departs destinations dt_depart borne
                         forbidden
     = compute_reverse_all data fuel s2 departs destinations dt_depart borne
                           forbidden.
Proof.
  intros Hb Hrp Hsp. unfold compute_all, compute_reverse_all.
  split.
  - rewrite (clear_and_init_fresh data
               (set_routes_valides data s1 (DT.date dt_depart) forbidden)
               (set_routes_valides data s2 (DT.date dt_depart) forbidden));
      auto.
  - rewrite (clear_and_init_fresh data
               (set_routes_valides data s1 (DT.date dt_depart) forbidden)
               (set_routes_valides data s2 (DT.date dt_depart) forbidden));
      auto.
Qed.

(** X22.  An arrive-by query has no bound under either sentinel: in
    reverse mode [clear_and_init] turns the bound [INF] into [MIN], so
    [compute_reverse_all] and [compute] answer alike for the bounds [INF]
    and [MIN], and [compute] without a bound is [compute] with the
    direction's sentinel. *)
Theorem reverse_bound_sentinels_agree `{E : Externals} (data : Data)
  (forbidden_default : list (string * string)) (fuel : nat) (s : RAPTOR) :
  (forall departs destinations dt_depart forbidden,
     compute_reverse_all data fuel s departs destinations dt_depart DT.inf
                         forbidden
     = compute_reverse_all data fuel s departs destinations dt_depart DT.min
                           forbidden)
  /\ (forall departure_idx destination_idx departure_hour departure_day,
        compute_borne data forbidden_default fuel s departure_idx
                      destination_idx departure_hour departure_day DT.inf
                      false
        = compute data forbidden_default fuel s departure_idx
                  destination_idx departure_hour departure_day false
        /\ compute_borne data forbidden_default fuel s departure_idx
                         destination_idx departure_hour departure_day DT.inf
                         true
           = compute data forbidden_default fuel s departure_idx
                     destination_idx departure_hour departure_day true).
Proof.
  assert (H : forall departs destinations dt_depart forbidden,
            compute_reverse_all data fuel s departs destinations dt_depart
                                DT.inf forbidden
            = compute_reverse_all data fuel s departs destinations dt_depart
                                  DT.min forbidden).
  { intros. unfold compute_reverse_all.
    replace (clear_and_init data
               (set_routes_valides data s (DT.date dt_depart) forbidden)
               (getDepartures destinations dt_depart false data) departs
               DT.inf false true)
      with (clear_and_init data
              (set_routes_valides data s (DT.date dt_depart) forbidden)
              (getDepartures destinations dt_depart false data) departs
              DT.min false true) by reflexivity.
    reflexivity. }
  split; [exact H|].
  intros. split; [|reflexivity].
  unfold compute, compute_borne. apply H.
Qed.

Section SortFacts.

Lemma sorted_insert_length before x l :
  List.length (sorted_insert before x l) = S (List.length l).
Proof.
  induction l as [|y l IH]; simpl; [reflexivity|].
  destruct (before x y); simpl; [reflexivity|]. now rewrite IH.
Qed.

Lemma sorted_insert_In before x l y :
  In y (sorted_insert before x l) <-> y = x \/ In y l.
Proof.
  induction l as [|z l IH]; simpl.
  - split; intros [H|H]; auto.
  - destruct (before x z); simpl.
    + split; intros [H|H]; auto.
    + rewrite IH. split; intros H; tauto.
Qed.

Lemma std_sort_length before l :
  List.length (std_sort before l) = List.length l.
Proof.
  induction l as [|x l IH]; simpl; [reflexivity|].
  now rewrite sorted_insert_length, IH.
Qed.

Lemma std_sort_In before l y : In y (std_sort before l) <-> In y l.
Proof.
  induction l as [|x l IH]; simpl; [tauto|].
  rewrite sorted_insert_In, IH. split; intros [H|H]; auto.
Qed.

End SortFacts.

Lemma fold_paths_bound {A S0 : Type}
  (f : option (list (Path.t * N) * S0) -> A -> option (list (Path.t * N) * S0))
  (hour : A -> N) (todo : list A) :
  (forall x, f None x = None) ->
  (forall res s x res' s',
     f (Some (res, s)) x = Some (res', s') ->
     res' = res \/ exists path, res' = res ++ [(path, hour x)]) ->
  forall res s res' s',
    fold_left f todo (Some (res, s)) = Some (res', s') ->
    exists extra,
      res' = res ++ extra
      /\ (List.length extra <= List.length todo)%nat
      /\ Forall (fun p => In (snd p) (map hour todo)) extra.
Proof.
  intros Hnone Hstep. induction todo as [|x todo IH]; intros res s res' s' H.
  - simpl in H. injection H as <- <-. exists []. rewrite app_nil_r.
    splits; auto.
  - simpl in H. destruct (f (Some (res, s)) x) as [[res1 s1]|] eqn:Hf.
    + destruct (IH _ _ _ _ H) as (extra & -> & Hlen & Hall).
      assert (Hall' : Forall (fun p : Path.t * N =>
                                In (snd p) (map hour (x :: todo))) extra).
      { eapply Forall_impl; [|exact Hall]. intros p Hp. now right. }
      destruct (Hstep _ _ _ _ _ Hf) as [->|(path & ->)].
      * exists extra. splits; auto. simpl. lia.
      * exists ((path, hour x) :: extra). rewrite <- app_assoc.
        splits; [reflexivity|simpl; lia|].
        constructor; [now left|exact Hall'].
    + rewrite fold_option_none in H by exact Hnone. discriminate.
Qed.

Section DatetimesFacts.
Context `{E : Externals}.
Variable data : Data.
Variable departure_default : DateTime.

Lemma compute_all_paths_bound fuel departs (s : RAPTOR) todo result s' :
  compute_all_paths data departure_default fuel departs s todo
  = Some (result, s') ->
  (List.length result <= List.length todo)%nat
  /\ Forall (fun p => In (snd p) (map (fun b_dt => DT.hour (snd b_dt)) todo))
            result.
Proof.
  unfold compute_all_paths. intros H.
  match type of H with
  | fold_left ?f _ _ = _ =>
      pose proof (fold_paths_bound f (fun b_dt : best_dest * DateTime =>
                                        DT.hour (snd b_dt)) todo
                    (fun _ => eq_refl)) as Hb
  end.
  edestruct Hb as (extra & Heq & Hlen & Hall); [|exact H|].
  - intros res s0 [b dt] res1 s1.
    repeat match goal with
           | |- context [if ?c then _ else _] => destruct c
           | |- context [match ?x with Some _ => _ | None => _ end] =>
               destruct x
           end; intros Hs; try discriminate; injection Hs as <- _; eauto.
  - simpl in Heq. subst result. auto.
Qed.

Lemma compute_reverse_all_paths_bound fuel departs destinations (s : RAPTOR)
  todo result s' :
  compute_reverse_all_paths data departure_default fuel departs destinations
                            s todo
  = Some (result, s') ->
  (List.length result <= List.length todo)%nat
  /\ Forall (fun p => In (snd p) (map (fun b_dt => DT.hour (snd b_dt)) todo))
            result.
Proof.
  unfold compute_reverse_all_paths. intros H.
  match type of H with
  | fold_left ?f _ _ = _ =>
      pose proof (fold_paths_bound f (fun b_dt : best_dest * DateTime =>
                                        DT.hour (snd b_dt)) todo
                    (fun _ => eq_refl)) as Hb
  end.
  edestruct Hb as (extra & Heq & Hlen & Hall); [|exact H|].
  - intros res s0 [b dt] res1 s1.
    repeat match goal with
           | |- context [if ?c then _ else _] => destruct c
           | |- context [match ?x with Some _ => _ | None => _ end] =>
               destruct x
           end; intros Hs; try discriminate; injection Hs as <- _; eauto.
  - simpl in Heq. subst result. auto.
Qed.

Lemma combine_hours {A} (bests : list A) (dts : list DateTime)
  (result : list (Path.t * N)) :
  Forall (fun p => In (snd p)
                      (map (fun b_dt : A * DateTime => DT.hour (snd b_dt))
                           (List.combine bests dts))) result ->
  Forall (fun p => In (snd p) (map DT.hour dts)) result.
Proof.
  intros H. eapply Forall_impl; [|exact H]. intros p Hp.
  apply in_map_iff in Hp. destruct Hp as ([b dt] & <- & Hin).
  apply in_combine_r in Hin. simpl. now apply in_map.
Qed.

End DatetimesFacts.

(** X23.  The drivers that take a vector of datetimes return at most one
    path per datetime, and the request time of every path they return is
    the hour of one of the datetimes given. *)
Theorem datetimes_drivers_one_path_each `{E : Externals} (data : Data)
  (departure_default : DateTime) (fuel : nat) (s : RAPTOR)
  (departs destinations : list (idx_t * double)) (dt_departs : list DateTime)
  (borne : DateTime) (result : list (Path.t * N)) (s' : RAPTOR) :
  compute_all_datetimes data departure_default fuel s departs destinations
                        dt_departs borne = Some (result, s')
  \/ compute_reverse_all_datetimes data departure_default fuel s departs
                                   destinations dt_departs borne
     = Some (result, s') ->
  (List.length result <= List.length dt_departs)%nat
  /\ Forall (fun p => In (snd p) (map DT.hour dt_departs)) result.
Proof.
  assert (Hgen : forall before (bests : list best_dest),
            (List.length result
             <= List.length (List.combine bests (std_sort before dt_departs)))%nat
            /\ Forall (fun p => In (snd p)
                         (map (fun b_dt : best_dest * DateTime =>
                                 DT.hour (snd b_dt))
                              (List.combine bests
                                 (std_sort before dt_departs)))) result ->
            (List.length result <= List.length dt_departs)%nat
            /\ Forall (fun p => In (snd p) (map DT.hour dt_departs)) result).
  { intros before bests [Hlen Hall]. split.
    - rewrite length_combine, std_sort_length in Hlen. lia.
    - apply combine_hours in Hall. eapply Forall_impl; [|exact Hall].
      intros p Hp. apply in_map_iff in Hp. destruct Hp as (dt & <- & Hin).
      apply std_sort_In in Hin. now apply in_map. }
  intros [H|H].
  - unfold compute_all_datetimes in H.
    destruct (compute_all_passes data fuel departs destinations borne _ s)
      as [[[s1 bests] reset]|]; [|discriminate].
    apply compute_all_paths_bound in H. now apply Hgen in H.
  - unfold compute_reverse_all_datetimes in H.
    destruct (compute_reverse_all_passes data fuel departs destinations borne
                _ s) as [[[s1 bests] reset]|]; [|discriminate].
    apply compute_reverse_all_paths_bound in H. now apply Hgen in H.
Qed.

(** ** The pivot of a stop point *)

Section PivotChoice.
Context `{E : Externals}.
Variable s : RAPTOR.

Lemma eligible_test (rp : idx_t) :
  boarding_type_eqb (type (label s (count s) rp)) vj
  || boarding_type_eqb (type (label s (count s) rp)) depart = true
  <-> pivot_eligible s rp.
Proof.
  unfold pivot_eligible. rewrite orb_true_iff, !boarding_type_eqb_eq. tauto.
Qed.

Lemma select_pivot_forward_from (rps : list idx_t) :
  forall (a0 : DateTime) (rp0 : idx_t),
    let r := fold_left (pivot_step walking_visitor s) rps (a0, rp0) in
    (fst r <= a0)%N
    /\ (forall rp', In rp' rps -> pivot_eligible s rp' -> (fst r <= pivot_arrival s rp')%N)
    /\ (r = (a0, rp0)
        \/ (In (snd r) rps /\ pivot_eligible s (snd r) /\ fst r = pivot_arrival s (snd r)
            /\ (fst r < a0)%N)).
Proof.
  induction rps as [|x rps IH]; intros a0 rp0; cbn [fold_left].
  - cbn [fst snd]. splits; [lia|intros rp' []|now left].
  - assert (Hs : pivot_step walking_visitor s (a0, rp0) x
                 = if (boarding_type_eqb (type (label s (count s) x)) vj
                       || boarding_type_eqb (type (label s (count s) x))
                                            depart)
                      && (arrival (label s (count s) x) <? a0)%N
                   then (arrival (label s (count s) x), x)
                   else (a0, rp0)) by reflexivity.
    rewrite Hs. clear Hs.
    destruct (boarding_type_eqb (type (label s (count s) x)) vj
              || boarding_type_eqb (type (label s (count s) x)) depart)
      eqn:He; cbn [andb].
    + apply eligible_test in He.
      destruct (N.ltb_spec (arrival (label s (count s) x)) a0) as [Hlt|Hge].
      * destruct (IH (arrival (label s (count s) x)) x) as (I1 & I2 & I3).
        cbv zeta in *. splits; [lia| |].
        -- intros rp' [<-|Hin] Hel; [exact I1|now apply I2].
        -- right. destruct I3 as [->|(J1 & J2 & J3 & J4)]; cbn [fst snd].
           ++ splits; [now left|exact He|reflexivity|exact Hlt].
           ++ splits; [now right|exact J2|exact J3|lia].
      * destruct (IH a0 rp0) as (I1 & I2 & I3). cbv zeta in *.
        splits; [exact I1| |].
        -- intros rp' [<-|Hin] Hel; [unfold pivot_arrival; lia|now apply I2].
        -- destruct I3 as [->|(J1 & J2 & J3 & J4)]; [now left|right].
           splits; [now right|exact J2|exact J3|exact J4].
    + assert (Hne : ~ pivot_eligible s x).
      { intros Hel. apply eligible_test in Hel. congruence. }
      destruct (IH a0 rp0) as (I1 & I2 & I3). cbv zeta in *.
      splits; [exact I1| |].
      * intros rp' [<-|Hin] Hel; [contradiction|now apply I2].
      * destruct I3 as [->|(J1 & J2 & J3 & J4)]; [now left|right].
        splits; [now right|exact J2|exact J3|exact J4].
Qed.

Lemma select_pivot_backward_from (rps : list idx_t) :
  forall (a0 : DateTime) (rp0 : idx_t),
    let r := fold_left (pivot_step walking_backwards_visitor s) rps (a0, rp0) in
    (a0 <= fst r)%N
    /\ (forall rp', In rp' rps -> pivot_eligible s rp' -> (pivot_arrival s rp' <= fst r)%N)
    /\ (r = (a0, rp0)
        \/ (In (snd r) rps /\ pivot_eligible s (snd r) /\ fst r = pivot_arrival s (snd r)
            /\ (a0 < fst r)%N)).
Proof.
  induction rps as [|x rps IH]; intros a0 rp0; cbn [fold_left].
  - cbn [fst snd]. splits; [lia|intros rp' []|now left].
  - assert (Hs : pivot_step walking_backwards_visitor s (a0, rp0) x
                 = if (boarding_type_eqb (type (label s (count s) x)) vj
                       || boarding_type_eqb (type (label s (count s) x))
                                            depart)
                      && (a0 <? arrival (label s (count s) x))%N
                   then (arrival (label s (count s) x), x)
                   else (a0, rp0)) by reflexivity.
    rewrite Hs. clear Hs.
    destruct (boarding_type_eqb (type (label s (count s) x)) vj
              || boarding_type_eqb (type (label s (count s) x)) depart)
      eqn:He; cbn [andb].
    + apply eligible_test in He.
      destruct (N.ltb_spec a0 (arrival (label s (count s) x))) as [Hlt|Hge].
      * destruct (IH (arrival (label s (count s) x)) x) as (I1 & I2 & I3).
        cbv zeta in *. splits; [lia| |].
        -- intros rp' [<-|Hin] Hel; [exact I1|now apply I2].
        -- right. destruct I3 as [->|(J1 & J2 & J3 & J4)]; cbn [fst snd].
           ++ splits; [now left|exact He|reflexivity|exact Hlt].
           ++ splits; [now right|exact J2|exact J3|lia].
      * destruct (IH a0 rp0) as (I1 & I2 & I3). cbv zeta in *.
        splits; [exact I1| |].
        -- intros rp' [<-|Hin] Hel; [unfold pivot_arrival; lia|now apply I2].
        -- destruct I3 as [->|(J1 & J2 & J3 & J4)]; [now left|right].
           splits; [now right|exact J2|exact J3|exact J4].
    + assert (Hne : ~ pivot_eligible s x).
      { intros Hel. apply eligible_test in Hel. congruence. }
      destruct (IH a0 rp0) as (I1 & I2 & I3). cbv zeta in *.
      splits; [exact I1| |].
      * intros rp' [<-|Hin] Hel; [contradiction|now apply I2].
      * destruct I3 as [->|(J1 & J2 & J3 & J4)]; [now left|right].
        splits; [now right|exact J2|exact J3|exact J4].
Qed.

End PivotChoice.

(** X24.  The pivot [foot_path] chooses for a stop point: among its route
    points that hold a vehicle-journey or departure label in the current
    round, one whose arrival is the earliest (forward) or the latest
    (reverse: the arrival is compared there too, not the departure), unless
    none beats the direction's worst value, in which case there is no
    pivot. *)
Theorem select_pivot_is_extremal `{E : Externals} (s : RAPTOR)
  (rps : list idx_t) :
  let eligible rp :=
    type (label s (count s) rp) = vj \/ type (label s (count s) rp) = depart in
  (let r := select_pivot walking_visitor s rps in
   (forall rp, In rp rps -> eligible rp ->
               (fst r <= arrival (label s (count s) rp))%N)
   /\ (r = (DT.inf, invalid_idx)
       \/ (In (snd r) rps /\ eligible (snd r)
           /\ fst r = arrival (label s (count s) (snd r))
           /\ (fst r < DT.inf)%N)))
  /\
  (let r := select_pivot walking_backwards_visitor s rps in
   (forall rp, In rp rps -> eligible rp ->
               (arrival (label s (count s) rp) <= fst r)%N)
   /\ (r = (DT.min, invalid_idx)
       \/ (In (snd r) rps /\ eligible (snd r)
           /\ fst r = arrival (label s (count s) (snd r))
           /\ (DT.min < fst r)%N))).
Proof.
  split.
  - destruct (select_pivot_forward_from s rps DT.inf invalid_idx)
      as (_ & H2 & H3).
    split; [exact H2|exact H3].
  - destruct (select_pivot_backward_from s rps DT.min invalid_idx)
      as (_ & H2 & H3).
    split; [exact H2|exact H3].
Qed.

(** X25.  A path reconstructed from round [countb] rides at most [countb]
    vehicles: it holds no more public-transport items than the round it
    starts from (the label vectors being within the range of their 32-bit
    indices). *)
Theorem makePath_rides_at_most_countb `{E : Externals} (data : Data)
  (fuel : nat) (s : RAPTOR) (destination_idx : idx_t) (countb : N)
  (reverse : bool) (p : Path.t) :
  (vsize (stop_times data) <= invalid_idx)%N ->
  (vsize (retour s) <= uint32_max)%N ->
  makePath data fuel s destination_idx countb reverse = Some p ->
  (N.of_nat
     (List.length
        (filter (fun item =>
                   ItemType.eqb (PathItem.type item)
                                ItemType.public_transport)
                (Path.items p)))
   <= countb)%N.
Proof. intros H1 H2. now apply makePath_rides. Qed.

(** ** The instant a footpath gives *)

Section WalkTimes.
Context `{E : Externals}.
Variable data : Data.
Variable v : WalkingVisitor.
Variable best_rp : idx_t.
Variable previous : DateTime.

Lemma relax_footpath_rp_carried dur (s : RAPTOR) next prec rp :
  let r := relax_footpath_rp data v best_rp previous dur (s, next, prec) rp in
  count (fst (fst r)) = count s
  /\ (snd (fst r), snd r)
     = (if negb (best_rp =? rp)%N
        then if negb (dur =? prec)%Z
             then (combine v previous dur, dur)
             else (next, prec)
        else (next, prec)).
Proof.
  unfold relax_footpath_rp.
  destruct (negb (best_rp =? rp)%N); [|split; reflexivity].
  destruct (negb (dur =? prec)%Z);
    match goal with
    | |- context [if ?c then _ else _] => destruct c
    end; simpl; split; try reflexivity;
    match goal with
    | |- count (offer_and_queue data v ?a ?b ?c) = _ =>
        destruct (offer_and_queue_labels data v a b c) as (_ & _ & -> & _)
    end; reflexivity.
Qed.

Lemma relax_footpath_rp_walked (s0 : RAPTOR) it n k acc rp :
  (k < n)%nat ->
  duration (footpath_at data it k) <> (-1)%Z ->
  In rp (route_point_list
           (stop_point data (destination_stop_point_idx (footpath_at data it k)))) ->
  carried data v best_rp previous s0 it n acc ->
  carried data v best_rp previous s0 it n
    (relax_footpath_rp data v best_rp previous (duration (footpath_at data it k))
                       acc rp).
Proof.
  intros Hk Hdur Hrp (C1 & C2 & C3).
  destruct acc as [[s next] prec]. simpl in C1, C2, C3.
  set (dur := duration (footpath_at data it k)) in *.
  destruct (relax_footpath_rp_carried dur s next prec rp) as [D1 D2].
  pose proof (relax_footpath_rp_labels data v best_rp previous dur s next prec
                rp) as D3.
  cbv zeta in D1, D2, D3.
  destruct (relax_footpath_rp data v best_rp previous dur (s, next, prec) rp)
    as [[s' next'] prec'].
  simpl in D1, D2, D3. unfold carried. simpl.
  assert (Hnext : (if negb (dur =? prec)%Z then combine v previous dur
                   else next) = combine v previous dur).
  { destruct (Z.eqb_spec dur prec) as [Heq|Hne]; simpl; [|reflexivity].
    destruct C2 as [C2|C2]; [congruence|]. now rewrite C2, Heq. }
  rewrite Hnext in D3.
  splits.
  - congruence.
  - destruct (N.eqb_spec best_rp rp) as [Heq|Hne]; simpl in D2.
    + injection D2 as -> ->. exact C2.
    + right.
      destruct (Z.eqb_spec dur prec) as [Heq|Hne']; simpl in D2;
        injection D2 as -> ->; [|reflexivity].
      destruct C2 as [C2|C2]; [congruence|exact C2].
  - intros rp'. unfold walked. rewrite C1 in D3.
    match type of D3 with
    | _ = (if ?c then _ else _) => destruct c eqn:Hc
    end.
    + rewrite (label_ext s'
                 (set_label s (count s0) rp
                    (retour_connection (combine v previous dur)
                       (combine v previous dur) best_rp))
                 D3 (count s0) rp').
      destruct (label_set_label_cases s (count s0) (count s0) rp rp'
                  (retour_connection (combine v previous dur)
                     (combine v previous dur) best_rp))
        as [->|(_ & <- & ->)]; [apply C3|].
      right. exists k.
      apply andb_prop in Hc. destruct Hc as [Hc _].
      apply negb_true_iff in Hc. apply N.eqb_neq in Hc.
      splits; auto.
    + rewrite (label_ext s' s D3 (count s0) rp'). apply C3.
Qed.

Lemma relax_footpaths_walked it n (s : RAPTOR) :
  (forall k, (k < Z.to_nat n)%nat ->
             duration (footpath_at data it k) <> (-1)%Z) ->
  carried data v best_rp previous s it (Z.to_nat n) (relax_footpaths data v best_rp previous it n s).
Proof.
  intros Hdur. unfold relax_footpaths.
  apply (fold_left_invariant (carried data v best_rp previous s it (Z.to_nat n))).
  - intros acc k Hk Hacc. apply in_seq in Hk.
    apply (fold_left_invariant (carried data v best_rp previous s it (Z.to_nat n))); [|exact Hacc].
    intros acc' rp Hrp Hacc'.
    apply (relax_footpath_rp_walked s it (Z.to_nat n) k acc' rp);
      auto; try lia. apply Hdur. lia.
  - unfold carried, walked. simpl. splits; auto.
Qed.

End WalkTimes.

(** X26.  The labels the footpaths of a pivot give: a label written while
    the footpaths at the positions [it .. it+n-1] of [foot_path] are
    relaxed sits at a route point of a footpath's destination stop point,
    other than the pivot, references the pivot, and its arrival and
    departure are the pivot's instant combined with the footpath's duration
    (added forward, subtracted in reverse), no footpath having the duration
    [-1] that the relaxer uses for "no duration seen yet". *)
Theorem relax_footpaths_walk_times `{E : Externals} (data : Data)
  (v : WalkingVisitor) (best_rp : idx_t) (previous : DateTime) (it n : Z)
  (s : RAPTOR) (rp : idx_t) :
  let footpath k :=
    vget Connection_default (foot_path data) (Z.to_N (it + Z.of_nat k)) in
  (forall k, (k < Z.to_nat n)%nat -> duration (footpath k) <> (-1)%Z) ->
  let s' := fst (fst (relax_footpaths data v best_rp previous it n s)) in
  label s' (count s) rp = label s (count s) rp
  \/ exists k,
       (k < Z.to_nat n)%nat
       /\ In rp (route_point_list
                   (stop_point data
                      (destination_stop_point_idx (footpath k))))
       /\ rp <> best_rp
       /\ label s' (count s) rp
          = retour_connection
              (combine v previous (duration (footpath k)))
              (combine v previous (duration (footpath k))) best_rp.
Proof.
  intros footpath Hdur s'.
  destruct (relax_footpaths_walked data v best_rp previous it n s Hdur)
    as (_ & _ & H). apply H.
Qed.

(** ** The footpath iterator *)

Section FootPathIterator.
Context `{E : Externals}.
Variable data : Data.
Variable v : WalkingVisitor.

Lemma foot_path_sp_aligned (s : RAPTOR) (it : Z) (sp : idx_t) :
  let rps := route_point_list (stop_point data sp) in
  let index := vget (0%Z, 0%Z) (footpath_index data) sp in
  let best_arrival := fst (select_pivot v s rps) in
  let best_rp := snd (select_pivot v s rps) in
  let s1 :=
    fold_left (relax_same_stop data v best_rp (combine v best_arrival 120))
              rps s in
  let r := foot_path_sp data v (s, it, it) sp in
  snd (fst r) = snd r
  /\ (best_rp <> invalid_idx ->
      fst (fst r)
      = fst (fst (relax_footpaths data v best_rp
                    (instant v (label s1 (count s1) best_rp))
                    (fst index) (snd index) s1))
      /\ snd r = (fst index + snd index)%Z)
  /\ (best_rp = invalid_idx -> r = (s, it, it)).
Proof.
  cbv zeta. unfold foot_path_sp.
  destruct (select_pivot v s (route_point_list (stop_point data sp)))
    as [best_arrival best_rp]. cbn [fst snd].
  destruct (N.eqb_spec best_rp invalid_idx) as [Heq|Hne]; cbn [negb].
  - splits; [reflexivity|contradiction|reflexivity].
  - set (index := vget (0%Z, 0%Z) (footpath_index data) sp).
    replace (it + (fst index - it))%Z with (fst index) by lia.
    set (s1 := fold_left _ _ s).
    destruct (relax_footpaths data v best_rp
                (instant v (label s1 (count s1) best_rp)) (fst index)
                (snd index) s1) as [[s2 nx] pd].
    cbn [fst snd]. splits; [reflexivity| |contradiction].
    intros _. split; reflexivity.
Qed.

Lemma foot_path_fold_aligned (l : list idx_t) :
  forall (s : RAPTOR) (it : Z),
    snd (fst (fold_left (foot_path_sp data v) l (s, it, it)))
    = snd (fold_left (foot_path_sp data v) l (s, it, it)).
Proof.
  induction l as [|sp l IH]; intros s it; [reflexivity|].
  cbn [fold_left].
  destruct (foot_path_sp_aligned s it sp) as [H _]. cbv zeta in H.
  destruct (foot_path_sp data v (s, it, it) sp) as [[s1 it1] last1].
  cbn [fst snd] in H. subst last1. apply IH.
Qed.

End FootPathIterator.

(** X27.  The iterator [foot_path] carries from one marked stop point to
    the next always stands where the last slice ended ([it] and [last]
    agree), so that the footpaths relaxed for a stop point that has a pivot
    are those its [footpath_index] entry designates: the [second] ones from
    position [first] of [foot_path]. *)
Theorem foot_path_reads_the_indexed_slice `{E : Externals} (data : Data)
  (v : WalkingVisitor) (s : RAPTOR) (it : Z) (sp : idx_t)
  (l : list idx_t) :
  (let r := fold_left (foot_path_sp data v) l (s, 0%Z, 0%Z) in
   snd (fst r) = snd r)
  /\
  (let rps := route_point_list (stop_point data sp) in
   let index := vget (0%Z, 0%Z) (footpath_index data) sp in
   let best_arrival := fst (select_pivot v s rps) in
   let best_rp := snd (select_pivot v s rps) in
   let s1 :=
     fold_left (relax_same_stop data v best_rp (combine v best_arrival 120))
               rps s in
   let r := foot_path_sp data v (s, it, it) sp in
   snd (fst r) = snd r
   /\ (best_rp <> invalid_idx ->
       fst (fst r)
       = fst (fst (relax_footpaths data v best_rp
                     (instant v (label s1 (count s1) best_rp))
                     (fst index) (snd index) s1))
       /\ snd r = (fst index + snd index)%Z)
   /\ (best_rp = invalid_idx -> r = (s, it, it))).
Proof.
  split.
  - apply foot_path_fold_aligned.
  - apply foot_path_sp_aligned.
Qed.

(** ** The rows a round writes *)

Section OwnRow.
Context `{E : Externals}.
Variable data : Data.

Lemma own_row_refl a : own_row a a.
Proof. split; auto. Qed.

Lemma own_row_trans a b c : own_row a b -> own_row b c -> own_row a c.
Proof.
  intros [H1 H2] [K1 K2]. split; [congruence|].
  intros k rp Hk. rewrite K2 by congruence. now apply H2.
Qed.

Lemma own_row_aux (a b : RAPTOR) :
  count b = count a ->
  (retour b = retour a
   \/ exists rp r, retour b = retour (set_label a (count a) rp r)) ->
  own_row a b.
Proof.
  intros Hc [Hr|(rp & r & Hr)]; split; auto; intros k rp' Hk.
  - now apply label_ext.
  - rewrite (label_ext b (set_label a (count a) rp r) Hr k rp').
    destruct (label_set_label_cases a (count a) k rp rp' r)
      as [->|(Heq & _)]; [reflexivity|congruence].
Qed.

Lemma store_better_own_row (s : RAPTOR) rpid wdt bound st emb :
  own_row s (fst (fst (store_better data s rpid wdt bound st emb)))
  /\ own_row s (fst (fst (store_better_reverse data s rpid wdt bound st emb))).
Proof.
  split.
  - unfold store_better.
    repeat match goal with
           | |- context [if ?c then _ else _] => destruct c
           | |- context [let '(_, _) := ?p in _] => destruct p
           end; simpl; apply own_row_aux; try reflexivity;
      solve [left; reflexivity | right; eexists; eexists; reflexivity].
  - unfold store_better_reverse.
    repeat match goal with
           | |- context [if ?c then _ else _] => destruct c
           | |- context [let '(_, _) := ?p in _] => destruct p
           end; simpl; apply own_row_aux; try reflexivity;
      solve [left; reflexivity | right; eexists; eexists; reflexivity].
Qed.

Lemma foot_path_run_own_row v (s : RAPTOR) :
  own_row s (foot_path_run data v s).
Proof.
  apply foot_path_run_preorder.
  - apply own_row_refl.
  - apply own_row_trans.
  - intros a rp r. apply own_row_aux; [reflexivity|].
    right. exists rp, r. reflexivity.
  - intros a rp r. apply own_row_aux; [reflexivity|now left].
  - intros a b. apply own_row_aux; [reflexivity|now left].
  - intros a r o _. apply own_row_aux; [reflexivity|now left].
Qed.

Lemma route_path_connections_own_row (s : RAPTOR) :
  own_row s (route_path_connections_forward data s)
  /\ own_row s (route_path_connections_backward data s).
Proof.
  split.
  - apply route_path_connections_forward_preorder.
    + apply own_row_refl.
    + apply own_row_trans.
    + intros a rp. apply own_row_aux; [reflexivity|now left].
    + intros a rp dt src kind _. apply own_row_aux; [reflexivity|].
      right. eexists. eexists. reflexivity.
    + intros a r o _. apply own_row_aux; [reflexivity|now left].
  - apply route_path_connections_backward_preorder.
    + apply own_row_refl.
    + apply own_row_trans.
    + intros a rp. apply own_row_aux; [reflexivity|now left].
    + intros a rp dt src kind _. apply own_row_aux; [reflexivity|].
      right. eexists. eexists. reflexivity.
    + intros a r o _. apply own_row_aux; [reflexivity|now left].
Qed.

Lemma raptor_round_own_row (v : Visitor) (row : list type_retour) gp
  (s : RAPTOR) b k rp :
  (forall s, own_row s (walking v s)) ->
  (forall s, own_row s (route_path_connections v s)) ->
  (forall s, v_make_queue v s = make_queue s) ->
  (forall s rp w bd st e,
     own_row s (fst (fst (v_store_better v s rp w bd st e)))) ->
  (forall s, one_more_step v s = with_retour s (retour s ++ [row])) ->
  k <> (count s + 1)%N ->
  (k < vsize (retour s))%N ->
  label (fst (fst (raptor_round data v gp s b))) k rp = label s k rp.
Proof.
  intros Hw Hc Hq Hs Hstep Hk Hlt. rewrite raptor_round_unfold.
  pose proof (scan_routes_preorder data v own_row own_row_refl own_row_trans
                (fun a r o => own_row_aux a (set_Q a r o) eq_refl
                                (or_introl eq_refl))
                Hs gp (routes data) (round_start v s, b, true)) as H1.
  destruct (fold_left (scan_route data v gp) (routes data)
              (round_start v s, b, true)) as [[s1 b1] e1].
  simpl in H1. simpl.
  assert (H2 : own_row (round_start v s)
                 (walking v (route_path_connections v s1))).
  { eapply own_row_trans; [exact H1|].
    eapply own_row_trans; [apply Hc|apply Hw]. }
  destruct H2 as [_ H2].
  assert (Hcount : count (round_start v s) = (count s + 1)%N).
  { unfold round_start. rewrite Hq. simpl.
    destruct (count s + 1 =? vsize (retour s))%N; [|reflexivity].
    now rewrite Hstep. }
  rewrite H2 by congruence.
  unfold round_start. rewrite Hq. unfold label. simpl.
  destruct (count s + 1 =? vsize (retour s))%N; [|reflexivity].
  rewrite Hstep. simpl. rewrite vget_app_last.
  destruct (N.ltb_spec k (vsize (retour s))); [reflexivity|lia].
Qed.

End OwnRow.

(** X28.  A round writes its own row only: in either direction, after the
    round that raises [count] to [count + 1], every label of every other
    row that [retour] held is what it was. *)
Theorem raptor_round_writes_its_own_row `{E : Externals} (data : Data)
  (clockwise : bool) (global_pruning : bool) (s : RAPTOR) (b : Boarding)
  (k : N) (rp : idx_t) :
  k <> (count s + 1)%N ->
  (k < vsize (retour s))%N ->
  label
    (fst (fst (raptor_round data
                 (if clockwise then raptor_visitor data
                  else raptor_reverse_visitor data)
                 global_pruning s b))) k rp
  = label s k rp.
Proof.
  intros Hk Hlt. destruct clockwise.
  - apply (raptor_round_own_row data (raptor_visitor data)
             (retour_constant data)); auto.
    + intros a. apply foot_path_run_own_row.
    + intros a. apply route_path_connections_own_row.
    + intros a rp0 w bd st e. apply store_better_own_row.
  - apply (raptor_round_own_row data (raptor_reverse_visitor data)
             (retour_constant_reverse data)); auto.
    + intros a. apply foot_path_run_own_row.
    + intros a. apply route_path_connections_own_row.
    + intros a rp0 w bd st e. apply store_better_own_row.
Qed.

(** ** The best arrivals of a forward pass *)

Section ForwardBest.
Context `{E : Externals}.
Variable data : Data.

Lemma improves_best (s s' : RAPTOR) :
  improves s s' -> well_sized data s ->
  forall rp, (arrival (best_at s' rp) <= arrival (best_at s rp))%N.
Proof.
  intros H [Hfit _]. destruct (H Hfit) as (_ & _ & _ & _ & Hb & _). exact Hb.
Qed.

Lemma raptor_rounds_best gp (fuel : nat) :
  forall (s : RAPTOR) b s',
    well_sized data s ->
    raptor_rounds data fuel (raptor_visitor data) gp s b = Some s' ->
    well_sized data s'
    /\ forall rp, (arrival (best_at s' rp) <= arrival (best_at s rp))%N.
Proof.
  induction fuel as [|fuel IH]; intros s b s' Hws Hrun; [discriminate|].
  simpl in Hrun.
  destruct (raptor_round_forward data gp s b Hws) as (W1 & I1 & _ & _).
  destruct (round_start_forward data s Hws) as (W0 & B0 & _).
  pose proof (improves_best _ _ I1 W0) as Hb.
  assert (Hb1 : forall rp,
             (arrival (best_at (fst (fst (raptor_round data
                                            (raptor_visitor data) gp s b)))
                               rp)
              <= arrival (best_at s rp))%N).
  { intros rp. specialize (Hb rp). unfold best_at in *. now rewrite B0 in Hb. }
  clear Hb I1.
  destruct (raptor_round data (raptor_visitor data) gp s b) as [[s1 b1] e1].
  simpl in W1, Hb1.
  destruct e1.
  - injection Hrun as <-. split; [exact W1|exact Hb1].
  - destruct (IH s1 b1 s' W1 Hrun) as [W2 Hb2]. split; [exact W2|].
    intros rp. specialize (Hb1 rp). specialize (Hb2 rp). lia.
Qed.

Lemma boucleRAPTOR_best gp fuel (s s' : RAPTOR) :
  well_sized data s ->
  boucleRAPTOR data fuel gp s = Some s' ->
  forall rp, (arrival (best_at s' rp) <= arrival (best_at s rp))%N.
Proof.
  intros Hws Hrun. unfold boucleRAPTOR, raptor_loop in Hrun.
  assert (Hws0 : well_sized data (with_count s 0)) by exact Hws.
  pose proof (marcheapied_improves data (with_count s 0)) as Hi.
  pose proof (improves_well_sized data _ _ Hi Hws0) as Hws1.
  pose proof (improves_best _ _ Hi Hws0) as Hb0.
  destruct (raptor_rounds_best gp fuel _ _ _ Hws1 Hrun) as [_ Hb].
  intros rp. specialize (Hb rp). specialize (Hb0 rp).
  eapply N.le_trans; [exact Hb|exact Hb0].
Qed.

End ForwardBest.

(** X29.  A forward pass never raises a best arrival: on an engine whose
    label vectors have the size of the route-point array, the best arrival
    [boucleRAPTOR] leaves at a route point is no later than the one it
    found there. *)
Theorem forward_pass_never_raises_best `{E : Externals} (data : Data)
  (fuel : nat) (global_pruning : bool) (s s' : RAPTOR) (rp : idx_t) :
  well_sized data s ->
  boucleRAPTOR data fuel global_pruning s = Some s' ->
  (arrival (best_at s' rp) <= arrival (best_at s rp))%N.
Proof. intros Hws Hrun. now apply (boucleRAPTOR_best data global_pruning fuel s s'). Qed.

(** ** Pruning *)

Section PruningFacts.
Context `{E : Externals}.
Variable data : Data.

Lemma store_better_false (s : RAPTOR) rpid wdt bound st emb :
  snd (store_better data s rpid wdt bound st emb) = false ->
  (snd (fst (store_better data s rpid wdt bound st emb)) < arrival bound)%N.
Proof.
  unfold store_better.
  destruct (N.ltb_spec (DT.update wdt (arrival_time st)) (arrival bound))
    as [Hlt|Hge]; simpl.
  - repeat match goal with
           | |- context [if ?c then _ else _] => destruct c
           | |- context [let '(_, _) := ?p in _] => destruct p
           end; simpl; intros H; try discriminate; exact Hlt.
  - repeat match goal with
           | |- context [if ?c then _ else _] => destruct c
           | |- context [let '(_, _) := ?p in _] => destruct p
           end; simpl; intros H; discriminate.
Qed.

Lemma store_better_reverse_false (s : RAPTOR) rpid wdt bound st emb :
  snd (store_better_reverse data s rpid wdt bound st emb) = false ->
  (departure bound
   < snd (fst (store_better_reverse data s rpid wdt bound st emb)))%N.
Proof.
  unfold store_better_reverse.
  destruct (N.ltb_spec (departure bound)
              (DT.updatereverse wdt (departure_time st)))
    as [Hlt|Hge]; simpl.
  - repeat match goal with
           | |- context [if ?c then _ else _] => destruct c
           | |- context [let '(_, _) := ?p in _] => destruct p
           end; simpl; intros H; try discriminate; exact Hlt.
  - repeat match goal with
           | |- context [if ?c then _ else _] => destruct c
           | |- context [let '(_, _) := ?p in _] => destruct p
           end; simpl; intros H; discriminate.
Qed.

Lemma scan_store_pruned_forward gp (s : RAPTOR) b rp :
  let r := scan_store data (raptor_visitor data) gp (s, b, true) rp in
  snd r = false ->
  (workingDt (snd (fst r)) < arrival (best_at s (rp_idx rp)))%N
  /\ (gp = true ->
      (workingDt (snd (fst r)) < arrival (best_now (b_dest s)))%N).
Proof.
  cbv zeta. unfold scan_store.
  destruct (0 <=? t b)%Z; [|discriminate].
  match goal with
  | |- context [if ?c then _ else _] => destruct c
  end; [|discriminate].
  cbn [better raptor_visitor v_store_better].
  destruct (N.ltb_spec (arrival (best_at s (rp_idx rp)))
              (arrival (best_now (b_dest s)))) as [Hlt|Hge];
    destruct gp; cbn [orb negb];
    match goal with
    | |- context [store_better data s ?r ?w ?bd ?st0 ?em] =>
        pose proof (store_better_false s r w bd st0 em) as H;
        destruct (store_better data s r w bd st0 em) as [[s1 w1] r1]
    end; cbn [fst snd workingDt] in *; rewrite andb_true_r; intros Hr;
    specialize (H Hr); split; try lia; intros; try discriminate; lia.
Qed.

Lemma scan_store_pruned_reverse gp (s : RAPTOR) b rp :
  let r := scan_store data (raptor_reverse_visitor data) gp (s, b, true) rp in
  snd r = false ->
  (departure (best_at s (rp_idx rp)) < workingDt (snd (fst r)))%N
  /\ (gp = true ->
      (departure (best_now (b_dest s)) < workingDt (snd (fst r)))%N).
Proof.
  cbv zeta. unfold scan_store.
  destruct (0 <=? t b)%Z; [|discriminate].
  match goal with
  | |- context [if ?c then _ else _] => destruct c
  end; [|discriminate].
  cbn [better raptor_reverse_visitor v_store_better].
  destruct (N.ltb_spec (departure (best_now (b_dest s)))
              (departure (best_at s (rp_idx rp)))) as [Hlt|Hge];
    destruct gp; cbn [orb negb];
    match goal with
    | |- context [store_better_reverse data s ?r ?w ?bd ?st0 ?em] =>
        pose proof (store_better_reverse_false s r w bd st0 em) as H;
        destruct (store_better_reverse data s r w bd st0 em)
          as [[s1 w1] r1]
    end; cbn [fst snd workingDt] in *; rewrite andb_true_r; intros Hr;
    specialize (H Hr); split; try lia; intros; try discriminate; lia.
Qed.

End PruningFacts.

(** X30.  What lets a store keep the loop going: when the store attempt at
    a route point turns [end] to false, the working datetime it leaves beats
    the best instant held at the route point (it is earlier forward, later
    in reverse) and, global pruning being on, also the best instant held at
    the destination. *)
Theorem scan_store_prunes_on_the_destination `{E : Externals} (data : Data)
  (global_pruning : bool) (s : RAPTOR) (b : Boarding) (rp : RoutePoint) :
  (let r := scan_store data (raptor_visitor data) global_pruning
                       (s, b, true) rp in
   snd r = false ->
   (workingDt (snd (fst r)) < arrival (best_at s (rp_idx rp)))%N
   /\ (global_pruning = true ->
       (workingDt (snd (fst r)) < arrival (best_now (b_dest s)))%N))
  /\
  (let r := scan_store data (raptor_reverse_visitor data) global_pruning
                       (s, b, true) rp in
   snd r = false ->
   (departure (best_at s (rp_idx rp)) < workingDt (snd (fst r)))%N
   /\ (global_pruning = true ->
       (departure (best_now (b_dest s)) < workingDt (snd (fst r)))%N)).
Proof.
  split.
  - apply scan_store_pruned_forward.
  - apply scan_store_pruned_reverse.
Qed.

(** ** Worked instances *)

Lemma route_path_connections_idle_on_net3_and_net2 :
  (set_bits (marked_rp net3_round1_scanned) = [1%N; 3%N]
   /\ route_path_connections_forward net3 net3_round1_scanned
      = net3_round1_scanned)
  /\ (set_bits (marked_rp net2_round1_scanned) = [0%N]
      /\ route_path_connections_backward net2 net2_round1_scanned
         = net2_round1_scanned).
Proof.
  split; (split; [vm_compute; reflexivity|]).
  - apply (proj1 (@route_path_connections_idle sample_externals net3
                    net3_round1_scanned)).
    intros rp _. right. reflexivity.
  - apply (proj2 (@route_path_connections_idle sample_externals net2
                    net2_round1_scanned)).
    intros rp Hin. vm_compute in Hin. destruct Hin as [<-|[]].
    right. vm_compute. reflexivity.
Defined.

Lemma raptor_loop_nothing_queued_on_net3 :
  exists s',
    boucleRAPTOR net3 1%nat false net3_idle = Some s'
    /\ count s' = 1%N
    /\ best s' = best net3_idle
    /\ b_dest s' = b_dest net3_idle
    /\ routes_valides s' = routes_valides net3_idle
    /\ retour s'
       = retour net3_idle
         ++ (if (1 =? vsize (retour net3_idle))%N
             then [retour_constant net3] else [])
    /\ set_bits (marked_rp s') = []
    /\ set_bits (marked_sp s') = [].
Proof.
  apply (@raptor_loop_nothing_queued sample_externals net3 true 0%nat false
           net3_idle).
  - vm_compute. reflexivity.
  - intros route Hr. vm_compute in Hr.
    repeat (destruct Hr as [<-|Hr]; [vm_compute; reflexivity|]).
    destruct Hr.
Defined.

Lemma clear_and_init_ignores_seed_departure_on_net3 :
  clear_and_init net3 engine3
    [{| rpidx := 0%N; d_arrival := 500%N; d_departure := 0%N |}]
    [(3%N, zero_meters)] DT.inf true true
  = clear_and_init net3 engine3
      [{| rpidx := 0%N; d_arrival := 500%N; d_departure := 777%N |}]
      [(3%N, zero_meters)] DT.inf true true.
Proof.
  apply (@clear_and_init_ignores_seed_departure sample_externals net3);
    reflexivity.
Defined.

Lemma clear_and_init_queue_on_net3 :
  (Q_at net3_init 0%N <= int_max)%Z /\ Q_at net3_init 0%N = 0%Z.
Proof.
  split; [|vm_compute; reflexivity].
  assert (Hr : (0 < vsize (routes net3))%N) by (vm_compute; reflexivity).
  exact (proj1 (proj2
           (@clear_and_init_queue sample_externals net3
              (set_routes_valides net3 engine3 0%N [])
              (getDepartures [(0%N, zero_meters)] 500%N true net3)
              [(3%N, zero_meters)] DT.inf true true 0%N Hr))).
Defined.

Lemma set_routes_valides_forbidden_entries_on_net1 :
  set_routes_valides net1 engine1 0%N
    [("line", "L1"); ("network", "N1")]%string
  = set_routes_valides net1 engine1 0%N
      [("line", "L1"); ("line", "L1")]%string.
Proof.
  apply (@set_routes_valides_forbidden_entries sample_externals net1).
  intros kind code Hk. simpl.
  destruct Hk as [-> | [-> | ->]]; split;
    intros [H|[H|[]]]; try (left; exact H); try discriminate H.
Defined.

Lemma set_routes_valides_antitone_on_net1 :
  List.length
    (routes_valides
       (set_routes_valides net1 engine1 0%N [("line", "L1")]%string))
  = List.length (routes net1)
  /\ (vget false
        (routes_valides
           (set_routes_valides net1 engine1 0%N [("line", "L1")]%string))
        0%N = true ->
      vget false (routes_valides (set_routes_valides net1 engine1 0%N []))
           0%N = true).
Proof.
  apply (@set_routes_valides_antitone sample_externals net1 engine1 0%N []
           [("line", "L1")]%string 0%N).
  intros p [].
Defined.

Lemma route_points_of_contiguous_route_on_net3 :
  v_route_points (raptor_visitor net3) (nth 2%nat (routes net3) net3_route0)
                 1%Z
  = map (fun k => vget RoutePoint_default (route_points net3)
                       (4 + N.of_nat k)%N)
        (seq (Z.to_nat 1) (2 - Z.to_nat 1))
  /\ v_route_points (raptor_reverse_visitor net3)
                    (nth 2%nat (routes net3) net3_route0) 1%Z
     = map (fun k => vget RoutePoint_default (route_points net3)
                          (4 + N.of_nat k)%N)
           (rev (seq 0 (Z.to_nat 1 + 1))).
Proof.
  apply (@route_points_of_contiguous_route sample_externals net3
           (nth 2%nat (routes net3) net3_route0) 4%N 2%nat 1%Z).
  - reflexivity.
  - lia.
  - vm_compute. lia.
Defined.

Lemma makePathes_one_path_per_round_on_net1 :
  net1_walk_paths <> []
  /\ (N.of_nat (List.length net1_walk_paths) <= count net1_walk)%N.
Proof.
  split; [vm_compute; discriminate|].
  apply (@makePathes_one_path_per_round sample_externals net1 10%nat
           net1_walk net1_walk_destinations DT.inf net1_walk_paths).
  left. vm_compute. reflexivity.
Defined.

Lemma makePathes_none_reached_on_net1 :
  makePathes net1 10%nat net1_blocked [(3%N, zero_meters)] DT.inf = Some []
  /\ makePathesreverse net1 10%nat net1_blocked [(3%N, zero_meters)] DT.inf
     = Some [].
Proof.
  apply (@makePathes_none_reached sample_externals net1 10%nat net1_blocked
           [(3%N, zero_meters)] DT.inf).
  intros i sp_dist rp Hi Hsp Hrp.
  assert (Hc : count net1_blocked = 2%N) by (vm_compute; reflexivity).
  rewrite Hc in Hi.
  destruct Hsp as [<-|[]]. vm_compute in Hrp. destruct Hrp as [<-|[]].
  assert (Hcases : i = 1%N \/ i = 2%N) by lia.
  destruct Hcases as [->| ->]; vm_compute; reflexivity.
Defined.

Lemma makePath_items_well_formed_on_net1 :
  Forall (item_shape true) (Path.items net1_path_value).
Proof.
  apply (@makePath_items_well_formed sample_externals net1 10%nat
           net1_forward 2%N 1%N false net1_path_value).
  vm_compute. reflexivity.
Defined.

Lemma makePath_from_a_seed_of_net1 :
  type (label net1_forward 0%N 0%N) = depart
  /\ makePath net1 10%nat net1_forward 0%N 0%N false = None.
Proof.
  split; [vm_compute; reflexivity|].
  apply (@makePath_from_a_label_without_stop_time sample_externals net1
           10%nat net1_forward 0%N 0%N false).
  - vm_compute. reflexivity.
  - apply N.leb_le. vm_compute. reflexivity.
Defined.

Lemma compute_all_from_a_used_engine_on_net1 :
  compute_all net1 10%nat engine1 [(0%N, zero_meters)] [(2%N, zero_meters)]
              27000%N DT.inf []
  = compute_all net1 10%nat engine1_used [(0%N, zero_meters)]
                [(2%N, zero_meters)] 27000%N DT.inf []
  /\ compute_reverse_all net1 10%nat engine1 [(0%N, zero_meters)]
                         [(2%N, zero_meters)] 27000%N DT.inf []
     = compute_reverse_all net1 10%nat engine1_used [(0%N, zero_meters)]
                           [(2%N, zero_meters)] 27000%N DT.inf [].
Proof.
  apply (@compute_all_from_a_used_engine sample_externals net1 10%nat
           engine1 engine1_used); reflexivity.
Defined.

Lemma datetimes_drivers_one_path_each_on_net3 :
  map snd (fst net3_datetimes) = [900%N; 700%N; 500%N]
  /\ ((List.length (fst net3_datetimes)
       <= List.length [500%N; 900%N; 700%N])%nat
      /\ Forall (fun p => In (snd p) (map DT.hour [500%N; 900%N; 700%N]))
                (fst net3_datetimes)).
Proof.
  split; [vm_compute; reflexivity|].
  apply (@datetimes_drivers_one_path_each sample_externals net3 0%N 10%nat
           (set_routes_valides net3 engine3 0%N [])
           [(0%N, zero_meters)] [(2%N, zero_meters)]
           [500%N; 900%N; 700%N] DT.inf (fst net3_datetimes)
           (snd net3_datetimes)).
  left. vm_compute. reflexivity.
Defined.

Lemma makePath_rides_at_most_countb_on_net1 :
  (N.of_nat
     (List.length
        (filter (fun item =>
                   ItemType.eqb (PathItem.type item)
                                ItemType.public_transport)
                (Path.items net1_path_value)))
   <= 1)%N.
Proof.
  apply (@makePath_rides_at_most_countb sample_externals net1 10%nat
           net1_forward 2%N 1%N false net1_path_value).
  - apply N.leb_le. vm_compute. reflexivity.
  - apply N.leb_le. vm_compute. reflexivity.
  - vm_compute. reflexivity.
Defined.

Lemma relax_footpaths_walk_times_on_net2 :
  label (fst (fst (relax_footpaths net2 walking_backwards_visitor 0%N 1000%N
                     0%Z 1%Z (with_count net2_init 0%N)))) 0%N 3%N
  = retour_connection 900%N 900%N 0%N
  /\ (label (fst (fst (relax_footpaths net2 walking_backwards_visitor 0%N
                         1000%N 0%Z 1%Z (with_count net2_init 0%N))))
            (count (with_count net2_init 0%N)) 3%N
      = label (with_count net2_init 0%N) (count (with_count net2_init 0%N))
              3%N
      \/ exists k,
           (k < Z.to_nat 1)%nat
           /\ In 3%N
                (route_point_list
                   (stop_point net2
                      (destination_stop_point_idx
                         (vget Connection_default (foot_path net2)
                               (Z.to_N (0 + Z.of_nat k))))))
           /\ 3%N <> 0%N
           /\ label (fst (fst (relax_footpaths net2 walking_backwards_visitor
                                 0%N 1000%N 0%Z 1%Z
                                 (with_count net2_init 0%N))))
                    (count (with_count net2_init 0%N)) 3%N
              = retour_connection
                  (combine walking_backwards_visitor 1000%N
                     (duration
                        (vget Connection_default (foot_path net2)
                              (Z.to_N (0 + Z.of_nat k)))))
                  (combine walking_backwards_visitor 1000%N
                     (duration
                        (vget Connection_default (foot_path net2)
                              (Z.to_N (0 + Z.of_nat k)))))
                  0%N).
Proof.
  split; [vm_compute; reflexivity|].
  apply (@relax_footpaths_walk_times sample_externals net2
           walking_backwards_visitor 0%N 1000%N 0%Z 1%Z
           (with_count net2_init 0%N) 3%N).
  intros k Hk. assert (k = 0%nat) as -> by lia. vm_compute. discriminate.
Defined.

Lemma raptor_round_writes_its_own_row_on_net3 :
  label
    (fst (fst (raptor_round net3 (raptor_visitor net3) false
                 (marcheapied net3 (with_count net3_init 0%N))
                 (boarding_init (raptor_visitor net3))))) 0%N 0%N
  = label (marcheapied net3 (with_count net3_init 0%N)) 0%N 0%N.
Proof.
  apply (@raptor_round_writes_its_own_row sample_externals net3 true false
           (marcheapied net3 (with_count net3_init 0%N))
           (boarding_init (raptor_visitor net3)) 0%N 0%N).
  - vm_compute. discriminate.
  - vm_compute. reflexivity.
Defined.

Lemma forward_pass_never_raises_best_on_net3 :
  arrival (best_at net3_forward 1%N) = 3120%N
  /\ (arrival (best_at net3_forward 1%N) <= arrival (best_at net3_init 1%N))%N.
Proof.
  split; [vm_compute; reflexivity|].
  apply (@forward_pass_never_raises_best sample_externals net3 10%nat false
           net3_init net3_forward 1%N).
  - apply net3_init_well_sized.
  - vm_compute. reflexivity.
Defined.

Lemma scan_store_prunes_on_the_destination_on_net3 :
  (workingDt
     (snd (fst (scan_store net3 (raptor_visitor net3) false
                  (net3_round1, net3_boarded, true) (mkrp 1%N 1%Z 0%N 2%N))))
   < arrival (best_at net3_round1 1%N))%N
  /\ workingDt
       (snd (fst (scan_store net3 (raptor_visitor net3) false
                    (net3_round1, net3_boarded, true)
                    (mkrp 1%N 1%Z 0%N 2%N))))
     = 5000%N.
Proof.
  split; [|vm_compute; reflexivity].
  assert (Hr : snd (scan_store net3 (raptor_visitor net3) false
                      (net3_round1, net3_boarded, true)
                      (mkrp 1%N 1%Z 0%N 2%N)) = false)
    by (vm_compute; reflexivity).
  exact (proj1 (proj1 (@scan_store_prunes_on_the_destination
                         sample_externals net3 false net3_round1
                         net3_boarded (mkrp 1%N 1%Z 0%N 2%N)) Hr)).
Defined.
